(** * BareMetal yalibc: the formatted-output engine and its Ryu core

    A shallow embedding of the printf family of [yalibc] (the
    conversion-specifier parser, the output sink, the field formatter,
    the integer and float renderers and the dispatch loop), of the
    binary64-to-decimal conversion of [ryu.c] and of the searches of
    [string.c] that printf calls, followed by the properties of the
    specification that were checked against them and by further
    properties of the same code.

    Conventions of the embedding:
    - C integers are [Z]; unsigned arithmetic wraps with [u32], [u64]
      and [u128], and signed [int] arithmetic is two's complement
      ([s32], [s64]), which is what the RISC-V targets compute.
    - A pointer with its length ([const char *] and [size_t]) is a
      [list ascii]: the slice it designates.
    - Operations that have no machine-independent result (an array read
      out of bounds, a shift count outside the width of its type, a
      [va_arg] that finds no argument of the requested class) yield
      [Undef]; a loop that does not finish within its fuel yields
      [Diverge]. *)

From Stdlib Require Import ZArith List String Ascii Bool Lia.
From stdpp Require Import gmap.
Import ListNotations.
Open Scope Z_scope.

(** ** Machine integers *)

Module MachInt.

Definition u8   (x : Z) : Z := x mod 2 ^ 8.
Definition u16  (x : Z) : Z := x mod 2 ^ 16.
Definition u32  (x : Z) : Z := x mod 2 ^ 32.
Definition u64  (x : Z) : Z := x mod 2 ^ 64.
Definition u128 (x : Z) : Z := x mod 2 ^ 128.

(** Reinterpretation of the low [w] bits as a signed number. *)
Definition sN (w : Z) (x : Z) : Z := (x + 2 ^ (w - 1)) mod 2 ^ w - 2 ^ (w - 1).
Definition s8  := sN 8.
Definition s16 := sN 16.
Definition s32 := sN 32.
Definition s64 := sN 64.

Definition INT_MAX  : Z := 2147483647.
Definition SIZE_MAX : Z := 2 ^ 64 - 1.

(** A C condition: any non-zero value is true. *)
Definition nz (x : Z) : bool := negb (x =? 0).

End MachInt.
Import MachInt.

(** ** Results of C computations *)

Inductive res (A : Type) : Type :=
| Ok (a : A)
| Undef
| Diverge.
Arguments Ok {A} a.
Arguments Undef {A}.
Arguments Diverge {A}.

Definition bind {A B : Type} (m : res A) (k : A -> res B) : res B :=
  match m with
  | Ok a => k a
  | Undef => Undef
  | Diverge => Diverge
  end.

Notation "'let!' x ':=' m 'in' k" := (bind m (fun x => k))
  (at level 10, x pattern, m at level 100, k at level 200).

(** ** Characters *)

Definition NUL : ascii := "000"%char.
Definition code (c : ascii) : Z := Z.of_N (N_of_ascii c).
Definition chr (z : Z) : ascii := ascii_of_N (Z.to_N (u8 z)).

(** ** errno.h *)

Definition EINVAL  : Z := 22.
Definition ENOTSUP : Z := 95.

(** ** Descriptor flags (the enums of the printf implementation) *)

Definition FFLAG_ALT      : Z := 0x01.
Definition FFLAG_ZERO_PAD : Z := 0x02.
Definition FFLAG_LEFT_ADJ : Z := 0x04.
Definition FFLAG_NOPSIGN  : Z := 0x08.
Definition FFLAG_ADDSIGN  : Z := 0x10.
Definition FFLAG_MASK     : Z := 0x1F.

Definition LFLAG_HALF      : Z := 0x020.
Definition LFLAG_HALF_HALF : Z := 0x040.
Definition LFLAG_LONG      : Z := 0x080.
Definition LFLAG_LONG_LONG : Z := 0x100.
Definition LFLAG_INTMAX    : Z := 0x200.
Definition LFLAG_SIZET     : Z := 0x400.
Definition LFLAG_PTRDIFF   : Z := 0x800.
Definition LFLAG_MASK      : Z := 0xFE0.

Definition TFLAG_INT    : Z := 0x01000.
Definition TFLAG_DOUBLE : Z := 0x02000.
Definition TFLAG_CHAR   : Z := 0x04000.
Definition TFLAG_STRING : Z := 0x08000.
Definition TFLAG_PTR    : Z := 0x10000.
Definition TFLAG_CTR    : Z := 0x20000.
Definition TFLAG_MASK   : Z := 0x3F000.

Definition SFLAG_HAS_WIDTH : Z := 0x0040000.
Definition SFLAG_HAS_PREC  : Z := 0x0080000.
Definition SFLAG_UPPERCASE : Z := 0x0100000.
Definition SFLAG_IS_SIGNED : Z := 0x0200000.
Definition SFLAG_IS_FFORM  : Z := 0x0400000.
Definition SFLAG_IS_EFORM  : Z := 0x0800000.
Definition SFLAG_IS_GFORM  : Z := 0x0C00000.
Definition SFLAG_IS_AFORM  : Z := 0x1000000.
Definition SFLAG_IS_FAST   : Z := 0x2000000.
Definition SFLAG_MASK      : Z := 0x3FC0000.

Definition TRFLAG_REVERSE_PREFIX : Z := 0x04000000.
Definition TRFLAG_REVERSE_NUM    : Z := 0x08000000.
Definition TRFLAG_REVERSE_SUFFIX : Z := 0x10000000.
Definition TRFLAG_MASK           : Z := 0x1C000000.

Definition RADIX_BIN : Z := 2.
Definition RADIX_OCT : Z := 8.
Definition RADIX_DEC : Z := 10.
Definition RADIX_HEX : Z := 16.

(** [fi->flags & f] as a condition, [fi->flags |= f], [fi->flags &= ~f]
    on the 32-bit flag word. *)
Definition has (fl f : Z) : bool := nz (Z.land fl f).
Definition set_flag (fl f : Z) : Z := Z.lor fl f.
Definition clear_flag (fl f : Z) : Z := Z.land fl (Z.lxor f 0xFFFFFFFF).

(** ** The structs *)

Record format_info := mk_fi {
  flags      : Z;
  width      : Z;
  precision  : Z;
  int_bitlen : Z;
  num_pad    : Z;
  suffix_pad : Z;
  radix      : Z
}.

(** [struct field_data]: each buffer pointer and its length is one slice. *)
Record field_data := mk_fld {
  inbuff    : list ascii;
  prefix    : list ascii;
  suffix    : list ascii;
  sign_char : ascii
}.

(** [struct output_info].  [outbuff = None] is the NULL destination
    (characters go to [putchar]); otherwise it holds the bytes stored so
    far at each offset from the destination pointer.  [console] is the
    character stream [putchar] has written. *)
Record output_info := mk_out {
  outbuff     : option (gmap Z ascii);
  outbuff_len : Z;
  chars_out   : Z;
  console     : list ascii
}.

Definition with_flags (fi : format_info) (f : Z) : format_info :=
  mk_fi f (width fi) (precision fi) (int_bitlen fi) (num_pad fi) (suffix_pad fi) (radix fi).
Definition with_width (fi : format_info) (w : Z) : format_info :=
  mk_fi (flags fi) w (precision fi) (int_bitlen fi) (num_pad fi) (suffix_pad fi) (radix fi).
Definition with_precision (fi : format_info) (p : Z) : format_info :=
  mk_fi (flags fi) (width fi) p (int_bitlen fi) (num_pad fi) (suffix_pad fi) (radix fi).
Definition with_int_bitlen (fi : format_info) (b : Z) : format_info :=
  mk_fi (flags fi) (width fi) (precision fi) b (num_pad fi) (suffix_pad fi) (radix fi).
Definition with_num_pad (fi : format_info) (p : Z) : format_info :=
  mk_fi (flags fi) (width fi) (precision fi) (int_bitlen fi) p (suffix_pad fi) (radix fi).
Definition with_suffix_pad (fi : format_info) (p : Z) : format_info :=
  mk_fi (flags fi) (width fi) (precision fi) (int_bitlen fi) (num_pad fi) p (radix fi).
Definition with_radix (fi : format_info) (r : Z) : format_info :=
  mk_fi (flags fi) (width fi) (precision fi) (int_bitlen fi) (num_pad fi) (suffix_pad fi) r.

Definition yalc_clear_fi : format_info := mk_fi 0 0 0 0 0 0 RADIX_DEC.
Definition yalc_clear_fld : field_data := mk_fld [] [] [] NUL.

(** ** Output handling *)

Module Sink.

(** The store [yalc_pf_char_out] performs into the destination, if any:
    the character at [chars_out] while it is below [outbuff_len - 1],
    the terminator when it is exactly [outbuff_len - 1]. *)
Definition char_out_store (c : ascii) (out : output_info) : option (Z * ascii) :=
  match outbuff out with
  | None => None
  | Some _ =>
      if 0 <? outbuff_len out then
        if chars_out out <? outbuff_len out - 1 then Some (chars_out out, c)
        else if chars_out out =? outbuff_len out - 1 then Some (chars_out out, NUL)
        else None
      else None
  end.

Definition yalc_pf_char_out (c : ascii) (out : output_info) : output_info :=
  let cnt := u64 (chars_out out + 1) in
  match outbuff out with
  | None => mk_out None (outbuff_len out) cnt (console out ++ [c])
  | Some b =>
      match char_out_store c out with
      | Some (i, x) => mk_out (Some (<[i := x]> b)) (outbuff_len out) cnt (console out)
      | None => mk_out (Some b) (outbuff_len out) cnt (console out)
      end
  end.

(** A run of calls of [yalc_pf_char_out], in order. *)
Definition emit (text : list ascii) (out : output_info) : output_info :=
  fold_left (fun o c => yalc_pf_char_out c o) text out.

Definition yalc_pf_chars_out (inb : list ascii) (reverse : bool)
           (out : output_info) : output_info :=
  if reverse then emit (rev inb) out else emit inb out.

Fixpoint pad_loop (n : nat) (pad : ascii) (out : output_info) : output_info :=
  match n with
  | O => out
  | S n' => pad_loop n' pad (yalc_pf_char_out pad out)
  end.

(** [pad_len] is a [size_t]. *)
Definition yalc_pf_pad (pad_len : Z) (pad : ascii) (out : output_info) : output_info :=
  pad_loop (Z.to_nat (u64 pad_len)) pad out.

End Sink.
Import Sink.

(** ** The field formatter *)

Definition len (l : list ascii) : Z := Z.of_nat (length l).

Definition prebuf_pad_of (fi : format_info) : Z :=
  if num_pad fi <? 0 then s32 (- num_pad fi) else 0.
Definition postbuf_pad_of (fi : format_info) : Z :=
  if 0 <? num_pad fi then num_pad fi else 0.

Definition field_width (fld : field_data) (fi : format_info) : Z :=
  u64 (len (prefix fld) + prebuf_pad_of fi + len (inbuff fld) + postbuf_pad_of fi
       + len (suffix fld) + suffix_pad fi
       + (if Ascii.eqb (sign_char fld) NUL then 0 else 1)).

Definition width_pad_of (fld : field_data) (fi : format_info) : Z :=
  if field_width fld fi <? u64 (width fi)
  then s32 (u64 (width fi) - field_width fld fi)
  else 0.

Definition yalc_pf_field_out (fld : field_data) (fi : format_info)
           (out : output_info) : output_info :=
  let prebuf_pad := prebuf_pad_of fi in
  let postbuf_pad := postbuf_pad_of fi in
  let width_pad := width_pad_of fld fi in
  let pad_flags := Z.land (Z.shiftr (flags fi) 1) 3 in
  let rp := has (flags fi) TRFLAG_REVERSE_PREFIX in
  let rn := has (flags fi) TRFLAG_REVERSE_NUM in
  let rs := has (flags fi) TRFLAG_REVERSE_SUFFIX in
  if pad_flags =? 0 then
    let out := yalc_pf_pad width_pad " " out in
    let out := yalc_pf_chars_out (prefix fld) rp out in
    let out := yalc_pf_pad prebuf_pad "0" out in
    let out := yalc_pf_chars_out (inbuff fld) rn out in
    let out := yalc_pf_pad postbuf_pad "0" out in
    let out := yalc_pf_chars_out (suffix fld) rs out in
    yalc_pf_pad (suffix_pad fi) "0" out
  else if pad_flags =? 1 then
    let out :=
      if has (flags fi) TFLAG_DOUBLE then
        let out := if Ascii.eqb (sign_char fld) NUL then out
                   else yalc_pf_char_out (sign_char fld) out in
        let out := yalc_pf_pad width_pad "0" out in
        yalc_pf_chars_out (prefix fld) rp out
      else
        let out := yalc_pf_chars_out (prefix fld) rp out in
        yalc_pf_pad width_pad "0" out in
    let out := yalc_pf_chars_out (inbuff fld) rn out in
    let out := yalc_pf_pad postbuf_pad "0" out in
    let out := yalc_pf_chars_out (suffix fld) rs out in
    yalc_pf_pad (suffix_pad fi) "0" out
  else
    let out := yalc_pf_chars_out (prefix fld) rp out in
    let out := yalc_pf_pad prebuf_pad "0" out in
    let out := yalc_pf_chars_out (inbuff fld) rn out in
    let out := yalc_pf_pad postbuf_pad "0" out in
    let out := yalc_pf_chars_out (suffix fld) rs out in
    let out := yalc_pf_pad (suffix_pad fi) "0" out in
    yalc_pf_pad width_pad " " out.

(** [yalc_pf_field_out_simple]: the sibling of the field formatter that
    only pads on the left with spaces.  Its [field_width] is an [int],
    so the width is compared, and the padding computed, in [int]. *)
Definition width_pad_simple (fld : field_data) (fi : format_info) : Z :=
  let field_width := s32 (field_width fld fi) in
  if field_width <? width fi then s32 (width fi - field_width) else 0.

Definition yalc_pf_field_out_simple (fld : field_data) (fi : format_info)
           (out : output_info) : output_info :=
  let prebuf_pad := prebuf_pad_of fi in
  let postbuf_pad := postbuf_pad_of fi in
  let width_pad := width_pad_simple fld fi in
  let out := yalc_pf_pad width_pad " " out in
  let out := if Ascii.eqb (sign_char fld) NUL then out
             else yalc_pf_char_out (sign_char fld) out in
  let out := yalc_pf_chars_out (prefix fld) (has (flags fi) TRFLAG_REVERSE_PREFIX) out in
  let out := yalc_pf_pad prebuf_pad "0" out in
  let out := yalc_pf_chars_out (inbuff fld) (has (flags fi) TRFLAG_REVERSE_NUM) out in
  let out := yalc_pf_pad postbuf_pad "0" out in
  let out := yalc_pf_chars_out (suffix fld) (has (flags fi) TRFLAG_REVERSE_SUFFIX) out in
  yalc_pf_pad (suffix_pad fi) "0" out.

(** ** The variadic argument stream *)

(** One variadic argument, by the class it was passed in: an integer
    register value, the bits of a [double], a [long double], or a
    [char *] (NULL or a NUL-terminated string). *)
Inductive va_item : Type :=
| VInt (v : Z)
| VDouble (bits : Z)
| VLongDouble
| VStr (s : option string).

Definition va_list := list va_item.

Definition va_arg_int (va : va_list) : res (Z * va_list) :=
  match va with
  | VInt v :: r => Ok (v, r)
  | _ => Undef
  end.

Definition va_arg_double (va : va_list) : res (Z * va_list) :=
  match va with
  | VDouble b :: r => Ok (u64 b, r)
  | _ => Undef
  end.

Definition va_arg_long_double (va : va_list) : res va_list :=
  match va with
  | VLongDouble :: r => Ok r
  | _ => Undef
  end.

Definition va_arg_str (va : va_list) : res (option string * va_list) :=
  match va with
  | VStr s :: r => Ok (s, r)
  | _ => Undef
  end.

(** ** Input format handling *)

Module Parser.

(** The locals of [yalc_pf_parse_format] next to the descriptor. *)
Record pstate := mk_ps {
  fi             : format_info;
  width_from_arg : bool;
  prec_from_arg  : bool;
  has_bitlen     : bool
}.

Definition ps_fi (st : pstate) (f : format_info) : pstate :=
  mk_ps f (width_from_arg st) (prec_from_arg st) (has_bitlen st).
Definition ps_flags (st : pstate) (f : Z) : pstate :=
  ps_fi st (with_flags (fi st) f).
Definition fl (st : pstate) : Z := flags (fi st).

(** What one turn of the [switch] inside the [for] loop does. *)
Inductive action : Type :=
| Continue (st : pstate) (va : va_list)      (* continue *)
| ContinueSkip (st : pstate) (va : va_list)  (* i++; continue  (after "wf") *)
| Break (st : pstate) (va : va_list)         (* a conversion letter: leave the loop *)
| Return (ret : Z) (st : pstate) (va : va_list).

Definition is_digit19 (c : ascii) : bool := (49 <=? code c) && (code c <=? 57).

(** The conversion letters: the second [switch] group, ending in [break]. *)
Definition conversion (c : ascii) (st : pstate) : option (Z + pstate) :=
  let f := fl st in
  match c with
  | "c"%char =>
      Some (if has f LFLAG_LONG then inl (- ENOTSUP)
            else inr (ps_flags st (set_flag f TFLAG_CHAR)))
  | "s"%char =>
      Some (if has f LFLAG_LONG then inl (- ENOTSUP)
            else inr (ps_flags st (set_flag f TFLAG_STRING)))
  | "i"%char | "d"%char =>
      Some (inr (ps_flags st (set_flag (set_flag f SFLAG_IS_SIGNED) TFLAG_INT)))
  | "u"%char =>
      Some (inr (ps_flags st (set_flag f TFLAG_INT)))
  | "X"%char =>
      Some (inr (ps_fi st (with_radix
             (with_flags (fi st) (set_flag (set_flag f SFLAG_UPPERCASE) TFLAG_INT))
             RADIX_HEX)))
  | "x"%char =>
      Some (inr (ps_fi st (with_radix (with_flags (fi st) (set_flag f TFLAG_INT)) RADIX_HEX)))
  | "B"%char =>
      Some (inr (ps_fi st (with_radix
             (with_flags (fi st) (set_flag (set_flag f SFLAG_UPPERCASE) TFLAG_INT))
             RADIX_BIN)))
  | "b"%char =>
      Some (inr (ps_fi st (with_radix (with_flags (fi st) (set_flag f TFLAG_INT)) RADIX_BIN)))
  | "p"%char =>
      Some (inr (ps_fi st (with_radix
             (with_flags (fi st)
                (set_flag (set_flag (set_flag f FFLAG_ALT) LFLAG_LONG) TFLAG_INT))
             RADIX_HEX)))
  | "o"%char =>
      Some (inr (ps_fi st (with_radix (with_flags (fi st) (set_flag f TFLAG_INT)) RADIX_OCT)))
  | "E"%char =>
      Some (inr (ps_flags st
             (set_flag (set_flag f SFLAG_UPPERCASE) (Z.lor SFLAG_IS_EFORM TFLAG_DOUBLE))))
  | "e"%char =>
      Some (inr (ps_flags st (set_flag f (Z.lor SFLAG_IS_EFORM TFLAG_DOUBLE))))
  | "F"%char =>
      Some (inr (ps_flags st (set_flag (set_flag f SFLAG_UPPERCASE) TFLAG_DOUBLE)))
  | "f"%char =>
      Some (inr (ps_flags st (set_flag f TFLAG_DOUBLE)))
  | "G"%char =>
      Some (inr (ps_flags st
             (set_flag (set_flag f SFLAG_UPPERCASE) (Z.lor SFLAG_IS_GFORM TFLAG_DOUBLE))))
  | "g"%char =>
      Some (inr (ps_flags st (set_flag f (Z.lor SFLAG_IS_GFORM TFLAG_DOUBLE))))
  | "A"%char =>
      Some (inr (ps_fi st (with_radix
             (with_flags (fi st)
                (set_flag (set_flag f SFLAG_UPPERCASE) (Z.lor SFLAG_IS_AFORM TFLAG_DOUBLE)))
             RADIX_HEX)))
  | "a"%char =>
      Some (inr (ps_fi st (with_radix
             (with_flags (fi st) (set_flag f (Z.lor SFLAG_IS_AFORM TFLAG_DOUBLE)))
             RADIX_HEX)))
  | "n"%char | "m"%char => Some (inl (- ENOTSUP))
  | _ => None
  end.

(** One turn of the loop body on [cur_char = c], where [next] is
    [fmt[i + 1]] (the NUL terminator at the end of the text). *)
Definition parse_char (c next : ascii) (st : pstate) (va : va_list) : res action :=
  let f := fl st in
  match c with
  | "#"%char => Ok (Continue (ps_flags st (set_flag f FFLAG_ALT)) va)
  | "0"%char =>
      if has f SFLAG_HAS_PREC && negb (prec_from_arg st) then
        Ok (Continue (ps_fi st (with_precision (fi st) (s32 (precision (fi st) * 10)))) va)
      else if has f SFLAG_HAS_WIDTH && negb (width_from_arg st) then
        Ok (Continue (ps_fi st (with_width (fi st) (s32 (width (fi st) * 10)))) va)
      else if negb (has f FFLAG_ZERO_PAD) then
        Ok (Continue (ps_flags st (set_flag f FFLAG_ZERO_PAD)) va)
      else Ok (Return (- EINVAL) st va)
  | "-"%char => Ok (Continue (ps_flags st (set_flag f FFLAG_LEFT_ADJ)) va)
  | " "%char => Ok (Continue (ps_flags st (set_flag f FFLAG_NOPSIGN)) va)
  | "+"%char => Ok (Continue (ps_flags st (set_flag f FFLAG_ADDSIGN)) va)
  | "'"%char => Ok (Continue st va)
  | "."%char =>
      if negb (has f SFLAG_HAS_PREC) then
        Ok (Continue (ps_flags st (set_flag f SFLAG_HAS_PREC)) va)
      else Ok (Return (- EINVAL) st va)
  | "*"%char =>
      if width_from_arg st && prec_from_arg st then Ok (Return (- EINVAL) st va)
      else if negb (has f SFLAG_HAS_PREC) then
        let f1 := set_flag f SFLAG_HAS_WIDTH in
        let! (a, va') := va_arg_int va in
        let width_arg := s32 a in
        let f2 := if width_arg <? 0 then set_flag f1 FFLAG_LEFT_ADJ else f1 in
        let width_arg := if width_arg <? 0 then s32 (- width_arg) else width_arg in
        Ok (Continue
              (mk_ps (with_width (with_flags (fi st) f2) width_arg)
                     true (prec_from_arg st) (has_bitlen st)) va')
      else
        let! (a, va') := va_arg_int va in
        let prec_arg := s32 a in
        if prec_arg <? 0 then
          Ok (Continue (ps_flags st (clear_flag f SFLAG_HAS_PREC)) va')
        else
          Ok (Continue
                (mk_ps (with_precision (with_flags (fi st) (set_flag f SFLAG_HAS_PREC)) prec_arg)
                       (width_from_arg st) true (has_bitlen st)) va')
  | "$"%char => Ok (Return (- ENOTSUP) st va)
  | "h"%char =>
      if has f LFLAG_HALF then Ok (Continue (ps_flags st (set_flag f LFLAG_HALF_HALF)) va)
      else if has f LFLAG_HALF_HALF then Ok (Return (- EINVAL) st va)
      else Ok (Continue (ps_flags st (set_flag f LFLAG_HALF)) va)
  | "l"%char =>
      if has f LFLAG_LONG then Ok (Continue (ps_flags st (set_flag f LFLAG_LONG_LONG)) va)
      else if has f LFLAG_LONG_LONG then Ok (Return (- EINVAL) st va)
      else Ok (Continue (ps_flags st (set_flag f LFLAG_LONG)) va)
  | "L"%char =>
      if has f LFLAG_MASK then Ok (Return (- EINVAL) st va)
      else Ok (Continue (ps_flags st (set_flag f LFLAG_LONG)) va)
  | "j"%char =>
      if has f LFLAG_MASK then Ok (Return (- EINVAL) st va)
      else Ok (Continue (ps_flags st (set_flag f LFLAG_INTMAX)) va)
  | "z"%char =>
      if has f LFLAG_MASK then Ok (Return (- EINVAL) st va)
      else Ok (Continue (ps_flags st (set_flag f LFLAG_SIZET)) va)
  | "t"%char =>
      if has f LFLAG_MASK then Ok (Return (- EINVAL) st va)
      else Ok (Continue (ps_flags st (set_flag f LFLAG_PTRDIFF)) va)
  | "w"%char =>
      if has_bitlen st || has f LFLAG_MASK then Ok (Return (- EINVAL) st va)
      else
        let st1 := mk_ps (fi st) (width_from_arg st) (prec_from_arg st) true in
        if Ascii.eqb next "f" then
          Ok (ContinueSkip (ps_flags st1 (set_flag f SFLAG_IS_FAST)) va)
        else Ok (Continue st1 va)
  | _ =>
      if is_digit19 c then
        if has_bitlen st then
          let b := s32 (s32 (int_bitlen (fi st) * 10) + (code c - 48)) in
          let st1 := ps_fi st (with_int_bitlen (fi st) b) in
          if 64 <? u64 b then Ok (Return (- EINVAL) st1 va)
          else Ok (Continue st1 va)
        else if negb (has f SFLAG_HAS_PREC) then
          if width_from_arg st || prec_from_arg st then Ok (Return (- EINVAL) st va)
          else
            let st1 := ps_flags st (set_flag f SFLAG_HAS_WIDTH) in
            if INT_MAX / 10 <? width (fi st1) then Ok (Return (- EINVAL) st1 va)
            else
              Ok (Continue
                    (ps_fi st1 (with_width (fi st1)
                       (s32 (s32 (width (fi st1) * 10) + (code c - 48))))) va)
        else
          if prec_from_arg st then Ok (Return (- EINVAL) st va)
          else if INT_MAX / 10 <? precision (fi st) then Ok (Return (- EINVAL) st va)
          else
            Ok (Continue
                  (ps_fi st (with_precision (fi st)
                     (s32 (s32 (precision (fi st) * 10) + (code c - 48))))) va)
      else
        match conversion c st with
        | None => Ok (Continue st va)                     (* default: continue *)
        | Some (inl e) => Ok (Return e st va)
        | Some (inr st1) =>
            if Z.land (fl st1) TFLAG_MASK =? 0 then Ok (Return (- EINVAL) st1 va)
            else Ok (Break st1 va)
        end
  end.

(** How the function leaves its [for] loop. *)
Inductive loop_exit : Type :=
| Returned (ret : Z) (st : pstate) (va : va_list)
| Fell (i : Z) (st : pstate) (va : va_list).

Definition peek (s : string) : ascii :=
  match s with
  | EmptyString => NUL
  | String c _ => c
  end.

(** The [for (i = 1; i < fmt_len; i++)] loop; [s] is the text from
    [fmt[i]] to the terminator. *)
Fixpoint parse_loop (s : string) (i : Z) (st : pstate) (va : va_list) : res loop_exit :=
  match s with
  | EmptyString => Ok (Fell i st va)
  | String c rest =>
      let! a := parse_char c (peek rest) st va in
      match a with
      | Continue st' va' => parse_loop rest (i + 1) st' va'
      | ContinueSkip st' va' =>
          match rest with
          | EmptyString => Ok (Fell (i + 2) st' va')
          | String _ rest' => parse_loop rest' (i + 2) st' va'
          end
      | Break st' va' => Ok (Fell i st' va')
      | Return r st' va' => Ok (Returned r st' va')
      end
  end.

(** The checks after the loop. *)
Definition finish (i : Z) (f0 : format_info) : Z * format_info :=
  let type := Z.land (flags f0) TFLAG_MASK in
  if nz (Z.land type (u32 (type - 1))) then (- EINVAL, f0)
  else if has (flags f0) LFLAG_HALF && has (flags f0) LFLAG_LONG then (- EINVAL, f0)
  else
    let f1 :=
      if has (flags f0) TFLAG_INT && has (flags f0) FFLAG_ZERO_PAD
         && has (flags f0) SFLAG_HAS_PREC
      then with_flags f0 (clear_flag (flags f0) FFLAG_ZERO_PAD) else f0 in
    let f2 :=
      if has (flags f1) FFLAG_ZERO_PAD && has (flags f1) FFLAG_LEFT_ADJ
      then with_flags f1 (clear_flag (flags f1) FFLAG_ZERO_PAD) else f1 in
    (i, f2).

(** [yalc_pf_parse_format(fmt, strlen(fmt), &fi, &va)]: [fmt] starts
    at the [%]; the result is the returned [int], the descriptor and
    the argument cursor. *)
Definition yalc_pf_parse_format (fmt : string) (va : va_list)
  : res (Z * format_info * va_list) :=
  let st0 := mk_ps yalc_clear_fi false false false in
  let! e := parse_loop (match fmt with EmptyString => EmptyString | String _ r => r end)
                       1 st0 va in
  match e with
  | Returned r st va' => Ok (r, fi st, va')
  | Fell i st va' => let '(r, f) := finish i (fi st) in Ok (r, f, va')
  end.

End Parser.
Import Parser.

(** ** ryu.c: binary64 to shortest decimal *)

Module Ryu.

Definition EXPONENT_BIAS : Z := 1023.
Definition SIGNIFICAND_BITS : Z := 52.
Definition POW5_INV_BITCOUNT : Z := 125.
Definition POW5_BITCOUNT : Z := 125.
Definition POW5_TABLE_SIZE : Z := 26.

(** [a[i]] on a constant table. *)
Definition index {A : Type} (t : list A) (i : Z) : res A :=
  if i <? 0 then Undef
  else match nth_error t (Z.to_nat i) with
       | Some x => Ok x
       | None => Undef
       end.

(** [x >> n] and [x << n] on a [w]-bit unsigned type. *)
Definition shr (w x n : Z) : res Z :=
  if (0 <=? n) && (n <? w) then Ok (Z.shiftr x n) else Undef.
Definition shl (w x n : Z) : res Z :=
  if (0 <=? n) && (n <? w) then Ok (Z.shiftl x n mod 2 ^ w) else Undef.

Definition max (a b : Z) : Z := if u32 b <? u32 a then u32 a else u32 b.

Definition Log10ofPow2 (p : Z) : Z := Z.shiftr (u32 (u32 p * 78913)) 18.
Definition Log10ofPow5 (p : Z) : Z := Z.shiftr (u32 (u32 p * 732923)) 20.
Definition Log2ofPow5 (p : Z) : Z := s32 (Z.shiftr (u32 (u32 p * 1217359)) 19).
Definition CeilLog2ofPow5 (p : Z) : Z := s32 (Log2ofPow5 p + 1).

Definition DivisibleByPow2 (val p : Z) : res bool :=
  let! m := shl 64 1 p in
  Ok (Z.land val (u64 (m - 1)) =? 0).

Definition m_inv_5 : Z := 14757395258967641293.
Definition max_div_5 : Z := 3689348814741910323.

Fixpoint pow5_factor (fuel : nat) (val count : Z) : res Z :=
  match fuel with
  | O => Diverge
  | S fuel' =>
      let val := u64 (val * m_inv_5) in
      if max_div_5 <? val then Ok count
      else pow5_factor fuel' val (u32 (count + 1))
  end.

Definition DivisibleByPow5 (val p : Z) : res bool :=
  let! count := pow5_factor 64 val 0 in
  Ok (p <=? count).

Definition MulShift64 (a : Z) (b : Z * Z) (j : Z) : res Z :=
  let c0 := u128 (a * fst b) in
  let c2 := u128 (a * snd b) in
  let! r := shr 128 (u128 (Z.shiftr c0 64 + c2)) (s32 (j - 64)) in
  Ok (u64 r).

Definition POW5_TABLE : list Z :=
  [ 1; 5; 25; 125; 625; 3125; 15625; 78125; 390625;
    1953125; 9765625; 48828125; 244140625; 1220703125; 6103515625;
    30517578125; 152587890625; 762939453125; 3814697265625;
    19073486328125; 95367431640625; 476837158203125;
    2384185791015625; 11920928955078125; 59604644775390625;
    298023223876953125 ].

Definition POW5_SPLIT2 : list (Z * Z) :=
  [ (                   0, 1152921504606846976);
    (                   0, 1490116119384765625);
    ( 1032610780636961552, 1925929944387235853);
    ( 7910200175544436838, 1244603055572228341);
    (16941905809032713930, 1608611746708759036);
    (13024893955298202172, 2079081953128979843);
    ( 6607496772837067824, 1343575221513417750);
    (17332926989895652603, 1736530273035216783);
    (13037379183483547984, 2244412773384604712);
    ( 1605989338741628675, 1450417759929778918);
    ( 9630225068416591280, 1874621017369538693);
    (  665883850346957067, 1211445438634777304);
    (14931890668723713708, 1565756531257009982) ].

Definition POW5_OFFSETS : list Z :=
  [ 0x00000000; 0x00000000; 0x00000000; 0x00000000; 0x40000000; 0x59695995;
    0x55545555; 0x56555515; 0x41150504; 0x40555410; 0x44555145; 0x44504540;
    0x45555550; 0x40004000; 0x96440440; 0x55565565; 0x54454045; 0x40154151;
    0x55559155; 0x51405555; 0x00000105 ].

Definition Pow5Inv2k (p : Z) : res (Z * Z) :=
  let base := p / POW5_TABLE_SIZE in
  let base2 := u32 (base * POW5_TABLE_SIZE) in
  let offset := u32 (p - base2) in
  let! mul := index POW5_SPLIT2 base in
  if offset =? 0 then Ok mul
  else
    let! m := index POW5_TABLE offset in
    let b0 := u128 (m * fst mul) in
    let b2 := u128 (m * snd mul) in
    let delta := u32 (CeilLog2ofPow5 (s32 p) - CeilLog2ofPow5 (s32 base2)) in
    let! lo := shr 128 b0 delta in
    let! hi := shl 128 b2 (u32 (64 - delta)) in
    let! off := index POW5_OFFSETS (p / 16) in
    let shiftedSum :=
      u128 (u128 (lo + hi) + Z.land (Z.shiftr off (Z.shiftl (p mod 16) 1)) 3) in
    Ok (u64 shiftedSum, u64 (Z.shiftr shiftedSum 64)).

Definition POW5_INV_SPLIT2 : list (Z * Z) :=
  [ (                   1, 2305843009213693952);
    ( 5955668970331000884, 1784059615882449851);
    ( 8982663654677661702, 1380349269358112757);
    ( 7286864317269821294, 2135987035920910082);
    ( 7005857020398200553, 1652639921975621497);
    (17965325103354776697, 1278668206209430417);
    ( 8928596168509315048, 1978643211784836272);
    (10075671573058298858, 1530901034580419511);
    (  597001226353042382, 1184477304306571148);
    ( 1527430471115325346, 1832889850782397517);
    (12533209867169019542, 1418129833677084982);
    ( 5577825024675947042, 2194449627517475473);
    (11006974540203867551, 1697873161311732311);
    (10313493231639821582, 1313665730009899186);
    (12701016819766672773, 2032799256770390445) ].

Definition POW5_INV_OFFSETS : list Z :=
  [ 0x54544554; 0x04055545; 0x10041000; 0x00400414; 0x40010000; 0x41155555;
    0x00000454; 0x00010044; 0x40000000; 0x44000041; 0x50454450; 0x55550054;
    0x51655554; 0x40004000; 0x01000001; 0x00010500; 0x51515411; 0x05555554;
    0x00000000 ].

Definition Pow2kInvPow5 (p : Z) : res (Z * Z) :=
  let base := u32 (p + POW5_TABLE_SIZE - 1) / POW5_TABLE_SIZE in
  let base2 := u32 (base * POW5_TABLE_SIZE) in
  let offset := u32 (base2 - p) in
  let! mul := index POW5_INV_SPLIT2 base in
  if offset =? 0 then Ok mul
  else
    let! m := index POW5_TABLE offset in
    let b0 := u128 (m * u64 (fst mul - 1)) in
    let b2 := u128 (m * snd mul) in
    let delta := u32 (CeilLog2ofPow5 (s32 base2) - CeilLog2ofPow5 (s32 p)) in
    let! lo := shr 128 b0 delta in
    let! hi := shl 128 b2 (u32 (64 - delta)) in
    let! off := index POW5_INV_OFFSETS (p / 16) in
    let shiftedSum :=
      u128 (u128 (u128 (lo + hi) + 1)
            + Z.land (Z.shiftr off (Z.shiftl (p mod 16) 1)) 3) in
    Ok (u64 shiftedSum, u64 (Z.shiftr shiftedSum 64)).

(** The fast path's [while (true)]: move trailing zeros to the exponent. *)
Fixpoint strip_zeros (fuel : nat) (fraction10 exponent10 : Z) : res (Z * Z) :=
  match fuel with
  | O => Diverge
  | S fuel' =>
      if negb (fraction10 mod 10 =? 0) then Ok (exponent10, fraction10)
      else strip_zeros fuel' (fraction10 / 10) (s32 (exponent10 + 1))
  end.

(** The locals of step 4. *)
Record digits := mk_digits {
  da : Z; db : Z; dc : Z;
  dZa : bool; dZb : bool;
  last_removed_digit : Z;
  removed_digits : Z
}.

(** First loop of the branch taken when [Za || Zb]. *)
Fixpoint shorten_exact (fuel : nat) (d : digits) : res digits :=
  match fuel with
  | O => Diverge
  | S fuel' =>
      let a_div10 := da d / 10 in
      let c_div10 := dc d / 10 in
      if c_div10 <=? a_div10 then Ok d
      else
        let a_mod10 := da d mod 10 in
        let b_div10 := db d / 10 in
        let b_mod10 := db d mod 10 in
        shorten_exact fuel'
          (mk_digits a_div10 b_div10 c_div10
             (dZa d && (a_mod10 =? 0))
             (dZb d && (last_removed_digit d =? 0))
             (u8 b_mod10)
             (s32 (removed_digits d + 1)))
  end.

(** Second loop of that branch, entered when [Za] still holds. *)
Fixpoint shorten_zeros (fuel : nat) (d : digits) : res digits :=
  match fuel with
  | O => Diverge
  | S fuel' =>
      let a_div10 := da d / 10 in
      let a_mod10 := da d mod 10 in
      if negb (a_mod10 =? 0) then Ok d
      else
        let b_div10 := db d / 10 in
        let c_div10 := dc d / 10 in
        let b_mod10 := db d mod 10 in
        shorten_zeros fuel'
          (mk_digits a_div10 b_div10 c_div10
             (dZa d)
             (dZb d && (last_removed_digit d =? 0))
             (u8 b_mod10)
             (s32 (removed_digits d + 1)))
  end.

(** The loop of the common branch; the state is [(a, b, c)],
    [round_up] and [removed_digits]. *)
Fixpoint shorten_common (fuel : nat) (a b c : Z) (round_up : bool) (removed : Z)
  : res (Z * Z * Z * bool * Z) :=
  match fuel with
  | O => Diverge
  | S fuel' =>
      let a_div10 := a / 10 in
      let c_div10 := c / 10 in
      if c_div10 <=? a_div10 then Ok (a, b, c, round_up, removed)
      else
        let b_div10 := b / 10 in
        let b_mod10 := b mod 10 in
        shorten_common fuel' a_div10 b_div10 c_div10 (5 <=? b_mod10) (s32 (removed + 1))
  end.

Definition b2z (b : bool) : Z := if b then 1 else 0.

(** Step 4 of [yalc_double_to_decimal]: the pair
    [(removed_digits, fraction10)]. *)
Definition shortest (a b c : Z) (Za Zb frac_is_even : bool) : res (Z * Z) :=
  if Za || Zb then
    let! d := shorten_exact 64 (mk_digits a b c Za Zb 0 0) in
    let! d := (if dZa d then shorten_zeros 64 d else Ok d) in
    let lrd :=
      if dZb d && (last_removed_digit d =? 5) && (Z.land (db d) 2 =? 0)
      then 4 else last_removed_digit d in
    Ok (removed_digits d,
        u64 (db d + b2z (((db d =? da d) && (negb frac_is_even || negb (dZa d)))
                         || (5 <=? lrd))))
  else
    let a_div100 := a / 100 in
    let c_div100 := c / 100 in
    let '(a1, b1, c1, round_up, removed) :=
      if a_div100 <? c_div100
      then (a_div100, b / 100, c_div100, 50 <=? b mod 100, 2)
      else (a, b, c, false, 0) in
    let! (a2, b2, c2, round_up, removed) := shorten_common 64 a1 b1 c1 round_up removed in
    Ok (removed, u64 (b2 + b2z ((b2 =? a2) || round_up))).

(** [yalc_double_to_decimal(exponent_biased, significand, &exponent10,
    &fraction10)]: the pair [(exponent10, fraction10)] it stores. *)
Definition yalc_double_to_decimal (exponent_biased significand : Z) : res (Z * Z) :=
  let exponent2 :=
    if negb (exponent_biased =? 0) then s32 (u32 (exponent_biased - EXPONENT_BIAS))
    else 0 - EXPONENT_BIAS + 1 in
  let fraction2 :=
    if negb (exponent_biased =? 0) then Z.lor significand (Z.shiftl 1 SIGNIFICAND_BITS)
    else significand in
  let frac_is_even := Z.land fraction2 1 =? 0 in
  let fast :=
    if (0 <? exponent2) && (exponent2 <? SIGNIFICAND_BITS) then
      let frac_mask := Z.shiftl 1 (SIGNIFICAND_BITS - exponent2) - 1 in
      Z.land fraction2 frac_mask =? 0
    else false in
  if fast then
    strip_zeros 64 (Z.shiftr fraction2 (SIGNIFICAND_BITS - exponent2)) 0
  else
    let exponent2 := s32 (exponent2 - (SIGNIFICAND_BITS + 2)) in
    let fraction2 := u64 (fraction2 * 4) in
    let u_not_smallest := negb (significand =? 0) || (exponent_biased <=? 1) in
    let u := u64 (fraction2 - (if u_not_smallest then 2 else 1)) in
    let v := fraction2 in
    let w := u64 (fraction2 + 2) in
    if 0 <=? exponent2 then
      let q := max 0 (u32 (Log10ofPow2 exponent2 - 1)) in
      let exponent10 := s32 q in
      let p := exponent10 in
      let k := s32 (POW5_INV_BITCOUNT + Log2ofPow5 p) in
      let i := s32 (- exponent2 + s32 q + k) in
      let! p2kip5 := Pow2kInvPow5 (u32 p) in
      let! a := MulShift64 u p2kip5 i in
      let! b := MulShift64 v p2kip5 i in
      let! c := MulShift64 w p2kip5 i in
      let! (c, Za, Zb) :=
        (if q <=? 22 then
           let v_mod5 := u32 (u32 v - 5 * u32 (v / 5)) in
           if v_mod5 =? 0 then
             let! z := DivisibleByPow5 v q in Ok (c, false, z)
           else if frac_is_even then
             let! z := DivisibleByPow5 u q in Ok (c, z, false)
           else
             let! z := DivisibleByPow5 w q in Ok (u64 (c - b2z z), false, false)
         else Ok (c, false, false)) in
      let! (removed, fraction10) := shortest a b c Za Zb frac_is_even in
      Ok (s32 (exponent10 + removed), fraction10)
    else
      let q := max 0 (u32 (Log10ofPow5 (- exponent2) - 1)) in
      let exponent10 := s32 (s32 q + exponent2) in
      let p := s32 (- exponent10) in
      let k := u32 (CeilLog2ofPow5 p - POW5_BITCOUNT) in
      let i := s32 (u32 (s32 q - k)) in
      let! p5i2k := Pow5Inv2k (u32 p) in
      let! a := MulShift64 u p5i2k i in
      let! b := MulShift64 v p5i2k i in
      let! c := MulShift64 w p5i2k i in
      let! (c, Za, Zb) :=
        (if q <=? 1 then
           if frac_is_even then Ok (c, u_not_smallest, true)
           else Ok (u64 (c - 1), false, true)
         else if q <=? 63 then
           let! z := DivisibleByPow2 v q in Ok (c, false, z)
         else Ok (c, false, false)) in
      let! (removed, fraction10) := shortest a b c Za Zb frac_is_even in
      Ok (s32 (exponent10 + removed), fraction10).

(** [POW10(n)]: [POW5_TABLE[n] << n] on [uint64_t]. *)
Definition POW10 (n : Z) : res Z :=
  let! p5 := index POW5_TABLE n in
  shl 64 p5 n.

Definition yalc_round_to_digits (value current_digits desired_digits : Z) : res Z :=
  if (current_digits <=? desired_digits) || (17 <=? desired_digits) then Ok value
  else
    let digits_to_remove := s32 (current_digits - desired_digits) in
    let! divisor := POW10 digits_to_remove in
    if divisor =? 0 then Undef
    else
      let quotient := value / divisor in
      let remainder := value mod divisor in
      let half := divisor / 2 in
      if half <? remainder then Ok (u64 (quotient + 1))
      else if (remainder =? half) && nz (Z.land quotient 1) then Ok (u64 (quotient + 1))
      else Ok quotient.

(** Bit fields of a binary64 pattern, as [yalc_putd] extracts them. *)
Definition exponent_of (bits : Z) : Z := Z.land (Z.shiftr bits 52) 0x7FF.
Definition significand_of (bits : Z) : Z := Z.land bits (Z.shiftl 1 52 - 1).
Definition d2d (bits : Z) : res (Z * Z) :=
  yalc_double_to_decimal (exponent_of bits) (significand_of bits).

End Ryu.

(** ** Integer to string *)

Definition digit_char (hex_base : ascii) (digit : Z) : ascii :=
  if digit <? 10 then chr (code "0" + digit) else chr (code hex_base + digit - 10).

(** The [do ... while (val)] loops of [yalc_itora]: the digits of [val]
    in [base], least significant first.  A [uintmax_t] has at most 64
    digits, which is also [INTBUFF_LEN]. *)
Fixpoint itora_loop (fuel : nat) (base : Z) (hex_base : ascii) (val : Z) : list ascii :=
  match fuel with
  | O => []
  | S fuel' =>
      let digit := val mod base in
      let val := val / base in
      digit_char hex_base digit :: (if val =? 0 then [] else itora_loop fuel' base hex_base val)
  end.

(** [yalc_itora(num_buff, val, fi)]: the characters written to
    [num_buff] (its return value is their number) and the descriptor
    with the reverse-on-emit flag set. *)
Definition yalc_itora (val : Z) (fi : format_info) : list ascii * format_info :=
  let hex_base : ascii := if has (flags fi) SFLAG_UPPERCASE then "A"%char else "a"%char in
  let num_buff :=
    if (radix fi =? RADIX_DEC) || (radix fi =? RADIX_HEX)
       || (radix fi =? RADIX_OCT) || (radix fi =? RADIX_BIN)
    then itora_loop 64 (radix fi) hex_base val
    else [] in
  (num_buff, with_flags fi (set_flag (flags fi) TRFLAG_REVERSE_NUM)).

(** The first [switch] of [yalc_putll] ("do we need to put a
    prefix?"): the magnitude to print and the sign or base prefix. *)
Definition putll_prefix (val : Z) (fi : format_info) : Z * list ascii :=
  let upper := has (flags fi) SFLAG_UPPERCASE in
  if radix fi =? RADIX_DEC then
    if has (flags fi) SFLAG_IS_SIGNED then
      let sval := s64 val in
      if sval <? 0 then (u64 (u64 (- (sval + 1)) + 1), ["-"%char])
      else if has (flags fi) FFLAG_ADDSIGN then (val, ["+"%char])
      else if has (flags fi) FFLAG_NOPSIGN then (val, [" "%char])
      else (val, [])
    else (val, [])
  else if radix fi =? RADIX_HEX then
    if has (flags fi) FFLAG_ALT && negb (val =? 0)
    then (val, ["0"%char; if upper then "X"%char else "x"%char])
    else (val, [])
  else if radix fi =? RADIX_BIN then
    if has (flags fi) FFLAG_ALT && negb (val =? 0)
    then (val, ["0"%char; if upper then "B"%char else "b"%char])
    else (val, [])
  else (val, []).

(** The alternate-form octal rule: the precision is raised so that
    the first digit printed is a zero. *)
Definition putll_octal (num_buff : list ascii) (val : Z) (fi : format_info) : format_info :=
  let ln := len num_buff in
  if (radix fi =? RADIX_OCT) && has (flags fi) FFLAG_ALT then
    if negb (Ascii.eqb (List.last num_buff NUL) "0") && (u64 (precision fi) <=? ln) then
      with_precision (with_flags fi (set_flag (flags fi) SFLAG_HAS_PREC)) (s32 (ln + 1))
    else if (precision fi =? 0) && (val =? 0) then with_precision fi 1
    else fi
  else fi.

(** "Handle precision": leading zeros through [num_pad], or no digit
    at all for a zero value with precision zero. *)
Definition putll_precision (num_buff : list ascii) (val : Z) (fi : format_info)
  : list ascii * format_info :=
  let ln := len num_buff in
  if has (flags fi) SFLAG_HAS_PREC then
    if ln <? u64 (precision fi) then
      (num_buff, with_num_pad fi (s32 (- (u64 (precision fi) - ln))))
    else if (precision fi =? 0) && (val =? 0) then ([], fi)
    else (num_buff, fi)
  else (num_buff, fi).

(** [yalc_putll] up to the call of the field formatter: the field and
    the descriptor it passes on. *)
Definition putll_render (val : Z) (fi : format_info) : field_data * format_info :=
  let '(val, prefix) := putll_prefix val fi in
  let '(num_buff, fi) := yalc_itora val fi in
  let fi := putll_octal num_buff val fi in
  let '(num_buff, fi) := putll_precision num_buff val fi in
  (mk_fld num_buff prefix [] NUL, fi).

Definition yalc_putll (val : Z) (fi : format_info) (out : output_info) : output_info :=
  let '(fld, fi) := putll_render val fi in
  yalc_pf_field_out fld fi out.

(** ** Double to string *)

Definition EXPONENT_BITS : Z := 11.
Definition EXPONENT_MASK : Z := Z.shiftl 1 EXPONENT_BITS - 1.
Definition SIGNIFICAND_MASK : Z := Z.shiftl 1 Ryu.SIGNIFICAND_BITS - 1.

Definition chars (s : string) : list ascii := list_ascii_of_string s.

Definition nan_str (is_uppercase : bool) : list ascii :=
  if is_uppercase then chars "NAN" else chars "nan".
Definition inf_str (is_uppercase : bool) : list ascii :=
  if is_uppercase then chars "INF" else chars "inf".

Fixpoint count_hex (fuel : nat) (val ln : Z) : Z :=
  match fuel with
  | O => ln
  | S fuel' =>
      let val := Z.shiftr val 4 in
      if val =? 0 then ln else count_hex fuel' val (u64 (ln + 1))
  end.

Fixpoint count_dec (fuel : nat) (val c ln : Z) : res Z :=
  match fuel with
  | O => Diverge
  | S fuel' =>
      if c <=? val then count_dec fuel' val (u64 (Z.shiftl c 3 + Z.shiftl c 1)) (u64 (ln + 1))
      else Ok ln
  end.

(** [yalc_count_digits(val, radix)].  In the decimal loop [c] is
    [10^k mod 2^64], which is 0 from [k = 64] on: a run that has not
    stopped by then never stops. *)
Definition yalc_count_digits (val radix : Z) : res Z :=
  if radix =? RADIX_HEX then Ok (count_hex 16 val 1)
  else count_dec 65 val 10 1.

(** The sign glyph of [yalc_putd], and its split between the prefix
    and [sign_char]: with the zero-pad flag the glyph travels apart. *)
Definition putd_sign (sign : bool) (fi : format_info) : list ascii * ascii :=
  let sign_char : ascii :=
    if sign then "-"%char
    else if has (flags fi) FFLAG_ADDSIGN then "+"%char
    else if has (flags fi) FFLAG_NOPSIGN then " "%char
    else NUL in
  if negb (has (flags fi) FFLAG_ZERO_PAD) && negb (Ascii.eqb sign_char NUL)
  then ([sign_char], NUL) else ([], sign_char).

(** The value 0 (biased exponent and significand both 0). *)
Definition putd_zero (prefix : list ascii) (sign_char : ascii) (is_uppercase : bool)
           (fi : format_info) : field_data * format_info :=
  let prefix :=
    if has (flags fi) SFLAG_IS_AFORM
    then prefix ++ ["0"%char; if is_uppercase then "X"%char else "x"%char]
    else prefix in
  let prefix := prefix ++ ["0"%char] in
  let '(prefix, fi) :=
    if negb (Z.land (flags fi) SFLAG_IS_GFORM =? SFLAG_IS_GFORM) || has (flags fi) FFLAG_ALT
    then
      if nz (precision fi) then (prefix ++ ["."%char], with_num_pad fi (precision fi))
      else (prefix, fi)
    else (prefix, fi) in
  let suffix :=
    if Z.land (flags fi) SFLAG_IS_GFORM =? SFLAG_IS_EFORM then
      [if is_uppercase then "E"%char else "e"%char; "+"%char; "0"%char; "0"%char]
    else if has (flags fi) SFLAG_IS_AFORM then
      [if is_uppercase then "P"%char else "p"%char; "+"%char; "0"%char]
    else [] in
  (mk_fld [] prefix suffix sign_char, fi).

(** The subnormal normalisation loop of the a-form. *)
Fixpoint normalize (fuel : nat) (significand exp_val : Z) : res (Z * Z) :=
  match fuel with
  | O => Diverge
  | S fuel' =>
      if nz (Z.land significand (Z.shiftl 1 Ryu.SIGNIFICAND_BITS)) then Ok (significand, exp_val)
      else normalize fuel' (u64 (Z.shiftl significand 1)) (s32 (exp_val - 1))
  end.

(** [[e/p][+/-]XXX], built reversed in the suffix buffer. *)
Definition exp_suffix (exp_val : Z) (min2 : bool) (letter : ascii) (fi : format_info)
  : list ascii * format_info :=
  let '(digs, fi) := yalc_itora (u64 (if exp_val <? 0 then s32 (- exp_val) else exp_val)) fi in
  let digs := if min2 && (len digs <? 2) then digs ++ ["0"%char] else digs in
  (digs ++ [if exp_val <? 0 then "-"%char else "+"%char; letter],
   with_flags fi (set_flag (flags fi) TRFLAG_REVERSE_SUFFIX)).

(** [case 4]: the a-form. *)
Definition putd_aform (exponent_biased significand : Z) (prefix : list ascii)
           (sign_char : ascii) (is_uppercase : bool) (fi : format_info)
  : res (field_data * format_info) :=
  let! (significand, exp_val) :=
    (if exponent_biased =? 0 then normalize 64 significand (-1022)
     else Ok (Z.lor significand (Z.shiftl 1 Ryu.SIGNIFICAND_BITS),
              s32 (exponent_biased - 1023))) in
  let! (significand, exp_val) :=
    (if precision fi <? 13 then
       let bits_to_keep := s32 (precision fi * 4) in
       let bits_to_remove := s32 (52 - bits_to_keep) in
       if 0 <? bits_to_remove then
         let! msb := Ryu.shl 64 1 bits_to_remove in
         let! round_bit := Ryu.shl 64 1 (bits_to_remove - 1) in
         let sticky_mask := u64 (round_bit - 1) in
         let '(significand, exp_val) :=
           if nz (Z.land significand round_bit)
              && (nz (Z.land significand sticky_mask) || nz (Z.land significand msb))
           then
             let significand := u64 (significand + msb) in
             if nz (Z.land significand (Z.shiftl 1 (Ryu.SIGNIFICAND_BITS + 1)))
             then (Z.shiftr significand 1, s32 (exp_val + 1))
             else (significand, exp_val)
           else (significand, exp_val) in
         Ok (Z.land significand (Z.lxor (u64 (msb - 1)) SIZE_MAX), exp_val)
       else Ok (significand, exp_val)
     else Ok (significand, exp_val)) in
  let '(num_buff, fi) := yalc_itora significand fi in
  let ln := len num_buff - 1 in
  let prefix :=
    prefix ++ ["0"%char; if is_uppercase then "X"%char else "x"%char; List.last num_buff NUL] in
  let prefix :=
    if nz (precision fi) || has (flags fi) FFLAG_ALT then prefix ++ ["."%char] else prefix in
  let fi :=
    if ln <? u64 (precision fi) then with_num_pad fi (s32 (u64 (precision fi) - ln)) else fi in
  let num :=
    if u64 (precision fi) <? ln
    then firstn (Z.to_nat (u64 (precision fi))) (skipn (Z.to_nat (ln - u64 (precision fi))) num_buff)
    else firstn (Z.to_nat ln) num_buff in
  let fi := with_radix fi 10 in
  let '(suffix, fi) :=
    exp_suffix exp_val false (if is_uppercase then "P"%char else "p"%char) fi in
  Ok (mk_fld num prefix suffix sign_char, fi).

(** [case 2]: the e-form (also reached from the g-form). *)
Definition putd_eform (exponent10 fraction10 frac_digits : Z) (add_trailing_zeros : bool)
           (prefix : list ascii) (sign_char : ascii) (is_uppercase : bool) (fi : format_info)
  : res (field_data * format_info) :=
  let decimal_digits := s32 (frac_digits - 1) in
  let! (fraction10, exponent10, fi) :=
    (if precision fi <? decimal_digits then
       let! fraction10 := Ryu.yalc_round_to_digits fraction10 decimal_digits (precision fi) in
       let skipped_digits := s32 (decimal_digits - precision fi) in
       let! rounded_decimals := yalc_count_digits fraction10 10 in
       if s32 (frac_digits - skipped_digits) <? s32 rounded_decimals
       then Ok (fraction10 / 10, s32 (exponent10 + 1), fi)
       else Ok (fraction10, exponent10, fi)
     else if add_trailing_zeros
          then Ok (fraction10, exponent10, with_num_pad fi (s32 (precision fi - decimal_digits)))
          else Ok (fraction10, exponent10, fi)) in
  let '(num_buff, fi) := yalc_itora fraction10 fi in
  let ln := len num_buff - 1 in
  let prefix := prefix ++ [List.last num_buff NUL] in
  let prefix :=
    if ((0 <? ln) || nz (num_pad fi)) || has (flags fi) FFLAG_ALT
    then prefix ++ ["."%char] else prefix in
  let exp_val := s32 (exponent10 + decimal_digits) in
  let '(suffix, fi) :=
    exp_suffix exp_val true (if is_uppercase then "E"%char else "e"%char) fi in
  Ok (mk_fld (firstn (Z.to_nat ln) num_buff) prefix suffix sign_char, fi).

(** The leading ["0"] characters of the reversed digit buffer that the
    third f-form case trims from the suffix length. *)
Fixpoint trimmed (num_buff : list ascii) (untrimed : nat) (suffix_len : Z) : Z :=
  match untrimed, num_buff with
  | S n, c :: r => if Ascii.eqb c "0" then trimmed r n (suffix_len - 1) else suffix_len
  | _, _ => suffix_len
  end.

(** [f_form:], the default case. *)
Definition putd_fform (exponent10 fraction10 frac_digits : Z) (add_trailing_zeros : bool)
           (prefix : list ascii) (sign_char : ascii) (fi : format_info)
  : res (field_data * format_info) :=
  let int_digits := s32 (frac_digits + exponent10) in
  if frac_digits <=? int_digits then
    let '(num_buff, fi) := yalc_itora fraction10 fi in
    let fi := with_num_pad fi exponent10 in
    if (add_trailing_zeros && nz (precision fi)) || has (flags fi) FFLAG_ALT
    then Ok (mk_fld num_buff prefix ["."%char] sign_char, with_suffix_pad fi (precision fi))
    else Ok (mk_fld num_buff prefix [] sign_char, fi)
  else if int_digits <=? 0 then
    let leading_zeroes := s32 (s32 (- exponent10) - frac_digits) in
    let decimal_digits := s32 (leading_zeroes + frac_digits) in
    let! (num, carry, fi) :=
      (if precision fi <=? leading_zeroes then
         if add_trailing_zeros
         then Ok ([], 0, with_num_pad fi (s32 (- precision fi)))
         else Ok ([], 0, with_precision fi 0)
       else if decimal_digits <=? precision fi then
         let '(num_buff, fi) := yalc_itora fraction10 fi in
         let fi := with_num_pad fi (s32 (- leading_zeroes)) in
         if add_trailing_zeros
         then Ok (num_buff, 0, with_suffix_pad fi (s32 (precision fi - decimal_digits)))
         else Ok (num_buff, 0, fi)
       else
         let remaining_digits := s32 (precision fi - leading_zeroes) in
         let! fraction10 := Ryu.yalc_round_to_digits fraction10 frac_digits remaining_digits in
         let '(num_buff, fi) := yalc_itora fraction10 fi in
         if u64 remaining_digits <? len num_buff then
           let fi := if add_trailing_zeros then with_suffix_pad fi remaining_digits
                     else with_precision fi 0 in
           Ok ([], 1, with_num_pad fi (s32 (- leading_zeroes)))
         else Ok (num_buff, 0, with_num_pad fi (s32 (- leading_zeroes)))) in
    let prefix := prefix ++ [chr (code "0" + carry)] in
    let prefix :=
      if nz (precision fi) || has (flags fi) FFLAG_ALT then prefix ++ ["."%char] else prefix in
    Ok (mk_fld num prefix [] sign_char, fi)
  else
    let decimal_digits := s32 (frac_digits - int_digits) in
    let! (fraction10, suffix_len) :=
      (if precision fi <? decimal_digits then
         let! f := Ryu.yalc_round_to_digits fraction10 decimal_digits (precision fi) in
         Ok (f, u64 (precision fi))
       else Ok (fraction10, u64 decimal_digits)) in
    let '(num_buff, fi) := yalc_itora fraction10 fi in
    (* the sign moves on top of the digits; [prefix] and [suffix] now
       point into [num_buff] *)
    let num_buff := match prefix with [] => num_buff | c :: _ => num_buff ++ [c] end in
    if len num_buff <? suffix_len then Undef
    else
      let new_prefix := skipn (Z.to_nat suffix_len) num_buff in
      let untrimed_suffix_len := suffix_len in
      let suffix_len := trimmed num_buff (Z.to_nat untrimed_suffix_len) suffix_len in
      let new_suffix := firstn (Z.to_nat suffix_len) num_buff in
      let '(num, fi) :=
        if (add_trailing_zeros && nz untrimed_suffix_len) || nz suffix_len
           || has (flags fi) FFLAG_ALT
        then (["."%char],
              if add_trailing_zeros
              then with_suffix_pad fi (s32 (u64 (precision fi) - suffix_len)) else fi)
        else ([], fi) in
      Ok (mk_fld num new_prefix new_suffix sign_char,
          with_flags fi (set_flag (flags fi)
                           (Z.lor TRFLAG_REVERSE_PREFIX TRFLAG_REVERSE_SUFFIX))).

(** [yalc_putd] up to the call of the field formatter, on the bit
    pattern of the [double]. *)
Definition putd_render (bits : Z) (fi : format_info) : res (field_data * format_info) :=
  let sign := nz (Z.land bits (Z.shiftl 1 63)) in
  let exponent_biased := u32 (Z.land (Z.shiftr bits Ryu.SIGNIFICAND_BITS) EXPONENT_MASK) in
  let significand := Z.land bits SIGNIFICAND_MASK in
  let is_uppercase := has (flags fi) SFLAG_UPPERCASE in
  let fi :=
    if negb (has (flags fi) SFLAG_HAS_PREC)
    then with_precision fi (if has (flags fi) SFLAG_IS_AFORM then 13 else 6) else fi in
  let fi := if 4096 <? precision fi then with_precision fi 4096 else fi in
  let '(prefix, sign_char) := putd_sign sign fi in
  if exponent_biased =? EXPONENT_MASK then
    let fi := with_precision fi 0 in
    Ok (mk_fld (if nz significand then nan_str is_uppercase else inf_str is_uppercase)
               prefix [] sign_char, fi)
  else if (exponent_biased =? 0) && (significand =? 0) then
    Ok (putd_zero prefix sign_char is_uppercase fi)
  else
    let form := Z.land (Z.shiftr (flags fi) 22) 7 in
    let! (exponent10, fraction10, frac_digits) :=
      (if form <? 4 then
         let! (e, f) := Ryu.yalc_double_to_decimal exponent_biased significand in
         let! n := yalc_count_digits f (radix fi) in
         Ok (e, f, s32 n)
       else Ok (0, 0, 0)) in
    if form =? 4 then putd_aform exponent_biased significand prefix sign_char is_uppercase fi
    else if form =? 3 then
      let fi := if precision fi =? 0 then with_precision fi 1 else fi in
      let add_trailing_zeros := has (flags fi) FFLAG_ALT in
      let exp_val := s32 (s32 (exponent10 + frac_digits) - 1) in
      if (exp_val <? precision fi) && (-4 <=? exp_val) then
        putd_fform exponent10 fraction10 frac_digits add_trailing_zeros prefix sign_char
                   (with_precision fi (s32 (precision fi - s32 (exp_val + 1))))
      else
        putd_eform exponent10 fraction10 frac_digits add_trailing_zeros prefix sign_char
                   is_uppercase (with_precision fi (s32 (precision fi - 1)))
    else if form =? 2 then
      putd_eform exponent10 fraction10 frac_digits true prefix sign_char is_uppercase fi
    else
      putd_fform exponent10 fraction10 frac_digits true prefix sign_char fi.

Definition yalc_putd (bits : Z) (fi : format_info) (out : output_info) : res output_info :=
  let! (fld, fi) := putd_render bits fi in
  Ok (yalc_pf_field_out fld fi out).

(** ** The dispatch loop *)

Definition YALC_DEFAULT_STR_PREC : Z := 4095.

(** The sizes, in bytes, of the integer types whose width the C
    implementation chooses ([stdint.h] and [stddef.h] of the toolchain). *)
Record abi := mk_abi {
  sizeof_long       : Z;
  sizeof_size_t     : Z;
  sizeof_ptrdiff_t  : Z;
  sizeof_fast8      : Z;
  sizeof_fast16     : Z;
  sizeof_fast32     : Z;
  sizeof_fast64     : Z
}.

(** The 64-bit RISC-V targets (LP64). *)
Definition lp64 : abi := mk_abi 8 8 8 1 8 8 8.

Fixpoint drop_str (n : nat) (s : string) : string :=
  match n, s with
  | O, _ => s
  | S n', String _ r => drop_str n' r
  | S _, EmptyString => EmptyString
  end.

(** [strnlen(s, max)] characters of [s]. *)
Definition strn (s : string) (max : Z) : list ascii :=
  firstn (Z.to_nat (u64 max)) (chars s).

Section Dispatch.

Variable target : abi.

(** What the [switch (type)] of the loop does with one directive.
    Every rendering case ends in one call of [yalc_pf_field_out] on
    the sink ([yalc_putll] and [yalc_putd] return through it), so a
    case is given by the field and descriptor of that call. *)
Inductive dispatched : Type :=
| Field (fld : field_data) (fi : format_info) (va : va_list)
| Skip (va : va_list)      (* default: continue *)
| Failed (ret : Z).        (* return -EINVAL *)

(** [case TFLAG_INT]: the width of the argument in bits. *)
Definition int_width (fi : format_info) : option Z :=
  if int_bitlen fi =? 0 then
    let f := flags fi in
    Some (8 * (if has f LFLAG_INTMAX then 8
               else if has f LFLAG_LONG_LONG then 8
               else if has f LFLAG_LONG then sizeof_long target
               else if has f LFLAG_SIZET then sizeof_size_t target
               else if has f LFLAG_PTRDIFF then sizeof_ptrdiff_t target
               else if has f LFLAG_HALF then 2
               else if has f LFLAG_HALF_HALF then 1
               else 4))
  else if has (flags fi) SFLAG_IS_FAST then
    if int_bitlen fi =? 8 then Some (8 * sizeof_fast8 target)
    else if int_bitlen fi =? 16 then Some (8 * sizeof_fast16 target)
    else if int_bitlen fi =? 32 then Some (8 * sizeof_fast32 target)
    else if int_bitlen fi =? 64 then Some (8 * sizeof_fast64 target)
    else None
  else Some (int_bitlen fi).

(** The argument read and sign- or zero-extended to [uintmax_t]. *)
Definition int_arg (bitlen : Z) (is_signed : bool) (v : Z) : option Z :=
  if bitlen =? 8 then Some (u64 (if is_signed then s8 v else u8 v))
  else if bitlen =? 16 then Some (u64 (if is_signed then s16 v else u16 v))
  else if bitlen =? 32 then Some (u64 (if is_signed then s32 v else u32 v))
  else if bitlen =? 64 then Some (u64 (if is_signed then s64 v else u64 v))
  else None.

Definition dispatch (fi : format_info) (va : va_list) : res dispatched :=
  let type := Z.land (flags fi) TFLAG_MASK in
  if type =? TFLAG_INT then
    match int_width fi with
    | None => Ok (Failed (- EINVAL))
    | Some bitlen =>
        let fi := with_int_bitlen fi bitlen in
        if (bitlen =? 8) || (bitlen =? 16) || (bitlen =? 32) || (bitlen =? 64) then
          let! (v, va) := va_arg_int va in
          match int_arg bitlen (has (flags fi) SFLAG_IS_SIGNED) v with
          | Some umax => let '(fld, fi) := putll_render umax fi in Ok (Field fld fi va)
          | None => Ok (Failed (- EINVAL))
          end
        else Ok (Failed (- EINVAL))
    end
  else if type =? TFLAG_DOUBLE then
    if has (flags fi) LFLAG_LONG then
      let! va := va_arg_long_double va in
      Ok (Field (mk_fld (chars "(n/a)") [] [] NUL) fi va)
    else
      let! (dval, va) := va_arg_double va in
      let! (fld, fi) := putd_render dval fi in
      Ok (Field fld fi va)
  else if type =? TFLAG_CHAR then
    let! (v, va) := va_arg_int va in
    Ok (Field (mk_fld [chr v] [] [] NUL) fi va)
  else if type =? TFLAG_STRING then
    let! (strval, va) := va_arg_str va in
    match strval with
    | None => Ok (Field (mk_fld (chars "(null)") [] [] NUL) fi va)
    | Some str =>
        let inb :=
          if has (flags fi) SFLAG_HAS_PREC && (0 <=? precision fi)
          then strn str (precision fi)
          else strn str YALC_DEFAULT_STR_PREC in
        Ok (Field (mk_fld inb [] [] NUL) fi va)
    end
  else Ok (Skip va).

(** One turn of the [for] loop of [yalc_xprintf]. *)
Inductive turn : Type :=
| Next (s : string) (out : output_info) (va : va_list)
| Stop (ret : Z) (out : output_info).

(** The body of the loop on the format text [s] from [fmt[i]] on: the
    text left for the next turn, or the value the function returns. *)
Definition loop_body (s : string) (out : output_info) (va : va_list) : res turn :=
  match s with
  | EmptyString => Ok (Stop (s32 (chars_out out)) out)
  | String cur_char rest =>
      if negb (Ascii.eqb cur_char "%") then
        Ok (Next rest (yalc_pf_char_out cur_char out) va)
      else
        match rest with
        | EmptyString => Ok (Stop (s32 (chars_out out)) out)
        | String next rest' =>
            if Ascii.eqb next "%" then
              Ok (Next rest' (yalc_pf_char_out "%" out) va)
            else
              let! (ret, fi, va) := yalc_pf_parse_format s va in
              if ret <? 0 then Ok (Stop ret out)
              else
                let! d := dispatch fi va in
                let s' := drop_str (Z.to_nat (ret + 1)) s in
                match d with
                | Failed r => Ok (Stop r out)
                | Skip va => Ok (Next s' out va)
                | Field fld fi va => Ok (Next s' (yalc_pf_field_out fld fi out) va)
                end
        end
  end.

(** The loop.  Every turn consumes at least one character, so [fuel]
    above the length of [s] is never used up. *)
Fixpoint xprintf_loop (fuel : nat) (s : string) (out : output_info) (va : va_list)
  : res (Z * output_info) :=
  match fuel with
  | O => Diverge
  | S fuel' =>
      let! t := loop_body s out va in
      match t with
      | Next s' out' va' => xprintf_loop fuel' s' out' va'
      | Stop ret out' => Ok (ret, out')
      end
  end.

Definition yalc_xprintf (out : output_info) (fmt : string) (va : va_list)
  : res (Z * output_info) :=
  xprintf_loop (S (String.length fmt)) fmt out va.

(** *** Entry points *)

(** [vsnprintf(outbuff, outbuff_len, fmt, va)], on the bytes [mem]
    found at [outbuff] before the call. *)
Definition vsnprintf (mem : gmap Z ascii) (outbuff_len : Z) (fmt : string) (va : va_list)
  : res (Z * output_info) :=
  yalc_xprintf (mk_out (Some mem) (u64 outbuff_len) 0 []) fmt va.

Definition vsprintf (mem : gmap Z ascii) (fmt : string) (va : va_list)
  : res (Z * output_info) :=
  vsnprintf mem SIZE_MAX fmt va.

(** [vprintf(fmt, va)], on the console stream written so far; the
    lock it takes around the call has no effect on one caller. *)
Definition vprintf (con : list ascii) (fmt : string) (va : va_list)
  : res (Z * output_info) :=
  yalc_xprintf (mk_out None 0 0 con) fmt va.

End Dispatch.

(** ** string.c: the searches printf relies on *)

Module Str.

(** The memory the functions read: a byte at each mapped address.  A
    read of an address that is not mapped has no defined result.
    Addresses are not wrapped: an address past the end of the address
    space is never mapped. *)
Definition memory := Z -> option Z.

Definition NULL : Z := 0.

(** How the first loop of a search ends: with the value the function
    returns, or at the address the next loop starts from. *)
Inductive scan :=
| Found (r : Z)
| Next (src : Z).

Section Target.

Variable target : abi.

Definition WORD_SIZE : Z := sizeof_long target.
Definition WORD_MASK : Z := WORD_SIZE - 1.

Definition ONES : Z :=
  if sizeof_long target =? 8 then 0x0101010101010101 else 0x01010101.
Definition HIGHS : Z :=
  if sizeof_long target =? 8 then 0x8080808080808080 else 0x80808080.

(** Arithmetic of [unsigned long]. *)
Definition ulong (x : Z) : Z := x mod 2 ^ (8 * WORD_SIZE).

Definition HAS_ZERO (x : Z) : Z :=
  Z.land (Z.land (ulong (x - ONES)) (ulong (Z.lnot x))) HIGHS.

Definition load_byte (m : memory) (a : Z) : res Z :=
  match m a with
  | Some b => Ok (u8 b)
  | None => Undef
  end.

(** A little-endian load of [n] bytes (the RISC-V targets). *)
Fixpoint load_bytes (m : memory) (a : Z) (n : nat) : res Z :=
  match n with
  | O => Ok 0
  | S n' =>
      let! b := load_byte m a in
      let! w := load_bytes m (a + 1) n' in
      Ok (b + 256 * w)
  end.

Definition load_ulong (m : memory) (a : Z) : res Z :=
  load_bytes m a (Z.to_nat WORD_SIZE).

(** [memchr]: the three loops, then the function. *)
Fixpoint memchr_align (fuel : nat) (m : memory) (byte src remaining : Z)
  : res (scan * Z) :=
  match fuel with
  | O => Diverge
  | S fuel' =>
      if nz (Z.land src WORD_MASK) && (0 <? remaining) then
        let! b := load_byte m src in
        if b =? byte then Ok (Found src, remaining)
        else memchr_align fuel' m byte (src + 1) (remaining - 1)
      else Ok (Next src, remaining)
  end.

Fixpoint memchr_words (fuel : nat) (m : memory) (mask src remaining : Z) : res (Z * Z) :=
  match fuel with
  | O => Diverge
  | S fuel' =>
      if WORD_SIZE <=? remaining then
        let! w := load_ulong m src in
        let check := Z.lxor w mask in
        if nz (HAS_ZERO check) then Ok (src, remaining)
        else memchr_words fuel' m mask (src + WORD_SIZE) (remaining - WORD_SIZE)
      else Ok (src, remaining)
  end.

Fixpoint memchr_tail (fuel : nat) (m : memory) (byte src remaining : Z) : res Z :=
  match fuel with
  | O => Diverge
  | S fuel' =>
      if 0 <? remaining then
        let! b := load_byte m src in
        if b =? byte then Ok src
        else memchr_tail fuel' m byte (src + 1) (remaining - 1)
      else Ok NULL
  end.

Definition memchr (fuel : nat) (m : memory) (src_ptr c len : Z) : res Z :=
  if (src_ptr =? NULL) || (len =? 0) then Ok NULL
  else
    let byte := u8 c in
    let mask := ulong (ONES * byte) in
    let! (s, remaining) := memchr_align fuel m byte src_ptr len in
    match s with
    | Found r => Ok r
    | Next src =>
        let! (src, remaining) := memchr_words fuel m mask src remaining in
        memchr_tail fuel m byte src remaining
    end.

Definition strnlen_s (fuel : nat) (m : memory) (str_ptr maxlen : Z) : res Z :=
  let! r := memchr fuel m str_ptr 0 maxlen in
  if nz r then Ok (r - str_ptr) else Ok maxlen.

(** [strlen]: the three loops, then the function. *)
Fixpoint strlen_align (fuel : nat) (m : memory) (str_ptr str : Z) : res scan :=
  match fuel with
  | O => Diverge
  | S fuel' =>
      if nz (Z.land str WORD_MASK) then
        let! b := load_byte m str in
        if b =? 0 then Ok (Found (str - str_ptr))
        else strlen_align fuel' m str_ptr (str + 1)
      else Ok (Next str)
  end.

Fixpoint strlen_words (fuel : nat) (m : memory) (str : Z) : res Z :=
  match fuel with
  | O => Diverge
  | S fuel' =>
      let! w := load_ulong m str in
      if nz (HAS_ZERO w) then Ok str
      else strlen_words fuel' m (str + WORD_SIZE)
  end.

Fixpoint strlen_tail (fuel : nat) (m : memory) (str : Z) : res Z :=
  match fuel with
  | O => Diverge
  | S fuel' =>
      let! b := load_byte m str in
      if b =? 0 then Ok str
      else strlen_tail fuel' m (str + 1)
  end.

Definition strlen (fuel : nat) (m : memory) (str_ptr : Z) : res Z :=
  if str_ptr =? NULL then Ok 0
  else
    let! s := strlen_align fuel m str_ptr str_ptr in
    match s with
    | Found r => Ok r
    | Next str =>
        let! str := strlen_words fuel m str in
        let! str := strlen_tail fuel m str in
        Ok (str - str_ptr)
    end.

End Target.

End Str.

(** * Vocabulary of the properties *)

Definition pad_text (pad_len : Z) (pad : ascii) : list ascii :=
  repeat pad (Z.to_nat (u64 pad_len)).

Definition dir_text (inb : list ascii) (reverse : bool) : list ascii :=
  if reverse then rev inb else inb.

(** What [yalc_pf_field_out] emits, as one string. *)
Definition field_text (fld : field_data) (fi : format_info) : list ascii :=
  let prebuf_pad := prebuf_pad_of fi in
  let postbuf_pad := postbuf_pad_of fi in
  let width_pad := width_pad_of fld fi in
  let pad_flags := Z.land (Z.shiftr (flags fi) 1) 3 in
  let p := dir_text (prefix fld) (has (flags fi) TRFLAG_REVERSE_PREFIX) in
  let n := dir_text (inbuff fld) (has (flags fi) TRFLAG_REVERSE_NUM) in
  let s := dir_text (suffix fld) (has (flags fi) TRFLAG_REVERSE_SUFFIX) in
  let tail := n ++ pad_text postbuf_pad "0" ++ s ++ pad_text (suffix_pad fi) "0" in
  if pad_flags =? 0 then
    pad_text width_pad " " ++ p ++ pad_text prebuf_pad "0" ++ tail
  else if pad_flags =? 1 then
    if has (flags fi) TFLAG_DOUBLE then
      (if Ascii.eqb (sign_char fld) NUL then [] else [sign_char fld])
        ++ pad_text width_pad "0" ++ p ++ tail
    else p ++ pad_text width_pad "0" ++ tail
  else
    p ++ pad_text prebuf_pad "0" ++ tail ++ pad_text width_pad " ".

(** The conversion-type class of a flag word. *)
Definition type_bits (f : Z) : Z := Z.land f TFLAG_MASK.

Definition one_type_bit (f : Z) : Prop :=
  In (type_bits f) [TFLAG_INT; TFLAG_DOUBLE; TFLAG_CHAR; TFLAG_STRING; TFLAG_PTR; TFLAG_CTR].

(** What one turn of the parser's loop guarantees when no type bit is
    set before it. *)
Definition char_inv (next : ascii) (r : res action) : Prop :=
  match r with
  | Ok (Continue st _) => type_bits (fl st) = 0
  | Ok (ContinueSkip st _) => type_bits (fl st) = 0 /\ next = "f"%char
  | Ok (Break st _) => one_type_bit (fl st)
  | Ok (Return r _ _) => r = - EINVAL \/ r = - ENOTSUP
  | Undef | Diverge => True
  end.

Definition strlen (s : string) : Z := Z.of_nat (String.length s).

(** How the loop ends when no type bit is set at its start: on a
    negative status, at a conversion letter (inside the text, with one
    type bit), or at the end of the text (with none). *)
Definition loop_inv (i : Z) (s : string) (r : res loop_exit) : Prop :=
  match r with
  | Ok (Returned ret _ _) => ret = - EINVAL \/ ret = - ENOTSUP
  | Ok (Fell j st _) =>
      (i <= j < i + strlen s /\ one_type_bit (fl st))
      \/ (j = i + strlen s /\ type_bits (fl st) = 0)
  | Undef | Diverge => True
  end.

Section LoopVocabulary.

Variable target : abi.

(** The loop, started on [(s, out, va)], comes to the top of a turn
    with [(s', out', va')]. *)
Inductive arrives : string -> output_info -> va_list ->
                    string -> output_info -> va_list -> Prop :=
| arrives_here s out va : arrives s out va s out va
| arrives_turn s out va s1 out1 va1 s2 out2 va2 :
    loop_body target s out va = Ok (Next s1 out1 va1) ->
    arrives s1 out1 va1 s2 out2 va2 ->
    arrives s out va s2 out2 va2.

End LoopVocabulary.

(** The text at the top of a turn starts a directive: a [%] followed
    by a character other than [%]. *)
Definition at_directive (s : string) : Prop :=
  exists c rest, s = String "%" (String c rest) /\ c <> "%"%char.

Definition same_turn (t1 t2 : res turn) : Prop :=
  match t1, t2 with
  | Ok (Next s1 o1 v1), Ok (Next s2 o2 v2) =>
      s1 = s2 /\ v1 = v2 /\ chars_out o1 = chars_out o2
  | Ok (Stop r1 o1), Ok (Stop r2 o2) => r1 = r2 /\ chars_out o1 = chars_out o2
  | Undef, Undef | Diverge, Diverge => True
  | _, _ => False
  end.

Definition same_result (r1 r2 : res (Z * output_info)) : Prop :=
  match r1, r2 with
  | Ok (n1, o1), Ok (n2, o2) => n1 = n2 /\ chars_out o1 = chars_out o2
  | Undef, Undef | Diverge, Diverge => True
  | _, _ => False
  end.

(** A destination of [n] bytes that all hold [c]. *)
Definition filled (n : nat) (c : ascii) : gmap Z ascii :=
  list_to_map (map (fun i => (Z.of_nat i, c)) (seq 0 n)).

(** What a call printed on an empty console, with its return value. *)
Definition printed (r : res (Z * output_info)) : option (Z * string) :=
  match r with
  | Ok (n, out) => Some (n, string_of_list_ascii (console out))
  | _ => None
  end.

(** Specification of the reading: the decimal [f * 10^e] rounds to the
    binary64 value with biased exponent [eb] and significand [sig] under
    round-to-nearest, ties-to-even, when it lies between the two halfway
    points around that value, the halfway points themselves included when
    the significand is even.  All quantities are scaled to integers. *)
Definition reads_back_as (f e eb sig : Z) : bool :=
  let m2 := if eb =? 0 then sig else sig + 2 ^ 52 in
  let e2 := (if eb =? 0 then 1 else eb) - 1075 in
  let lo := 4 * m2 - (if (sig =? 0) && (1 <? eb) then 1 else 2) in
  let hi := 4 * m2 + 2 in
  let x2 := e2 - 2 in
  let lhs := f * 10 ^ Z.max e 0 * 2 ^ Z.max (- x2) 0 in
  let rhs := fun b => b * 2 ^ Z.max x2 0 * 10 ^ Z.max (- e) 0 in
  if Z.even m2 then (rhs lo <=? lhs) && (lhs <=? rhs hi)
  else (rhs lo <? lhs) && (lhs <? rhs hi).

(** The digits computed for a bit pattern read back as that pattern. *)
Definition round_trips (bits : Z) : bool :=
  match Ryu.d2d bits with
  | Ok (e, f) => reads_back_as f e (Ryu.exponent_of bits) (Ryu.significand_of bits)
  | _ => false
  end.

(** The radices the parser can set. *)
Definition radix_ok (r : Z) : Prop :=
  r = RADIX_BIN \/ r = RADIX_OCT \/ r = RADIX_DEC \/ r = RADIX_HEX.

(** The digits of the magnitude, least significant first, as
    [yalc_itora] leaves them in [num_buff]: the natural digit string. *)
Definition natural_digits (val : Z) (fi : format_info) : list ascii :=
  fst (yalc_itora (fst (putll_prefix val fi)) fi).

(** An integer descriptor with an explicit precision, as the parser
    hands it to the renderer: the precision bit is set, the zero-pad flag
    has been cleared, the pads are still zero. *)
Record int_with_precision (fi : format_info) : Prop := {
  iwp_prec   : has (flags fi) SFLAG_HAS_PREC = true;
  iwp_nozero : has (flags fi) FFLAG_ZERO_PAD = false;
  iwp_radix  : radix_ok (radix fi);
  iwp_range  : 0 <= precision fi <= INT_MAX;
  iwp_numpad : num_pad fi = 0;
  iwp_sufpad : suffix_pad fi = 0
}.

Definition spaces (l : list ascii) : Prop := Forall (fun c => c = " "%char) l.

(** What the parser never touches, and the range it keeps. *)
Definition fi_inv (f : format_info) : Prop :=
  num_pad f = 0 /\ suffix_pad f = 0 /\ radix_ok (radix f)
  /\ - 2 ^ 31 <= precision f <= INT_MAX.

Definition action_fi_inv (r : res action) : Prop :=
  match r with
  | Ok (Continue st _) | Ok (ContinueSkip st _) | Ok (Break st _) | Ok (Return _ st _) =>
      fi_inv (fi st)
  | Undef | Diverge => True
  end.

Definition exit_fi_inv (r : res loop_exit) : Prop :=
  match r with
  | Ok (Returned _ st _) | Ok (Fell _ st _) => fi_inv (fi st)
  | Undef | Diverge => True
  end.

(** ** Numerals, index shifts and the Ryu tables *)

(** The value of a digit character, in any of the radices. *)
Definition digit_value (c : ascii) : Z :=
  let n := code c in
  if (48 <=? n) && (n <=? 57) then n - 48
  else if (97 <=? n) && (n <=? 102) then n - 87
  else if (65 <=? n) && (n <=? 70) then n - 55
  else -1.

(** The number a digit string denotes, least significant digit first
    (the order [yalc_itora] writes). *)
Fixpoint digits_value (base : Z) (l : list ascii) : Z :=
  match l with
  | [] => 0
  | c :: r => digit_value c + base * digits_value base r
  end.

(** The loop of the parser only carries its index along. *)
Definition shift_exit (k : Z) (e : res loop_exit) : res loop_exit :=
  match e with
  | Ok (Fell i st va) => Ok (Fell (i + k) st va)
  | other => other
  end.

(** A run of checks that [f p] is the integer logarithm of [b ^ p] to
    the base [lo], for [n] consecutive exponents from [p] on.  The
    powers are carried along: [pw] is [b ^ p] and [lw] is [lo ^ l],
    where [l] is the logarithm of the exponent before. *)
Fixpoint floor_log_run (lo b : Z) (f : Z -> Z) (n : nat) (p pw l lw : Z) : bool :=
  match n with
  | O => true
  | S n' =>
      let l' := f p in
      let lw' := lw * lo ^ (l' - l) in
      (l <=? l') && (lw' <=? pw) && (pw <? lo * lw')
      && floor_log_run lo b f n' (p + 1) (b * pw) l' lw'
  end.

(** The 128-bit value of a pair of 64-bit words, low word first. *)
Definition wide (b : Z * Z) : Z := fst b + 2 ^ 64 * snd b.

(** The 125 leading bits of [5^p], and of its scaled inverse plus one. *)
Definition pow5_bits (p : Z) : Z := 5 ^ p * 2 ^ 125 / 2 ^ (Z.log2 (5 ^ p) + 1).
Definition pow5_inv_bits (p : Z) : Z := 2 ^ (Z.log2 (5 ^ p) + 125) / 5 ^ p + 1.

Definition table_entry_is (f : Z -> res (Z * Z)) (g : Z -> Z) (p : Z) : bool :=
  match f p with
  | Ok b => (wide b =? g p) && (0 <=? fst b) && (fst b <? 2 ^ 64)
            && (0 <=? snd b) && (snd b <? 2 ^ 64)
  | _ => false
  end.

(** ** Memory and words *)

(** The byte a mapped address holds. *)
Definition byte_at (m : Str.memory) (a : Z) : Z :=
  match m a with
  | Some b => u8 b
  | None => 0
  end.

Definition mapped (m : Str.memory) (a : Z) : Prop := m a <> None.

(** The bytes of [n] consecutive addresses, and the number a list of
    bytes denotes, least significant byte first. *)
Fixpoint bytes_from (m : Str.memory) (a : Z) (n : nat) : list Z :=
  match n with
  | O => []
  | S n' => byte_at m a :: bytes_from m (a + 1) n'
  end.

Fixpoint le_val (l : list Z) : Z :=
  match l with
  | [] => 0
  | b :: r => b + 256 * le_val r
  end.

(** The word whose [n] bytes are all 1. *)
Fixpoint ones_word (n : nat) : Z :=
  match n with
  | O => 0
  | S n' => 1 + 256 * ones_word n'
  end.

(** The zero-byte test on words of [n] bytes. *)
Definition has_zero_n (n : nat) (x y : Z) : Z :=
  Z.land (Z.land (x mod 256 ^ Z.of_nat n) (y mod 256 ^ Z.of_nat n)) (128 * ones_word n).

(** The memory holds the string [s] at [p]: its characters, none of them
    zero, and then the terminator. *)
Definition holds_string (m : Str.memory) (p : Z) (s : string) : Prop :=
  (forall i c, nth_error (chars s) i = Some c ->
     m (p + Z.of_nat i) = Some (code c) /\ code c <> 0)
  /\ m (p + strlen s) = Some 0.

(** The [n] low bytes of a word, least significant first. *)
Fixpoint word_bytes (n : nat) (x : Z) : list Z :=
  match n with
  | O => []
  | S n' => x mod 256 :: word_bytes n' (x / 256)
  end.

(** The memory that holds the bytes [l] from [base] on and maps
    nothing else. *)
Definition mem_of_bytes (base : Z) (l : list Z) : Str.memory :=
  fun a =>
    if (base <=? a) && (a <? base + Z.of_nat (length l))
    then nth_error l (Z.to_nat (a - base))
    else None.

(** * Properties *)

(** ** Machine integers *)

Lemma u64_range x : 0 <= u64 x < 2 ^ 64.
Proof. unfold u64. apply Z.mod_pos_bound. lia. Qed.

Lemma u64_small x : 0 <= x < 2 ^ 64 -> u64 x = x.
Proof. intros H. unfold u64. apply Z.mod_small. exact H. Qed.

Lemma s32_small x : - 2 ^ 31 <= x < 2 ^ 31 -> s32 x = x.
Proof.
  intros H. unfold s32, sN. change (2 ^ (32 - 1)) with (2 ^ 31).
  rewrite Z.mod_small; lia.
Qed.

(** ** The output sink *)

Section SinkFacts.

Lemma emit_app (a b : list ascii) (out : output_info) :
  emit (a ++ b) out = emit b (emit a out).
Proof. unfold emit. apply fold_left_app. Qed.

Lemma emit_nil (out : output_info) : emit [] out = out.
Proof. reflexivity. Qed.

Lemma emit_one (c : ascii) (out : output_info) : emit [c] out = yalc_pf_char_out c out.
Proof. reflexivity. Qed.

Lemma pad_loop_emit (n : nat) (c : ascii) (out : output_info) :
  pad_loop n c out = emit (repeat c n) out.
Proof.
  revert out. induction n as [|n IH]; intros out; simpl; [reflexivity|].
  rewrite IH. reflexivity.
Qed.

Lemma char_out_len (c : ascii) (out : output_info) :
  outbuff_len (yalc_pf_char_out c out) = outbuff_len out.
Proof.
  unfold yalc_pf_char_out. destruct (outbuff out); [|reflexivity].
  destruct (char_out_store c out) as [[i x]|]; reflexivity.
Qed.

Lemma char_out_count (c : ascii) (out : output_info) :
  chars_out (yalc_pf_char_out c out) = u64 (chars_out out + 1).
Proof.
  unfold yalc_pf_char_out. destruct (outbuff out); [|reflexivity].
  destruct (char_out_store c out) as [[i x]|]; reflexivity.
Qed.

Lemma emit_len (t : list ascii) (out : output_info) :
  outbuff_len (emit t out) = outbuff_len out.
Proof.
  revert out. induction t as [|c t IH]; intros out; [reflexivity|].
  change (emit (c :: t) out) with (emit t (yalc_pf_char_out c out)).
  rewrite IH. apply char_out_len.
Qed.

(** The running count does not depend on the destination. *)
Lemma emit_count_indep (t : list ascii) (o1 o2 : output_info) :
  chars_out o1 = chars_out o2 -> chars_out (emit t o1) = chars_out (emit t o2).
Proof.
  revert o1 o2. induction t as [|c t IH]; intros o1 o2 H; [exact H|].
  change (emit (c :: t) o1) with (emit t (yalc_pf_char_out c o1)).
  change (emit (c :: t) o2) with (emit t (yalc_pf_char_out c o2)).
  apply IH. rewrite !char_out_count, H. reflexivity.
Qed.

(** On the console every character is appended, in order. *)
Lemma emit_console (t : list ascii) (out : output_info) :
  outbuff out = None ->
  outbuff (emit t out) = None /\ console (emit t out) = console out ++ t.
Proof.
  revert out. induction t as [|c t IH]; intros out H.
  - split; [exact H|]. simpl. rewrite app_nil_r. reflexivity.
  - change (emit (c :: t) out) with (emit t (yalc_pf_char_out c out)).
    assert (Hc : outbuff (yalc_pf_char_out c out) = None
                 /\ console (yalc_pf_char_out c out) = console out ++ [c]).
    { unfold yalc_pf_char_out. rewrite H. split; reflexivity. }
    destruct Hc as [Hn Hc]. destruct (IH _ Hn) as [IH1 IH2].
    split; [exact IH1|]. rewrite IH2, Hc, <- app_assoc. reflexivity.
Qed.

End SinkFacts.

(** ** The text of a field *)

Lemma pad_emit (n : Z) (c : ascii) (out : output_info) :
  yalc_pf_pad n c out = emit (pad_text n c) out.
Proof. apply pad_loop_emit. Qed.

Lemma chars_out_emit (l : list ascii) (r : bool) (out : output_info) :
  yalc_pf_chars_out l r out = emit (dir_text l r) out.
Proof. unfold yalc_pf_chars_out, dir_text. destruct r; reflexivity. Qed.

Lemma field_out_emit (fld : field_data) (fi : format_info) (out : output_info) :
  yalc_pf_field_out fld fi out = emit (field_text fld fi) out.
Proof.
  unfold yalc_pf_field_out, field_text.
  destruct (Z.land (Z.shiftr (flags fi) 1) 3 =? 0);
    [|destruct (Z.land (Z.shiftr (flags fi) 1) 3 =? 1);
      [destruct (has (flags fi) TFLAG_DOUBLE);
       [destruct (Ascii.eqb (sign_char fld) NUL)|]|]];
    rewrite ?pad_emit, ?chars_out_emit, <- ?emit_one, <- ?emit_app, <- ?app_assoc;
    reflexivity.
Qed.

(** ** Stores into the destination buffer *)

Lemma store_below_capacity (c : ascii) (out : output_info) (i : Z) (x : ascii) :
  char_out_store c out = Some (i, x) ->
  i < outbuff_len out
  /\ ((chars_out out < outbuff_len out - 1 /\ i = chars_out out /\ x = c)
      \/ (i = outbuff_len out - 1 /\ x = NUL)).
Proof.
  unfold char_out_store. destruct (outbuff out); [|discriminate].
  destruct (0 <? outbuff_len out) eqn:Hn; [|discriminate].
  destruct (chars_out out <? outbuff_len out - 1) eqn:Hlt.
  - intros [= <- <-]. apply Z.ltb_lt in Hlt. split; [lia|]. left. auto.
  - destruct (chars_out out =? outbuff_len out - 1) eqn:Heq; [|discriminate].
    intros [= <- <-]. apply Z.eqb_eq in Heq. split; [lia|]. right. auto.
Qed.

Lemma emit_frame (t : list ascii) (out : output_info) (mem : gmap Z ascii) :
  outbuff out = Some mem ->
  exists mem', outbuff (emit t out) = Some mem'
               /\ forall j, outbuff_len out <= j -> mem' !! j = mem !! j.
Proof.
  revert out mem. induction t as [|c t IH]; intros out mem Hm.
  - exists mem. split; [exact Hm|]. reflexivity.
  - change (emit (c :: t) out) with (emit t (yalc_pf_char_out c out)).
    assert (H1 : exists m1, outbuff (yalc_pf_char_out c out) = Some m1
                            /\ forall j, outbuff_len out <= j -> m1 !! j = mem !! j).
    { unfold yalc_pf_char_out. rewrite Hm.
      destruct (char_out_store c out) as [[i x]|] eqn:Hs.
      - apply store_below_capacity in Hs. destruct Hs as [Hi _].
        eexists. split; [reflexivity|]. intros j Hj. simpl. apply lookup_insert_ne. lia.
      - eexists. split; reflexivity. }
    destruct H1 as (m1 & Hm1 & Hf1).
    destruct (IH _ _ Hm1) as (m2 & Hm2 & Hf2).
    exists m2. split; [exact Hm2|]. intros j Hj.
    rewrite Hf2 by (rewrite char_out_len; exact Hj). apply Hf1. exact Hj.
Qed.

(** C10.  In a bounded write of capacity [N > 0], the store that
    [yalc_pf_char_out] performs, if any, is either the character at
    index [chars_out] with [chars_out < N - 1], or the terminator at index
    [N - 1]; its index is below [N] whatever the running count is, and
    after any run of calls every byte at an index [>= N] is unchanged. *)
Theorem char_out_never_stores_past_capacity
        (c : ascii) (out : output_info) (N : Z) :
  outbuff_len out = N -> 0 < N ->
  (forall i x, char_out_store c out = Some (i, x) ->
     i < N /\ ((chars_out out < N - 1 /\ i = chars_out out /\ x = c)
               \/ (i = N - 1 /\ x = NUL)))
  /\ (forall text mem, outbuff out = Some mem ->
        exists mem', outbuff (emit text out) = Some mem'
                     /\ forall j, N <= j -> mem' !! j = mem !! j).
Proof.
  intros HN Hpos. subst N. split.
  - intros i x Hs. apply store_below_capacity. exact Hs.
  - intros text mem Hm. apply emit_frame. exact Hm.
Qed.

Lemma char_out_never_stores_past_capacity_witness :
  let out := mk_out (Some (∅ : gmap Z ascii)) 4 7 [] in
  outbuff_len out = 4 /\ 0 < 4
  /\ (forall i x, char_out_store "a" out = Some (i, x) ->
        i < 4 /\ ((chars_out out < 4 - 1 /\ i = chars_out out /\ x = "a"%char)
                  \/ (i = 4 - 1 /\ x = NUL)))
  /\ (forall text mem, outbuff out = Some mem ->
        exists mem', outbuff (emit text out) = Some mem'
                     /\ forall j, 4 <= j -> mem' !! j = mem !! j).
Proof.
  intros out. split; [reflexivity|]. split; [lia|].
  apply (char_out_never_stores_past_capacity "a" out 4); [reflexivity | lia].
Defined.

(** ** Field width *)

Lemma field_width_indep (fld : field_data) (fi : format_info) (W : Z) :
  field_width fld (with_width fi W) = field_width fld fi.
Proof. reflexivity. Qed.

Lemma field_width_nonneg (fld : field_data) (fi : format_info) : 0 <= field_width fld fi.
Proof. unfold field_width. apply u64_range. Qed.

(** For a width in the range of a non-negative [int] the padding is
    the deficit against the rendered width. *)
Lemma width_pad_deficit (fld : field_data) (fi : format_info) (W : Z) :
  0 <= W <= INT_MAX ->
  u64 (width_pad_of fld (with_width fi W)) = Z.max 0 (W - field_width fld fi).
Proof.
  intros HW. unfold width_pad_of. rewrite field_width_indep.
  change (width (with_width fi W)) with W.
  pose proof (field_width_nonneg fld fi) as Hf.
  unfold INT_MAX in HW.
  rewrite (u64_small W) by lia.
  destruct (field_width fld fi <? W) eqn:Hlt.
  - apply Z.ltb_lt in Hlt. rewrite s32_small by lia. rewrite u64_small by lia. lia.
  - apply Z.ltb_ge in Hlt. change (u64 0) with 0. lia.
Qed.

Lemma pad_text_split (fld : field_data) (fi : format_info) (W1 W2 : Z) (c : ascii) :
  0 <= W1 -> W1 <= W2 -> W2 <= INT_MAX ->
  exists n,
    pad_text (width_pad_of fld (with_width fi W2)) c
    = pad_text (width_pad_of fld (with_width fi W1)) c ++ repeat c n.
Proof.
  intros H0 H12 H2. unfold pad_text.
  rewrite !width_pad_deficit by lia.
  exists (Z.to_nat (Z.max 0 (W2 - field_width fld fi))
          - Z.to_nat (Z.max 0 (W1 - field_width fld fi)))%nat.
  rewrite <- repeat_app. f_equal. lia.
Qed.

(** Widths in the range of a non-negative [int].  For a fixed field
    and descriptor and [0 <= W1 <= W2 <= INT_MAX], the output at [W2] is
    the output at [W1] with a run of padding characters (all spaces or
    all zeros) inserted at one place: nothing of the prefix, digits or
    suffix is removed. *)
Theorem field_width_monotone
        (fld : field_data) (fi : format_info) (W1 W2 : Z) :
  0 <= W1 -> W1 <= W2 -> W2 <= INT_MAX ->
  exists (pre post : list ascii) (c : ascii) (n : nat),
    (c = " "%char \/ c = "0"%char)
    /\ (forall out, yalc_pf_field_out fld (with_width fi W1) out = emit (pre ++ post) out)
    /\ (forall out, yalc_pf_field_out fld (with_width fi W2) out
                    = emit (pre ++ repeat c n ++ post) out).
Proof.
  intros H0 H12 H2.
  destruct (pad_text_split fld fi W1 W2 " " H0 H12 H2) as [ns Hs].
  destruct (pad_text_split fld fi W1 W2 "0" H0 H12 H2) as [nz Hz].
  set (p := dir_text (prefix fld) (has (flags fi) TRFLAG_REVERSE_PREFIX)).
  set (tl := dir_text (inbuff fld) (has (flags fi) TRFLAG_REVERSE_NUM)
             ++ pad_text (postbuf_pad_of fi) "0"
             ++ dir_text (suffix fld) (has (flags fi) TRFLAG_REVERSE_SUFFIX)
             ++ pad_text (suffix_pad fi) "0").
  assert (Hft : forall W, field_text fld (with_width fi W) =
    if Z.land (Z.shiftr (flags fi) 1) 3 =? 0 then
      pad_text (width_pad_of fld (with_width fi W)) " " ++ p
        ++ pad_text (prebuf_pad_of fi) "0" ++ tl
    else if Z.land (Z.shiftr (flags fi) 1) 3 =? 1 then
      if has (flags fi) TFLAG_DOUBLE then
        (if Ascii.eqb (sign_char fld) NUL then [] else [sign_char fld])
          ++ pad_text (width_pad_of fld (with_width fi W)) "0" ++ p ++ tl
      else p ++ pad_text (width_pad_of fld (with_width fi W)) "0" ++ tl
    else p ++ pad_text (prebuf_pad_of fi) "0" ++ tl
           ++ pad_text (width_pad_of fld (with_width fi W)) " ") by reflexivity.
  destruct (Z.land (Z.shiftr (flags fi) 1) 3 =? 0) eqn:F0;
    [|destruct (Z.land (Z.shiftr (flags fi) 1) 3 =? 1) eqn:F1;
      [destruct (has (flags fi) TFLAG_DOUBLE) eqn:FD|]].
  - exists (pad_text (width_pad_of fld (with_width fi W1)) " "),
           (p ++ pad_text (prebuf_pad_of fi) "0" ++ tl), " "%char, ns.
    split; [left; reflexivity|]. split; intros out; rewrite field_out_emit, Hft.
    + reflexivity.
    + rewrite Hs, <- app_assoc. reflexivity.
  - exists ((if Ascii.eqb (sign_char fld) NUL then [] else [sign_char fld])
              ++ pad_text (width_pad_of fld (with_width fi W1)) "0"),
           (p ++ tl), "0"%char, nz.
    split; [right; reflexivity|]. split; intros out; rewrite field_out_emit, Hft.
    + rewrite <- app_assoc. reflexivity.
    + rewrite Hz, <- !app_assoc. reflexivity.
  - exists (p ++ pad_text (width_pad_of fld (with_width fi W1)) "0"), tl, "0"%char, nz.
    split; [right; reflexivity|]. split; intros out; rewrite field_out_emit, Hft.
    + rewrite <- app_assoc. reflexivity.
    + rewrite Hz, <- !app_assoc. reflexivity.
  - exists (p ++ pad_text (prebuf_pad_of fi) "0" ++ tl
              ++ pad_text (width_pad_of fld (with_width fi W1)) " "),
           [], " "%char, ns.
    split; [left; reflexivity|]. split; intros out; rewrite field_out_emit, Hft.
    + rewrite app_nil_r. reflexivity.
    + rewrite Hs, !app_nil_r, <- !app_assoc. reflexivity.
Qed.

Lemma field_width_monotone_witness :
  let fld := mk_fld (chars "24") (chars "-") [] NUL in
  let fi := mk_fi TRFLAG_REVERSE_NUM 0 0 0 0 0 RADIX_DEC in
  0 <= 3 /\ 3 <= 8 /\ 8 <= INT_MAX
  /\ exists (pre post : list ascii) (c : ascii) (n : nat),
       (c = " "%char \/ c = "0"%char)
       /\ (forall out, yalc_pf_field_out fld (with_width fi 3) out = emit (pre ++ post) out)
       /\ (forall out, yalc_pf_field_out fld (with_width fi 8) out
                       = emit (pre ++ repeat c n ++ post) out).
Proof.
  intros fld fi. split; [lia|]. split; [lia|]. split; [unfold INT_MAX; lia|].
  apply (field_width_monotone fld fi 3 8); [lia | lia | unfold INT_MAX; lia].
Defined.

(** *** Negative widths *)

(** The text of a run of calls is read off the console. *)
Lemma emit_text_inj (t1 t2 : list ascii) :
  (forall out, emit t1 out = emit t2 out) -> t1 = t2.
Proof.
  intros H. specialize (H (mk_out None 0 0 [])).
  pose proof (emit_console t1 (mk_out None 0 0 []) eq_refl) as [_ H1].
  pose proof (emit_console t2 (mk_out None 0 0 []) eq_refl) as [_ H2].
  rewrite H in H1. rewrite H1 in H2. exact H2.
Qed.

(** C9.  The width of a descriptor is an [int]; [yalc_pf_field_out]
    compares it with the rendered width as a [size_t], so a negative
    width counts as a huge one.  The parser hands over the width
    [INT_MIN] for ["%2147483648d"]: with it the field [123] is preceded
    by 2147483645 spaces, with the larger width 0 by none, and the output
    at width 0 is not the output at width [INT_MIN] with padding added.
    [yalc_pf_field_out_simple], which compares in [int], pads neither. *)
Theorem negative_width_pads_as_a_huge_width :
  let fld := mk_fld (chars "321") [] [] NUL in
  let fi := mk_fi (Z.lor TRFLAG_REVERSE_NUM
                     (Z.lor SFLAG_HAS_WIDTH (Z.lor SFLAG_IS_SIGNED TFLAG_INT)))
                  0 0 32 0 0 RADIX_DEC in
  (exists f, yalc_pf_parse_format "%2147483648d" [VInt 123] = Ok (11, f, [VInt 123])
             /\ width f = - 2147483648
             /\ dispatch lp64 f [VInt 123]
                = Ok (Field fld (with_width fi (- 2147483648)) []))
  /\ - 2147483648 <= 0
  /\ field_width fld fi = 3
  /\ u64 (- 2147483648) = 18446744071562067968
  /\ width_pad_of fld (with_width fi (- 2147483648)) = 2147483645
  /\ width_pad_of fld (with_width fi 0) = 0
  /\ (forall out, yalc_pf_field_out fld (with_width fi (- 2147483648)) out
                  = emit (repeat " "%char (Z.to_nat 2147483645) ++ chars "123") out)
  /\ (forall out, yalc_pf_field_out fld (with_width fi 0) out = emit (chars "123") out)
  /\ ~ (exists (pre post : list ascii) (c : ascii) (n : nat),
          (c = " "%char \/ c = "0"%char)
          /\ (forall out, yalc_pf_field_out fld (with_width fi (- 2147483648)) out
                          = emit (pre ++ post) out)
          /\ (forall out, yalc_pf_field_out fld (with_width fi 0) out
                          = emit (pre ++ repeat c n ++ post) out))
  /\ (forall out, yalc_pf_field_out_simple fld (with_width fi (- 2147483648)) out
                  = emit (chars "123") out)
  /\ (forall out, yalc_pf_field_out_simple fld (with_width fi 0) out
                  = emit (chars "123") out).
Proof.
  intros fld fi.
  assert (Hpad : width_pad_of fld (with_width fi (- 2147483648)) = 2147483645)
    by (vm_compute; reflexivity).
  assert (Hneg : forall out, yalc_pf_field_out fld (with_width fi (- 2147483648)) out
                   = emit (repeat " "%char (Z.to_nat 2147483645) ++ chars "123") out).
  { intros out. rewrite field_out_emit. apply (f_equal (fun t => emit t out)).
    unfold field_text. rewrite Hpad.
    change (Z.land (Z.shiftr (flags (with_width fi (- 2147483648))) 1) 3 =? 0) with true.
    cbv iota.
    change (prebuf_pad_of (with_width fi (- 2147483648))) with 0.
    change (postbuf_pad_of (with_width fi (- 2147483648))) with 0.
    change (suffix_pad (with_width fi (- 2147483648))) with 0.
    change (pad_text 0 "0") with (@nil ascii).
    change (dir_text (prefix fld)
              (has (flags (with_width fi (- 2147483648))) TRFLAG_REVERSE_PREFIX))
      with (@nil ascii).
    change (dir_text (suffix fld)
              (has (flags (with_width fi (- 2147483648))) TRFLAG_REVERSE_SUFFIX))
      with (@nil ascii).
    change (dir_text (inbuff fld)
              (has (flags (with_width fi (- 2147483648))) TRFLAG_REVERSE_NUM))
      with (chars "123").
    unfold pad_text. change (u64 2147483645) with 2147483645.
    cbn [app]. rewrite app_nil_r. reflexivity. }
  assert (Hzero : forall out, yalc_pf_field_out fld (with_width fi 0) out
                    = emit (chars "123") out).
  { intros out. rewrite field_out_emit.
    assert (E : field_text fld (with_width fi 0) = chars "123") by (vm_compute; reflexivity).
    rewrite E. reflexivity. }
  assert (Hsimple : forall W, W = - 2147483648 \/ W = 0 ->
            forall out, yalc_pf_field_out_simple fld (with_width fi W) out
                        = emit (chars "123") out).
  { intros W HW out. unfold yalc_pf_field_out_simple.
    rewrite !pad_emit, !chars_out_emit.
    assert (Ew : width_pad_simple fld (with_width fi W) = 0)
      by (destruct HW as [-> | ->]; vm_compute; reflexivity).
    rewrite Ew.
    change (Ascii.eqb (sign_char fld) NUL) with true. cbv iota.
    change (prebuf_pad_of (with_width fi W)) with 0.
    change (postbuf_pad_of (with_width fi W)) with 0.
    change (suffix_pad (with_width fi W)) with 0.
    change (pad_text 0 "0") with (@nil ascii).
    change (pad_text 0 " ") with (@nil ascii).
    change (dir_text (prefix fld) (has (flags (with_width fi W)) TRFLAG_REVERSE_PREFIX))
      with (@nil ascii).
    change (dir_text (suffix fld) (has (flags (with_width fi W)) TRFLAG_REVERSE_SUFFIX))
      with (@nil ascii).
    change (dir_text (inbuff fld) (has (flags (with_width fi W)) TRFLAG_REVERSE_NUM))
      with (chars "123").
    rewrite !emit_nil. reflexivity. }
  split.
  { eexists. split; [vm_compute; reflexivity|]. split; vm_compute; reflexivity. }
  split; [lia|].
  split; [vm_compute; reflexivity|].
  split; [vm_compute; reflexivity|].
  split; [exact Hpad|].
  split; [vm_compute; reflexivity|].
  split; [exact Hneg|].
  split; [exact Hzero|].
  split.
  { intros (pre & post & c & n & _ & H1 & H2).
    assert (E1 : repeat " "%char (Z.to_nat 2147483645) ++ chars "123" = pre ++ post).
    { apply emit_text_inj. intros out. rewrite <- Hneg. apply H1. }
    assert (E2 : chars "123" = pre ++ repeat c n ++ post).
    { apply emit_text_inj. intros out. rewrite <- Hzero. apply H2. }
    apply (f_equal (@length ascii)) in E1, E2.
    rewrite !length_app, repeat_length in E1.
    rewrite !length_app, repeat_length in E2.
    change (length (chars "123")) with 3%nat in E1, E2.
    assert (Hb : (0 < Z.to_nat 2147483645)%nat)
      by (change 0%nat with (Z.to_nat 0); apply Z2Nat.inj_lt; lia).
    revert E1 Hb. generalize (Z.to_nat 2147483645). intros N E1 Hb.
    lia. }
  split; intros out; apply Hsimple; auto.
Qed.

(** ** The parser *)

Lemma type_bits_set (f c : Z) : type_bits (set_flag f c) = Z.lor (type_bits f) (type_bits c).
Proof. unfold type_bits, set_flag. apply Z.land_lor_distr_l. Qed.

Lemma type_bits_clear (f c : Z) : type_bits f = 0 -> type_bits (clear_flag f c) = 0.
Proof.
  unfold type_bits, clear_flag. intros H.
  rewrite <- Z.land_assoc, (Z.land_comm (Z.lxor c 0xFFFFFFFF)), Z.land_assoc, H.
  apply Z.land_0_l.
Qed.

Lemma type_bits_clear_zero_pad (f : Z) :
  type_bits (clear_flag f FFLAG_ZERO_PAD) = type_bits f.
Proof.
  unfold type_bits, clear_flag. rewrite <- Z.land_assoc. reflexivity.
Qed.

Ltac reduce_parse_char :=
  lazy beta iota zeta delta
    [parse_char conversion is_digit19 code N_of_ascii N_of_digits fl ps_flags ps_fi
     fi width_from_arg prec_from_arg has_bitlen Z.of_N Z.leb Z.compare Pos.compare
     Pos.compare_cont andb N.add N.mul Pos.add Pos.succ Pos.mul].

Ltac split_ifs :=
  repeat match goal with
  | |- context [bind (va_arg_int ?va) _] =>
      let v := fresh "v" in
      destruct va as [|[v| | |] ?]; unfold bind, va_arg_int
  | |- context [if ?b then _ else _] => destruct b eqn:?
  end.

Ltac solve_char_inv H :=
  cbn [char_inv flags with_flags with_width with_precision with_int_bitlen with_radix
       Parser.fi fl];
  first
    [ exact I
    | exact H
    | left; reflexivity
    | right; reflexivity
    | apply type_bits_clear; exact H
    | unfold one_type_bit; rewrite ?type_bits_set, H; cbv; tauto
    | rewrite ?type_bits_set, H; reflexivity
    | split; [rewrite ?type_bits_set, H; reflexivity | apply Ascii.eqb_eq; assumption] ].

Lemma parse_char_inv (c next : ascii) (st : pstate) (va : va_list) :
  type_bits (fl st) = 0 -> char_inv next (parse_char c next st va).
Proof.
  intros H.
  destruct st as [f wa pa hb]. unfold fl in H. simpl in H.
  destruct c as [[] [] [] [] [] [] [] []].
  all: reduce_parse_char.
  all: split_ifs.
  all: solve_char_inv H.
Qed.

Lemma loop_inv_shift (i k : Z) (s s' : string) (r : res loop_exit) :
  0 <= k -> i + strlen s = i + k + strlen s' ->
  loop_inv (i + k) s' r -> loop_inv i s r.
Proof.
  intros Hk Hl. destruct r as [[ret st va|j st va]| |]; simpl; auto.
  intros [[Hj Ht]|[Hj Ht]]; [left|right]; split; auto; lia.
Qed.

Lemma parse_loop_inv_bounded (n : nat) :
  forall (s : string) (i : Z) (st : pstate) (va : va_list),
    (String.length s <= n)%nat ->
    type_bits (fl st) = 0 -> loop_inv i s (parse_loop s i st va).
Proof.
  induction n as [|n IH]; intros s i st va Hn H.
  - destruct s; [|simpl in Hn; lia].
    simpl. right. split; [unfold strlen; simpl; lia | exact H].
  - destruct s as [|c rest].
    { simpl. right. split; [unfold strlen; simpl; lia | exact H]. }
    simpl in Hn. cbn [parse_loop].
    pose proof (parse_char_inv c (peek rest) st va H) as Hc.
    destruct (parse_char c (peek rest) st va) as [[st' va'|st' va'|st' va'|ret st' va']| |];
      cbn [bind]; simpl in Hc; try exact I.
    + apply (loop_inv_shift i 1 _ rest); [lia | unfold strlen; simpl String.length; lia |].
      apply IH; [lia | exact Hc].
    + destruct Hc as [Hc Hf]. destruct rest as [|c' rest'].
      * simpl in Hf. discriminate.
      * simpl in Hn.
        apply (loop_inv_shift i 2 _ rest');
          [lia | unfold strlen; simpl String.length; lia |].
        apply IH; [lia | exact Hc].
    + left. split; [unfold strlen; simpl String.length; lia | exact Hc].
    + exact Hc.
Qed.

Lemma parse_loop_inv (s : string) (i : Z) (st : pstate) (va : va_list) :
  type_bits (fl st) = 0 -> loop_inv i s (parse_loop s i st va).
Proof. apply (parse_loop_inv_bounded (String.length s)). lia. Qed.

Lemma finish_cases (i : Z) (f0 : format_info) :
  fst (finish i f0) = - EINVAL
  \/ (fst (finish i f0) = i /\ type_bits (flags (snd (finish i f0))) = type_bits (flags f0)).
Proof.
  unfold finish.
  destruct (nz _); [left; reflexivity|].
  destruct (has (flags f0) LFLAG_HALF && has (flags f0) LFLAG_LONG); [left; reflexivity|].
  right. split; [reflexivity|]. cbn [snd].
  destruct (has (flags f0) TFLAG_INT && has (flags f0) FFLAG_ZERO_PAD
            && has (flags f0) SFLAG_HAS_PREC);
    match goal with
    | |- context [if ?b then _ else _] => destruct b
    end; cbn [flags with_flags]; rewrite ?type_bits_clear_zero_pad; reflexivity.
Qed.

(** The parser returns a negative status or the index at which it
    stopped, between 1 and the length of the text. *)
Lemma parse_format_result (fmt : string) (va va' : va_list) (r : Z) (f : format_info) :
  yalc_pf_parse_format fmt va = Ok (r, f, va') ->
  r = - EINVAL \/ r = - ENOTSUP
  \/ (1 <= r /\ ((r < strlen fmt /\ one_type_bit (flags f))
                 \/ (strlen fmt <= r /\ type_bits (flags f) = 0))).
Proof.
  unfold yalc_pf_parse_format.
  set (tl := match fmt with EmptyString => EmptyString | String _ r0 => r0 end).
  assert (Hl : strlen fmt <= 1 + strlen tl /\ (fmt <> EmptyString -> strlen fmt = 1 + strlen tl)).
  { subst tl. destruct fmt; unfold strlen; simpl String.length; split; try lia; intros; try lia.
    congruence. }
  pose proof (parse_loop_inv tl 1 (mk_ps yalc_clear_fi false false false) va eq_refl) as Hi.
  destruct (parse_loop tl 1 _ va) as [[ret st v|j st v]| |]; cbn [bind]; try discriminate.
  - intros [= <- <- <-]. simpl in Hi. tauto.
  - simpl in Hi. pose proof (finish_cases j (fi st)) as Hf.
    destruct (finish j (fi st)) as [r0 f0]. cbn [fst snd] in Hf.
    intros [= <- <- <-].
    destruct Hf as [Hf|[Hf Ht]]; [left; exact Hf|]. subst r0.
    right. right. unfold fl in Hi. rewrite Ht.
    destruct Hi as [[Hj Ho]|[Hj Hz]].
    + split; [lia|]. left. split; [|unfold one_type_bit in *; rewrite Ht; exact Ho].
      destruct Hl as [_ Hl]. rewrite Hl; [lia|].
      intros ->. subst tl. unfold strlen in Hj. simpl in Hj. lia.
    + split; [unfold strlen in *; lia|]. right. split; [lia | exact Hz].
Qed.

(** When [yalc_pf_parse_format] returns a non-negative result, exactly
    one conversion-type bit is set if it stopped at a conversion letter
    (the result is below the length of the text), and none is set if the
    text ended before any conversion letter (the result is then at least
    that length). *)
Lemma parse_success_type_class
      (fmt : string) (va va' : va_list) (r : Z) (f : format_info) :
  yalc_pf_parse_format fmt va = Ok (r, f, va') ->
  0 <= r ->
  (r < strlen fmt -> one_type_bit (flags f))
  /\ (strlen fmt <= r -> type_bits (flags f) = 0).
Proof.
  intros Hp Hr. apply parse_format_result in Hp.
  unfold EINVAL, ENOTSUP in Hp.
  destruct Hp as [Hp|[Hp|[_ [[Hl Ho]|[Hl Hz]]]]].
  - lia.
  - lia.
  - split; [intros _; exact Ho | intros Hge; lia].
  - split; [intros Hlt; lia | intros _; exact Hz].
Qed.

(** The directive [%d] is parsed to its conversion letter, with the
    integer type bit alone. *)
Lemma parse_success_type_class_at_d :
  let f := mk_fi (Z.lor SFLAG_IS_SIGNED TFLAG_INT) 0 0 0 0 0 RADIX_DEC in
  yalc_pf_parse_format "%d" [] = Ok (1, f, [])
  /\ 0 <= 1
  /\ (1 < strlen "%d" -> one_type_bit (flags f))
  /\ (strlen "%d" <= 1 -> type_bits (flags f) = 0).
Proof.
  intros f. split; [reflexivity|]. split; [lia|].
  apply (parse_success_type_class "%d" [] [] 1 f); [reflexivity | lia].
Defined.

(** C3.  The text ["%5"] has no conversion letter; the parser runs to
    its end and returns 2, a non-negative result, with every
    conversion-type bit clear.  The check after the loop,
    [type & (type - 1)], is zero for [type == 0], and the check that a
    type is set stands only on the path that leaves the loop at a
    conversion letter.  The call [printf("%5")] then prints nothing and
    returns 0. *)
Theorem parse_without_conversion_letter :
  (exists f, yalc_pf_parse_format "%5" [] = Ok (2, f, [])
             /\ 0 <= 2 /\ type_bits (flags f) = 0 /\ ~ one_type_bit (flags f))
  /\ nz (Z.land 0 (u32 (0 - 1))) = false
  /\ printed (vprintf lp64 [] "%5" []) = Some (0, ""%string).
Proof.
  split.
  - eexists. split; [reflexivity|]. split; [lia|]. split; [reflexivity|].
    unfold one_type_bit. cbv. intuition discriminate.
  - split; reflexivity.
Qed.

(** C5.  A third [h] or [l] is accepted: [LFLAG_HALF] (or [LFLAG_LONG])
    is still set when it arrives, so the first branch of the case ORs
    the doubled flag in again and the [-EINVAL] branch is never reached. *)
Theorem third_length_letter_is_accepted :
  yalc_pf_parse_format "%hhhd" []
  = Ok (4, mk_fi (Z.lor (Z.lor LFLAG_HALF LFLAG_HALF_HALF) (Z.lor SFLAG_IS_SIGNED TFLAG_INT))
                 0 0 0 0 0 RADIX_DEC, [])
  /\ yalc_pf_parse_format "%llld" []
     = Ok (4, mk_fi (Z.lor (Z.lor LFLAG_LONG LFLAG_LONG_LONG) (Z.lor SFLAG_IS_SIGNED TFLAG_INT))
                    0 0 0 0 0 RADIX_DEC, []).
Proof. split; reflexivity. Qed.

(** Mixing [h] and [l] before an integer conversion is rejected by the
    check after the loop. *)
Lemma mixed_length_letters_rejected :
  (exists f, yalc_pf_parse_format "%hld" [] = Ok (- EINVAL, f, []))
  /\ (exists f, yalc_pf_parse_format "%lhd" [] = Ok (- EINVAL, f, []))
  /\ (exists f, yalc_pf_parse_format "%hhlu" [] = Ok (- EINVAL, f, []))
  /\ (exists f, yalc_pf_parse_format "%llhx" [] = Ok (- EINVAL, f, [])).
Proof. repeat split; eexists; reflexivity. Qed.

(** C6.  In [%w10d] the digit [0] of the bit width is taken by the
    [case '0'] of the flags, which does not look at [has_bitlen]: the
    recorded width is 1 and the zero-pad flag is set. *)
Theorem bit_width_zero_digit_is_a_flag :
  exists f, yalc_pf_parse_format "%w10d" [] = Ok (4, f, [])
            /\ int_bitlen f = 1
            /\ has (flags f) FFLAG_ZERO_PAD = true.
Proof. eexists. split; [reflexivity|]. split; reflexivity. Qed.

(** Widths written without the digit [0] are recorded. *)
Lemma bit_width_recorded :
  (exists f, yalc_pf_parse_format "%w8d" [] = Ok (3, f, []) /\ int_bitlen f = 8)
  /\ (exists f, yalc_pf_parse_format "%w16u" [] = Ok (4, f, []) /\ int_bitlen f = 16)
  /\ (exists f, yalc_pf_parse_format "%wf32x" [] = Ok (5, f, []) /\ int_bitlen f = 32)
  /\ (exists f, yalc_pf_parse_format "%w64d" [] = Ok (4, f, []) /\ int_bitlen f = 64).
Proof. repeat split; eexists; split; reflexivity. Qed.

(** ** The dispatch loop *)

Section LoopFacts.

Variable target : abi.

Lemma drop_str_length (n : nat) (s : string) :
  (String.length (drop_str n s) <= String.length s)%nat.
Proof.
  revert s. induction n as [|n IH]; intros s; [simpl; lia|].
  destruct s as [|c r]; simpl; [lia|]. specialize (IH r). lia.
Qed.

(** A turn that goes on has consumed text and has only emitted
    characters; a turn that returns leaves the sink as it found it. *)
Lemma loop_body_next (s s' : string) (out out' : output_info) (va va' : va_list) :
  loop_body target s out va = Ok (Next s' out' va') ->
  (String.length s' < String.length s)%nat /\ exists text, out' = emit text out.
Proof.
  unfold loop_body. destruct s as [|c rest]; [discriminate|].
  destruct (negb (Ascii.eqb c "%")).
  { intros [= <- <- <-]. split; [simpl; lia|]. exists [c]. reflexivity. }
  destruct rest as [|c' rest']; [discriminate|].
  destruct (Ascii.eqb c' "%").
  { intros [= <- <- <-]. split; [simpl; lia|]. exists ["%"%char]. reflexivity. }
  destruct (yalc_pf_parse_format _ va) as [[[ret f] v]| |]; cbn [bind]; try discriminate.
  destruct (ret <? 0) eqn:Hneg; [discriminate|]. apply Z.ltb_ge in Hneg.
  destruct (dispatch target f v) as [[fld f' v'|v'|r]| |]; cbn [bind]; try discriminate.
  - intros [= <- <- <-]. split.
    + replace (Z.to_nat (ret + 1)) with (S (Z.to_nat ret)) by lia.
      cbn [drop_str]. pose proof (drop_str_length (Z.to_nat ret) (String c' rest')).
      simpl in *. lia.
    + exists (field_text fld f'). apply field_out_emit.
  - intros [= <- <- <-]. split.
    + replace (Z.to_nat (ret + 1)) with (S (Z.to_nat ret)) by lia.
      cbn [drop_str]. pose proof (drop_str_length (Z.to_nat ret) (String c' rest')).
      simpl in *. lia.
    + exists []. reflexivity.
Qed.

Lemma loop_body_stop (s : string) (out out' : output_info) (va : va_list) (ret : Z) :
  loop_body target s out va = Ok (Stop ret out') -> out' = out.
Proof.
  unfold loop_body. destruct s as [|c rest]; [intros [= _ <-]; reflexivity|].
  destruct (negb (Ascii.eqb c "%")); [discriminate|].
  destruct rest as [|c' rest']; [intros [= _ <-]; reflexivity|].
  destruct (Ascii.eqb c' "%"); [discriminate|].
  destruct (yalc_pf_parse_format _ va) as [[[r f] v]| |]; cbn [bind]; try discriminate.
  destruct (r <? 0); [intros [= _ <-]; reflexivity|].
  destruct (dispatch target f v) as [[fld f' v'|v'|r']| |]; cbn [bind]; try discriminate.
  intros [= _ <-]. reflexivity.
Qed.

Lemma arrives_emits s out va s' out' va' :
  arrives target s out va s' out' va' ->
  (String.length s' <= String.length s)%nat /\ exists text, out' = emit text out.
Proof.
  induction 1 as [s out va|s out va s1 out1 va1 s2 out2 va2 Hb _ [IHl [t2 IHt]]].
  - split; [lia|]. exists []. reflexivity.
  - apply loop_body_next in Hb. destruct Hb as [Hl [t1 Ht]].
    split; [lia|]. exists (t1 ++ t2). rewrite emit_app, <- Ht. exact IHt.
Qed.

Lemma arrives_loop s out va s' out' va' :
  arrives target s out va s' out' va' ->
  forall fuel, (String.length s < fuel)%nat ->
    exists fuel', (String.length s' < fuel')%nat
                  /\ xprintf_loop target fuel s out va
                     = xprintf_loop target fuel' s' out' va'.
Proof.
  induction 1 as [s out va|s out va s1 out1 va1 s2 out2 va2 Hb _ IH]; intros fuel Hf.
  - exists fuel. split; [exact Hf | reflexivity].
  - destruct fuel as [|fuel]; [lia|].
    destruct (loop_body_next _ _ _ _ _ _ Hb) as [Hl _].
    destruct (IH fuel ltac:(lia)) as (fuel' & Hf' & Heq).
    exists fuel'. split; [exact Hf'|].
    cbn [xprintf_loop]. rewrite Hb. cbn [bind]. exact Heq.
Qed.

(** Literal text is copied to the sink one character a turn. *)
Lemma literal_text_arrives (lit : list ascii) (s : string) out va :
  Forall (fun c => c <> "%"%char) lit ->
  arrives target (string_of_list_ascii lit ++ s)%string out va s (emit lit out) va.
Proof.
  revert out. induction lit as [|c lit IH]; intros out Hl.
  - apply arrives_here.
  - inversion Hl as [|? ? Hc Hl']; subst.
    apply (arrives_turn target _ _ _ (string_of_list_ascii lit ++ s)%string
                        (yalc_pf_char_out c out) va).
    + simpl. destruct (Ascii.eqb_spec c "%"); [contradiction|]. reflexivity.
    + apply (IH (yalc_pf_char_out c out) Hl').
Qed.

(** C8.  When the loop of [yalc_xprintf] comes to a directive on which
    the parser returns a negative status, the call returns that status
    at once, and the sink it returns is the sink as it was on arrival:
    the destination it was started on with all the characters of the
    preceding text and directives emitted into it. *)
Theorem parser_failure_aborts_the_call
        (fmt s : string) (out0 out : output_info) (va0 va va' : va_list)
        (ret : Z) (f : format_info) :
  arrives target fmt out0 va0 s out va ->
  at_directive s ->
  yalc_pf_parse_format s va = Ok (ret, f, va') ->
  ret < 0 ->
  yalc_xprintf target out0 fmt va0 = Ok (ret, out)
  /\ exists text, out = emit text out0.
Proof.
  intros Ha (c & rest & -> & Hc) Hp Hr.
  destruct (arrives_emits _ _ _ _ _ _ Ha) as [_ Ht]. split; [|exact Ht].
  unfold yalc_xprintf.
  destruct (arrives_loop _ _ _ _ _ _ Ha (S (String.length fmt)) ltac:(lia))
    as (fuel' & Hf' & ->).
  destruct fuel' as [|fuel']; [lia|].
  cbn [xprintf_loop loop_body]. cbn [Ascii.eqb Bool.eqb negb].
  destruct (Ascii.eqb_spec c "%"); [contradiction|].
  rewrite Hp. cbn [bind].
  apply Z.ltb_lt in Hr. rewrite Hr. reflexivity.
Qed.

(** *** The count does not depend on the destination *)

Lemma loop_body_same (s : string) (o1 o2 : output_info) (va : va_list) :
  chars_out o1 = chars_out o2 ->
  same_turn (loop_body target s o1 va) (loop_body target s o2 va).
Proof.
  intros H. unfold loop_body.
  destruct s as [|c rest]; [simpl; rewrite H; auto|].
  destruct (negb (Ascii.eqb c "%")).
  { simpl. rewrite !char_out_count, H. auto. }
  destruct rest as [|c' rest']; [simpl; rewrite H; auto|].
  destruct (Ascii.eqb c' "%").
  { simpl. rewrite !char_out_count, H. auto. }
  destruct (yalc_pf_parse_format _ va) as [[[r f] v]| |]; cbn [bind]; simpl; auto.
  destruct (r <? 0); [simpl; auto|].
  destruct (dispatch target f v) as [[fld f' v'|v'|r']| |]; cbn [bind]; simpl; auto.
  split; [reflexivity|]. split; [reflexivity|].
  rewrite !field_out_emit. apply emit_count_indep. exact H.
Qed.

Lemma xprintf_loop_same (fuel : nat) :
  forall (s : string) (o1 o2 : output_info) (va : va_list),
    chars_out o1 = chars_out o2 ->
    same_result (xprintf_loop target fuel s o1 va) (xprintf_loop target fuel s o2 va).
Proof.
  induction fuel as [|fuel IH]; intros s o1 o2 va H; [exact I|].
  cbn [xprintf_loop].
  pose proof (loop_body_same s o1 o2 va H) as Hb.
  destruct (loop_body target s o1 va) as [[s1 o1' v1|r1 o1']| |];
    destruct (loop_body target s o2 va) as [[s2 o2' v2|r2 o2']| |];
    simpl in Hb; try contradiction; cbn [bind]; auto.
  destruct Hb as (-> & -> & Hc). apply IH. exact Hc.
Qed.

(** A bounded write returns what the unbounded writes return for the
    same format and arguments, whatever the capacity. *)
Lemma bounded_count_is_unbounded_count
      (mem mem' : gmap Z ascii) (N : Z) (con : list ascii) (fmt : string) (va : va_list) :
  same_result (vsnprintf target mem N fmt va) (vprintf target con fmt va)
  /\ same_result (vsnprintf target mem N fmt va) (vsprintf target mem' fmt va).
Proof. split; apply xprintf_loop_same; reflexivity. Qed.

End LoopFacts.

Lemma parser_failure_aborts_the_call_witness :
  let out0 := mk_out None 0 0 [] in
  let out := emit (chars "ab") out0 in
  arrives lp64 "ab%$d" out0 [] "%$d" out []
  /\ at_directive "%$d"
  /\ yalc_pf_parse_format "%$d" [] = Ok (- ENOTSUP, yalc_clear_fi, [])
  /\ - ENOTSUP < 0
  /\ yalc_xprintf lp64 out0 "ab%$d" [] = Ok (- ENOTSUP, out)
  /\ exists text, out = emit text out0.
Proof.
  intros out0 out.
  assert (Ha : arrives lp64 "ab%$d" out0 [] "%$d" out []).
  { eapply arrives_turn; [reflexivity|].
    eapply arrives_turn; [reflexivity|].
    apply arrives_here. }
  assert (Hd : at_directive "%$d").
  { exists "$"%char, "d"%string. split; [reflexivity | discriminate]. }
  split; [exact Ha|]. split; [exact Hd|]. split; [reflexivity|].
  split; [unfold ENOTSUP; lia|].
  apply (parser_failure_aborts_the_call lp64 "ab%$d" "%$d" out0 out [] [] []
           (- ENOTSUP) yalc_clear_fi Ha Hd); [reflexivity | unfold ENOTSUP; lia].
Defined.

(** ** Bounded writes *)

(** C2.  A bounded write whose output is shorter than the capacity
    stores no terminator: [vsnprintf(buf, 10, "hi")] on a buffer of ten
    ["x"] returns 2 and leaves ["hixxxxxxxx"], with no zero byte among
    the first ten.  [yalc_pf_char_out] stores the terminator only when
    the count reaches [outbuff_len - 1], and the loop of [yalc_xprintf]
    never passes the terminator of the format to it. *)
Theorem short_output_is_not_terminated :
  exists out mem',
    vsnprintf lp64 (filled 10 "x") 10 "hi" [] = Ok (2, out)
    /\ outbuff out = Some mem'
    /\ mem' !! 0 = Some "h"%char /\ mem' !! 1 = Some "i"%char
    /\ forall j, 0 <= j < 10 -> mem' !! j <> Some NUL.
Proof.
  eexists. eexists. split; [vm_compute; reflexivity|].
  split; [reflexivity|]. split; [reflexivity|]. split; [reflexivity|].
  intros j Hj.
  assert (Hc : j = 0 \/ j = 1 \/ j = 2 \/ j = 3 \/ j = 4 \/ j = 5 \/ j = 6
               \/ j = 7 \/ j = 8 \/ j = 9) by lia.
  repeat (destruct Hc as [-> | Hc]; [vm_compute; discriminate|]).
  subst j. vm_compute. discriminate.
Qed.

(** *** What a bounded write leaves in the destination *)

(** Text that ends below [outbuff_len - 1]: every byte from the end
    of the text on is left as it was; no terminator is stored. *)
Lemma emit_short (text : list ascii) :
  forall (out : output_info) (mem : gmap Z ascii),
    outbuff out = Some mem ->
    0 <= chars_out out ->
    chars_out out + len text < outbuff_len out <= 2 ^ 64 ->
    exists mem',
      outbuff (emit text out) = Some mem'
      /\ forall j, chars_out out + len text <= j -> mem' !! j = mem !! j.
Proof.
  induction text as [|c t IH]; intros out mem Hm H0 Hlt.
  - exists mem. split; [exact Hm | reflexivity].
  - change (emit (c :: t) out) with (emit t (yalc_pf_char_out c out)).
    unfold len in Hlt. simpl length in Hlt.
    assert (Hs : char_out_store c out = Some (chars_out out, c)).
    { unfold char_out_store. rewrite Hm.
      replace (0 <? outbuff_len out) with true by (symmetry; apply Z.ltb_lt; lia).
      replace (chars_out out <? outbuff_len out - 1) with true
        by (symmetry; apply Z.ltb_lt; lia).
      reflexivity. }
    destruct (IH (yalc_pf_char_out c out) (<[chars_out out := c]> mem)) as (mem' & Hm' & Hf).
    + unfold yalc_pf_char_out. rewrite Hm, Hs. reflexivity.
    + rewrite char_out_count. apply u64_range.
    + rewrite char_out_count, char_out_len, u64_small by lia. unfold len. lia.
    + exists mem'. split; [exact Hm'|]. intros j Hj.
      unfold len in Hj. simpl length in Hj.
      rewrite Hf by (rewrite char_out_count, u64_small by lia; unfold len; lia).
      apply lookup_insert_ne. lia.
Qed.

(** Past the capacity nothing is stored. *)
Lemma emit_past (text : list ascii) :
  forall (out : output_info),
    0 <= chars_out out ->
    outbuff_len out <= chars_out out ->
    chars_out out + len text < 2 ^ 64 ->
    outbuff (emit text out) = outbuff out.
Proof.
  induction text as [|c t IH]; intros out H0 Hge Hlt; [reflexivity|].
  change (emit (c :: t) out) with (emit t (yalc_pf_char_out c out)).
  unfold len in Hlt. simpl length in Hlt.
  assert (Hs : outbuff (yalc_pf_char_out c out) = outbuff out).
  { unfold yalc_pf_char_out, char_out_store. destruct (outbuff out); [|reflexivity].
    destruct (0 <? outbuff_len out); [|reflexivity].
    replace (chars_out out <? outbuff_len out - 1) with false
      by (symmetry; apply Z.ltb_ge; lia).
    replace (chars_out out =? outbuff_len out - 1) with false
      by (symmetry; apply Z.eqb_neq; lia).
    reflexivity. }
  rewrite IH, Hs; [reflexivity | | |].
  - rewrite char_out_count. apply u64_range.
  - rewrite char_out_count, char_out_len, u64_small by lia. lia.
  - rewrite char_out_count, u64_small by lia. unfold len. lia.
Qed.

(** Text that reaches the capacity: the last byte of the destination
    holds the terminator. *)
Lemma emit_long (text : list ascii) :
  forall (out : output_info) (mem : gmap Z ascii),
    outbuff out = Some mem ->
    0 <= chars_out out < outbuff_len out ->
    outbuff_len out <= chars_out out + len text < 2 ^ 64 ->
    exists mem',
      outbuff (emit text out) = Some mem' /\ mem' !! (outbuff_len out - 1) = Some NUL.
Proof.
  induction text as [|c t IH]; intros out mem Hm H0 Hlt.
  - unfold len in Hlt. simpl in Hlt. lia.
  - change (emit (c :: t) out) with (emit t (yalc_pf_char_out c out)).
    unfold len in Hlt. simpl length in Hlt.
    destruct (Z.eq_dec (chars_out out) (outbuff_len out - 1)) as [He|Hne].
    + assert (Hs : char_out_store c out = Some (outbuff_len out - 1, NUL)).
      { unfold char_out_store. rewrite Hm.
        replace (0 <? outbuff_len out) with true by (symmetry; apply Z.ltb_lt; lia).
        replace (chars_out out <? outbuff_len out - 1) with false
          by (symmetry; apply Z.ltb_ge; lia).
        replace (chars_out out =? outbuff_len out - 1) with true
          by (symmetry; apply Z.eqb_eq; lia).
        rewrite He. reflexivity. }
      exists (<[outbuff_len out - 1 := NUL]> mem). split; [|apply lookup_insert_eq].
      rewrite emit_past.
      * unfold yalc_pf_char_out. rewrite Hm, Hs. reflexivity.
      * rewrite char_out_count. apply u64_range.
      * rewrite char_out_count, char_out_len, u64_small by lia. lia.
      * rewrite char_out_count, u64_small by lia. unfold len. lia.
    + assert (Hs : char_out_store c out = Some (chars_out out, c)).
      { unfold char_out_store. rewrite Hm.
        replace (0 <? outbuff_len out) with true by (symmetry; apply Z.ltb_lt; lia).
        replace (chars_out out <? outbuff_len out - 1) with true
          by (symmetry; apply Z.ltb_lt; lia).
        reflexivity. }
      destruct (IH (yalc_pf_char_out c out) (<[chars_out out := c]> mem)) as (mem' & Hm' & Hf).
      * unfold yalc_pf_char_out. rewrite Hm, Hs. reflexivity.
      * rewrite char_out_count, char_out_len, u64_small by lia. lia.
      * rewrite char_out_count, char_out_len, u64_small by lia. unfold len. lia.
      * exists mem'. split; [exact Hm'|]. rewrite char_out_len in Hf. exact Hf.
Qed.

Lemma xprintf_loop_emits (target : abi) (fuel : nat) :
  forall (s : string) (out out' : output_info) (va : va_list) (r : Z),
    xprintf_loop target fuel s out va = Ok (r, out') ->
    exists text, out' = emit text out.
Proof.
  induction fuel as [|fuel IH]; intros s out out' va r; [discriminate|].
  cbn [xprintf_loop].
  destruct (loop_body target s out va) as [[s1 o1 v1|r1 o1]| |] eqn:Hb;
    cbn [bind]; try discriminate.
  - intros H. apply IH in H. destruct H as [t2 ->].
    apply loop_body_next in Hb. destruct Hb as [_ [t1 ->]].
    exists (t1 ++ t2). rewrite emit_app. reflexivity.
  - intros [= <- <-]. apply loop_body_stop in Hb. subst o1. exists []. reflexivity.
Qed.

(** The fuel of the loop is never used up: any amount above the
    length of the text gives the same run. *)
Lemma xprintf_loop_fuel (target : abi) (fuel1 : nat) :
  forall (fuel2 : nat) (s : string) (out : output_info) (va : va_list),
    (String.length s < fuel1)%nat -> (String.length s < fuel2)%nat ->
    xprintf_loop target fuel1 s out va = xprintf_loop target fuel2 s out va.
Proof.
  induction fuel1 as [|fuel1 IH]; intros fuel2 s out va H1 H2; [lia|].
  destruct fuel2 as [|fuel2]; [lia|].
  cbn [xprintf_loop].
  destruct (loop_body target s out va) as [[s1 o1 v1|r1 o1]| |] eqn:Hb;
    cbn [bind]; try reflexivity.
  apply loop_body_next in Hb. destruct Hb as [Hl _].
  apply IH; lia.
Qed.

(** A bounded write of capacity [N > 0] emits some text [text] through
    [yalc_pf_char_out].  If the text is shorter than [N], the bytes of the
    destination from index [len text] on are what they were before the
    call: the terminator is not stored.  If it has [N] characters or
    more, the byte at [N - 1] is the terminator. *)
Lemma bounded_write_terminator
      (target : abi) (mem : gmap Z ascii) (N : Z) (fmt : string) (va : va_list)
      (r : Z) (out' : output_info) :
  0 < N < 2 ^ 64 ->
  vsnprintf target mem N fmt va = Ok (r, out') ->
  exists text mem',
    out' = emit text (mk_out (Some mem) N 0 [])
    /\ outbuff out' = Some mem'
    /\ (len text < N -> forall j, len text <= j -> mem' !! j = mem !! j)
    /\ (N <= len text < 2 ^ 64 -> mem' !! (N - 1) = Some NUL).
Proof.
  intros HN H. unfold vsnprintf, yalc_xprintf in H. rewrite (u64_small N) in H by lia.
  apply xprintf_loop_emits in H. destruct H as [text ->].
  destruct (emit_frame text (mk_out (Some mem) N 0 []) mem eq_refl) as (mem' & Hm' & _).
  exists text, mem'. split; [reflexivity|]. split; [exact Hm'|]. split.
  - intros Hlt.
    destruct (emit_short text (mk_out (Some mem) N 0 []) mem eq_refl) as (m & Hm & Hf);
      cbn [chars_out outbuff_len]; try lia.
    rewrite Hm in Hm'. injection Hm' as <-. intros j Hj. apply Hf. cbn [chars_out]. lia.
  - intros Hge.
    destruct (emit_long text (mk_out (Some mem) N 0 []) mem eq_refl) as (m & Hm & Hf);
      cbn [chars_out outbuff_len]; try lia.
    rewrite Hm in Hm'. injection Hm' as <-. exact Hf.
Qed.

(** When the output does not fit, the last byte of the destination is
    the terminator. *)
Lemma truncated_output_is_terminated :
  exists out mem',
    vsnprintf lp64 (filled 3 "x") 3 "hello" [] = Ok (5, out)
    /\ outbuff out = Some mem'
    /\ mem' !! 0 = Some "h"%char /\ mem' !! 1 = Some "e"%char /\ mem' !! 2 = Some NUL.
Proof.
  eexists. eexists. split; [vm_compute; reflexivity|]. repeat split; reflexivity.
Qed.

(** ** The float renderer on zero *)

(** C4 (as amended).  For the value 0.0 with no width or precision,
    the float renderer prints [0.000000] for [%f], [0.000000e+00] for
    [%e], [0] for [%g], and for [%a] the zero padded to the 13 hex digits
    of the default precision, [0x0.0000000000000p+0]. *)
Theorem zero_renders_in_each_form (target : abi) :
  printed (vprintf target [] "%f" [VDouble 0]) = Some (8, "0.000000"%string)
  /\ printed (vprintf target [] "%e" [VDouble 0]) = Some (12, "0.000000e+00"%string)
  /\ printed (vprintf target [] "%g" [VDouble 0]) = Some (1, "0"%string)
  /\ printed (vprintf target [] "%a" [VDouble 0]) = Some (20, "0x0.0000000000000p+0"%string).
Proof. repeat split; vm_compute; reflexivity. Qed.

(** The a-form of 0.0 is not the bare [0x0p+0]: the zero branch of
    [yalc_putd] sets [num_pad] to the precision, which defaults to 13. *)
Lemma aform_zero_is_padded :
  printed (vprintf lp64 [] "%a" [VDouble 0]) <> Some (6, "0x0p+0"%string)
  /\ (exists fld f,
        putd_render 0 (mk_fi (Z.lor SFLAG_IS_AFORM TFLAG_DOUBLE) 0 0 0 0 0 RADIX_HEX)
        = Ok (fld, f)
        /\ prefix fld = chars "0x0." /\ num_pad f = 13 /\ suffix fld = chars "p+0").
Proof.
  split; [vm_compute; discriminate|].
  eexists. eexists. split; [vm_compute; reflexivity|]. repeat split; reflexivity.
Qed.

(** ** The decimal conversion core *)

(** C1.  For the double [2^54] (bits [0x4350000000000000]: biased
    exponent 1077, significand 0) [yalc_double_to_decimal] has no defined
    result.  With [exponent2 = 0], [Log10ofPow2(exponent2) - 1] is
    computed in [uint32_t] and wraps to [0xFFFFFFFF]; [max(0, ...)] keeps
    it, so [q] is [0xFFFFFFFF] and not 0, and [Pow2kInvPow5] then shifts a
    128-bit value by [delta = 4294959107] and reads
    [POW5_INV_OFFSETS[268435455]] in a table of 19 entries. *)
Theorem double_to_decimal_undefined_at_2_pow_54 :
  Ryu.max 0 (u32 (Ryu.Log10ofPow2 0 - 1)) = 0xFFFFFFFF
  /\ u32 (Ryu.CeilLog2ofPow5 (s32 0) - Ryu.CeilLog2ofPow5 (s32 0xFFFFFFFF)) = 4294959107
  /\ Ryu.index Ryu.POW5_INV_OFFSETS (0xFFFFFFFF / 16) = Undef
  /\ Ryu.Pow2kInvPow5 0xFFFFFFFF = Undef
  /\ Ryu.yalc_double_to_decimal 1077 0 = Undef
  /\ Ryu.d2d 0x4350000000000000 = Undef
  /\ vprintf lp64 [] "%e" [VDouble 0x4350000000000000] = Undef.
Proof. repeat split; vm_compute; reflexivity. Qed.

(** The same holds on the whole range [[2^54, 2^58)]: the four biased
    exponents for which [exponent2] is between 0 and 3. *)
Lemma double_to_decimal_undefined_range (exponent_biased significand : Z) :
  1077 <= exponent_biased <= 1080 ->
  Ryu.yalc_double_to_decimal exponent_biased significand = Undef.
Proof.
  intros H.
  assert (Hc : exponent_biased = 1077 \/ exponent_biased = 1078
               \/ exponent_biased = 1079 \/ exponent_biased = 1080) by lia.
  destruct Hc as [-> | [-> | [-> | ->]]]; vm_compute; reflexivity.
Qed.

(** *** Reading a decimal back *)

(** The documented boundary case [0x4830F0CF064DD592]: the digits
    [5764607523034235] with exponent 24 read back as the same bits, and
    the digits without the last one, cut or rounded, do not. *)
Lemma ryu_boundary_case :
  Ryu.d2d 0x4830F0CF064DD592 = Ok (24, 5764607523034235)
  /\ reads_back_as 5764607523034235 24 (Ryu.exponent_of 0x4830F0CF064DD592)
                   (Ryu.significand_of 0x4830F0CF064DD592) = true
  /\ reads_back_as 576460752303423 25 (Ryu.exponent_of 0x4830F0CF064DD592)
                   (Ryu.significand_of 0x4830F0CF064DD592) = false
  /\ reads_back_as 576460752303424 25 (Ryu.exponent_of 0x4830F0CF064DD592)
                   (Ryu.significand_of 0x4830F0CF064DD592) = false.
Proof. repeat split; vm_compute; reflexivity. Qed.

(** No decimal with fewer than the 16 digits of [5764607523034235]
    reads back as the boundary case. *)
Lemma ryu_boundary_case_shortest (d k : Z) :
  0 < d < 10 ^ 15 ->
  reads_back_as d k (Ryu.exponent_of 0x4830F0CF064DD592)
                (Ryu.significand_of 0x4830F0CF064DD592) = false.
Proof.
  intros Hd.
  change (Ryu.exponent_of 0x4830F0CF064DD592) with 1155.
  change (Ryu.significand_of 0x4830F0CF064DD592) with 0xF0CF064DD592.
  unfold reads_back_as.
  change (1155 =? 0) with false. cbv iota.
  change (Z.even (0xF0CF064DD592 + 2 ^ 52)) with true. cbv iota.
  change ((0xF0CF064DD592 =? 0) && (1 <? 1155)) with false. cbv iota.
  change (1155 - 1075 - 2) with 78.
  change (Z.max (- 78) 0) with 0. change (Z.max 78 0) with 78.
  change (2 ^ 0) with 1. rewrite Z.mul_1_r.
  remember ((4 * (0xF0CF064DD592 + 2 ^ 52) - 2) * 2 ^ 78) as L eqn:HL.
  remember ((4 * (0xF0CF064DD592 + 2 ^ 52) + 2) * 2 ^ 78) as H eqn:HH.
  vm_compute in HL, HH. subst L H.
  change (10 ^ 15) with 1000000000000000 in Hd.
  apply andb_false_iff.
  destruct (Z_lt_le_dec k 25) as [Hk|Hk].
  - left. apply Z.leb_gt.
    destruct (Z_lt_le_dec k 0) as [Hn|Hn].
    + rewrite Z.max_r by lia. change (10 ^ 0) with 1. rewrite Z.mul_1_r.
      rewrite Z.max_l by lia.
      assert (1 <= 10 ^ (- k))
        by (apply Z.pow_le_mono_r with (a := 10) (b := 0) (c := - k); lia).
      nia.
    + rewrite Z.max_l by lia. rewrite (Z.max_r (- k) 0) by lia.
      change (10 ^ 0) with 1. rewrite Z.mul_1_r.
      assert (H0 : 0 < 10 ^ k <= 10 ^ 24).
      { split; [apply Z.pow_pos_nonneg; lia | apply Z.pow_le_mono_r; lia]. }
      change (10 ^ 24) with 1000000000000000000000000 in H0.
      assert (Hle : d * 10 ^ k <= 999999999999999 * 1000000000000000000000000)
        by (apply Z.mul_le_mono_nonneg; lia).
      change (999999999999999 * 1000000000000000000000000)
        with 999999999999999000000000000000000000000 in Hle.
      revert Hle. generalize (d * 10 ^ k). intros t Ht. lia.
  - rewrite (Z.max_l k 0) by lia. rewrite (Z.max_r (- k) 0) by lia.
    change (10 ^ 0) with 1. rewrite !Z.mul_1_r.
    replace k with (25 + (k - 25)) by lia.
    rewrite Z.pow_add_r by lia.
    assert (0 < 10 ^ (k - 25)) by (apply Z.pow_pos_nonneg; lia).
    set (m := d * 10 ^ (k - 25)).
    assert (Hm : d * (10 ^ 25 * 10 ^ (k - 25)) = m * 10 ^ 25) by (unfold m; ring).
    rewrite Hm. change (10 ^ 25) with 10000000000000000000000000.
    destruct (Z_le_gt_dec m 576460752303423).
    + left. apply Z.leb_gt. lia.
    + right. apply Z.leb_gt. lia.
Qed.

(** The doubles of the test suite, and the two ends of the range on
    which the conversion is undefined, read back. *)
Lemma test_suite_doubles_round_trip :
  forallb round_trips
    [ 0x405EDD3C07EE0B0B; 0x3FF0000000000000; 0x4000000000000000; 0x3FF0000000000001;
      0x7FEFFFFFFFFFFFFF; 0x0010000000000000; 0x000FFFFFFFFFFFFF; 0x0000000000000001;
      0x3FD5555555555555; 0x400921FB54442D18; 0x4830F0CF064DD592; 0x4840F0CF064DD592;
      0x4850F0CF064DD592; 0x4340000000000000; 0x4390000000000000 ] = true.
Proof. vm_compute. reflexivity. Qed.

(** ** Integer precision *)

Section FlagBits.

Lemma has_set_other (f c d : Z) : Z.land c d = 0 -> has (set_flag f c) d = has f d.
Proof.
  intros H. unfold has, set_flag. rewrite Z.land_lor_distr_l, H, Z.lor_0_r. reflexivity.
Qed.

Lemma has_reverse_num (f : Z) :
  has (set_flag f TRFLAG_REVERSE_NUM) TRFLAG_REVERSE_NUM = true.
Proof.
  unfold has, set_flag, nz.
  destruct (Z.eqb_spec (Z.land (Z.lor f TRFLAG_REVERSE_NUM) TRFLAG_REVERSE_NUM) 0) as [E|E];
    [|reflexivity].
  assert (Hb : Z.testbit (Z.land (Z.lor f TRFLAG_REVERSE_NUM) TRFLAG_REVERSE_NUM) 27 = false)
    by (rewrite E; apply Z.testbit_0_l).
  rewrite Z.land_spec, Z.lor_spec in Hb.
  change (Z.testbit TRFLAG_REVERSE_NUM 27) with true in Hb.
  rewrite orb_true_r in Hb. discriminate.
Qed.

Lemma pad_flags_set (f c : Z) :
  Z.land (Z.shiftr c 1) 3 = 0 ->
  Z.land (Z.shiftr (set_flag f c) 1) 3 = Z.land (Z.shiftr f 1) 3.
Proof.
  intros H. unfold set_flag.
  rewrite Z.shiftr_lor, Z.land_lor_distr_l, H, Z.lor_0_r. reflexivity.
Qed.

(** Without the zero-pad flag the formatter is in its first or its
    last layout. *)
Lemma pad_flags_without_zero_pad (f : Z) :
  has f FFLAG_ZERO_PAD = false -> (Z.land (Z.shiftr f 1) 3 =? 1) = false.
Proof.
  unfold has, nz. intros H. apply negb_false_iff, Z.eqb_eq in H.
  apply Z.eqb_neq. intros E.
  assert (Hb : Z.testbit (Z.land (Z.shiftr f 1) 3) 0 = true) by (rewrite E; reflexivity).
  rewrite Z.land_spec, Z.shiftr_spec in Hb by lia.
  assert (Hc : Z.testbit (Z.land f FFLAG_ZERO_PAD) 1 = false)
    by (rewrite H; apply Z.testbit_0_l).
  rewrite Z.land_spec in Hc.
  change (Z.testbit FFLAG_ZERO_PAD 1) with true in Hc.
  change (0 + 1) with 1 in Hb. change (Z.testbit 3 0) with true in Hb.
  rewrite andb_true_r in Hb, Hc. congruence.
Qed.

End FlagBits.

Lemma itora_loop_length (fuel : nat) (base : Z) (hex_base : ascii) (val : Z) :
  (0 < fuel)%nat ->
  (1 <= length (itora_loop fuel base hex_base val) <= fuel)%nat.
Proof.
  revert val. induction fuel as [|fuel IH]; intros val Hf; [lia|].
  cbn [itora_loop]. destruct (val / base =? 0); [simpl; lia|].
  destruct fuel as [|fuel']; [simpl; lia|].
  specialize (IH (val / base) ltac:(lia)). simpl length in *. lia.
Qed.

Lemma natural_digits_length (val : Z) (fi : format_info) :
  radix_ok (radix fi) -> 1 <= len (natural_digits val fi) <= 64.
Proof.
  intros Hr. unfold natural_digits, yalc_itora. cbn [fst].
  assert (Hb : (radix fi =? RADIX_DEC) || (radix fi =? RADIX_HEX)
               || (radix fi =? RADIX_OCT) || (radix fi =? RADIX_BIN) = true).
  { destruct Hr as [-> | [-> | [-> | ->]]]; reflexivity. }
  rewrite Hb. unfold len.
  pose proof (itora_loop_length 64 (radix fi)
                (if has (flags fi) SFLAG_UPPERCASE then "A"%char else "a"%char)
                (fst (putll_prefix val fi)) ltac:(lia)).
  lia.
Qed.

Lemma spaces_pad_text (n : Z) : spaces (pad_text n " ").
Proof.
  unfold spaces, pad_text. induction (Z.to_nat (u64 n)) as [|k IH]; simpl; constructor; auto.
Qed.

Lemma spaces_nil : spaces [].
Proof. constructor. Qed.

(** The layout of an integer field without the zero-pad flag. *)
Lemma int_field_text (digits pfx : list ascii) (fi' : format_info) :
  has (flags fi') FFLAG_ZERO_PAD = false ->
  has (flags fi') TRFLAG_REVERSE_NUM = true ->
  0 <= - num_pad fi' < 2 ^ 31 ->
  suffix_pad fi' = 0 ->
  exists lpad rpad,
    spaces lpad /\ spaces rpad
    /\ field_text (mk_fld digits pfx [] NUL) fi'
       = lpad ++ dir_text pfx (has (flags fi') TRFLAG_REVERSE_PREFIX)
              ++ repeat "0"%char (Z.to_nat (- num_pad fi')) ++ rev digits ++ rpad.
Proof.
  intros Hz Hr Hn Hs. unfold field_text. cbn [prefix inbuff suffix sign_char].
  rewrite (pad_flags_without_zero_pad _ Hz), Hr, Hs.
  assert (Hpre : pad_text (prebuf_pad_of fi') "0" = repeat "0"%char (Z.to_nat (- num_pad fi'))).
  { unfold pad_text, prebuf_pad_of. destruct (num_pad fi' <? 0) eqn:E.
    - rewrite s32_small by lia. rewrite u64_small by lia. reflexivity.
    - apply Z.ltb_ge in E. replace (num_pad fi') with 0 by lia. reflexivity. }
  assert (Hpost : pad_text (postbuf_pad_of fi') "0" = []).
  { unfold pad_text, postbuf_pad_of. destruct (0 <? num_pad fi') eqn:E; [|reflexivity].
    apply Z.ltb_lt in E. lia. }
  rewrite Hpre, Hpost.
  change (pad_text 0 "0") with (@nil ascii).
  change (dir_text [] (has (flags fi') TRFLAG_REVERSE_SUFFIX)) with
    (if has (flags fi') TRFLAG_REVERSE_SUFFIX then @nil ascii else []).
  replace (if has (flags fi') TRFLAG_REVERSE_SUFFIX then @nil ascii else []) with (@nil ascii)
    by (destruct (has (flags fi') TRFLAG_REVERSE_SUFFIX); reflexivity).
  cbn [dir_text app]. rewrite !app_nil_r.
  destruct (Z.land (Z.shiftr (flags fi') 1) 3 =? 0).
  - exists (pad_text (width_pad_of (mk_fld digits pfx [] NUL) fi') " "), [].
    split; [apply spaces_pad_text|]. split; [apply spaces_nil|].
    rewrite app_nil_r. reflexivity.
  - exists [], (pad_text (width_pad_of (mk_fld digits pfx [] NUL) fi') " ").
    split; [apply spaces_nil|]. split; [apply spaces_pad_text|].
    cbn [app]. rewrite <- ?app_assoc. reflexivity.
Qed.

Lemma itora_flags (val : Z) (fi : format_info) :
  snd (yalc_itora val fi) = with_flags fi (set_flag (flags fi) TRFLAG_REVERSE_NUM).
Proof. reflexivity. Qed.

(** A precision above the natural digit count: the digits are kept
    and [num_pad] asks for the missing zeros in front of them. *)
Lemma putll_render_pads (val : Z) (fi : format_info) :
  int_with_precision fi ->
  len (natural_digits val fi) < precision fi ->
  putll_render val fi
  = (mk_fld (natural_digits val fi) (snd (putll_prefix val fi)) [] NUL,
     with_num_pad (with_flags fi (set_flag (flags fi) TRFLAG_REVERSE_NUM))
                  (- (precision fi - len (natural_digits val fi)))).
Proof.
  intros [Hp Hz Hr [Hp0 Hp1] Hn Hs] Hlt.
  pose proof (natural_digits_length val fi Hr) as Hlen.
  unfold natural_digits in *. unfold putll_render.
  destruct (putll_prefix val fi) as [mag pfx]. cbn [fst snd] in *.
  destruct (yalc_itora mag fi) as [digits fi1] eqn:Hi.
  assert (Hfi1 : fi1 = with_flags fi (set_flag (flags fi) TRFLAG_REVERSE_NUM)).
  { pose proof (itora_flags mag fi) as H. rewrite Hi in H. exact H. }
  cbn [fst] in *. unfold INT_MAX in Hp1.
  assert (Ho : putll_octal digits mag fi1 = fi1).
  { unfold putll_octal. subst fi1. cbn [radix precision flags with_flags].
    rewrite (u64_small (precision fi)) by lia.
    replace (precision fi <=? len digits) with false by (symmetry; apply Z.leb_gt; lia).
    replace (precision fi =? 0) with false by (symmetry; apply Z.eqb_neq; lia).
    rewrite andb_false_r. cbn [andb].
    destruct ((radix fi =? RADIX_OCT) && _); reflexivity. }
  rewrite Ho. unfold putll_precision. subst fi1. cbn [radix precision flags with_flags].
  rewrite has_set_other by reflexivity. rewrite Hp.
  rewrite (u64_small (precision fi)) by lia.
  replace (len digits <? precision fi) with true by (symmetry; apply Z.ltb_lt; lia).
  rewrite s32_small by lia. reflexivity.
Qed.

(** Precision zero and value zero, outside the alternate-form octal. *)
Lemma putll_render_empty (fi : format_info) :
  int_with_precision fi ->
  precision fi = 0 ->
  (radix fi =? RADIX_OCT) && has (flags fi) FFLAG_ALT = false ->
  putll_render 0 fi
  = (mk_fld [] (snd (putll_prefix 0 fi)) [] NUL,
     with_flags fi (set_flag (flags fi) TRFLAG_REVERSE_NUM)).
Proof.
  intros [Hp Hz Hr _ Hn Hs] Hp0 Hoct.
  assert (Hmag : fst (putll_prefix 0 fi) = 0).
  { unfold putll_prefix.
    repeat match goal with
           | |- context [if ?b then _ else _] => destruct b
           end; reflexivity. }
  unfold putll_render. destruct (putll_prefix 0 fi) as [mag pfx]. cbn [fst snd] in *. subst mag.
  destruct (yalc_itora 0 fi) as [digits fi1] eqn:Hi.
  assert (Hfi1 : fi1 = with_flags fi (set_flag (flags fi) TRFLAG_REVERSE_NUM)).
  { pose proof (itora_flags 0 fi) as H. rewrite Hi in H. exact H. }
  subst fi1.
  unfold putll_octal. cbn [radix precision flags with_flags].
  rewrite has_set_other by reflexivity. rewrite Hoct.
  unfold putll_precision. cbn [radix precision flags with_flags].
  rewrite has_set_other by reflexivity. rewrite Hp, Hp0.
  replace (len digits <? u64 0) with false
    by (symmetry; apply Z.ltb_ge; unfold len; change (u64 0) with 0; lia).
  reflexivity.
Qed.

(** Precision zero and value zero under the alternate-form octal: the
    precision is raised to 1 and the digit [0] stays. *)
Lemma putll_render_octal_zero (fi : format_info) :
  int_with_precision fi ->
  precision fi = 0 ->
  radix fi = RADIX_OCT -> has (flags fi) FFLAG_ALT = true ->
  putll_render 0 fi
  = (mk_fld ["0"%char] [] [] NUL,
     with_precision (with_flags fi (set_flag (flags fi) TRFLAG_REVERSE_NUM)) 1).
Proof.
  intros [Hp Hz Hr _ Hn Hs] Hp0 Hoct Halt.
  set (fi1 := with_flags fi (set_flag (flags fi) TRFLAG_REVERSE_NUM)).
  assert (H1 : putll_prefix 0 fi = (0, [])).
  { unfold putll_prefix. rewrite Hoct. reflexivity. }
  assert (H2 : yalc_itora 0 fi = (["0"%char], fi1)).
  { unfold yalc_itora. rewrite Hoct. reflexivity. }
  assert (H3 : putll_octal ["0"%char] 0 fi1 = with_precision fi1 1).
  { unfold putll_octal. subst fi1. cbn [radix precision flags with_flags].
    rewrite Hoct, Hp0, has_set_other by reflexivity. rewrite Halt. reflexivity. }
  assert (H4 : putll_precision ["0"%char] 0 (with_precision fi1 1)
               = (["0"%char], with_precision fi1 1)).
  { unfold putll_precision. subst fi1. cbn [radix precision flags with_flags with_precision].
    rewrite has_set_other by reflexivity. rewrite Hp. reflexivity. }
  unfold putll_render. rewrite H1, H2, H3, H4. reflexivity.
Qed.

Lemma dir_text_nil (r : bool) : dir_text [] r = [].
Proof. destruct r; reflexivity. Qed.

(** C7 (as amended).  For an integer conversion with an explicit
    precision [P]: if [P] exceeds the natural digit count, the digit
    string printed is the natural one with zeros in front, [P] digits
    in all (so [%.*i] with precision 324 and value 0 prints 324 zeros);
    if [P] and the value are both zero, no digit is printed, unless the
    conversion is the alternate-form octal, which prints the single
    digit [0].  Around the digit string stand only the sign or base
    prefix and the space padding of the field width. *)
Theorem int_precision_sets_minimum_digits (val : Z) (fi : format_info) :
  int_with_precision fi ->
  let P := precision fi in
  let digits := natural_digits val fi in
  let pfx := dir_text (snd (putll_prefix val fi)) (has (flags fi) TRFLAG_REVERSE_PREFIX) in
  (len digits < P ->
   exists lpad rpad,
     spaces lpad /\ spaces rpad
     /\ length (repeat "0"%char (Z.to_nat (P - len digits)) ++ rev digits) = Z.to_nat P
     /\ forall out,
          yalc_putll val fi out
          = emit (lpad ++ pfx
                    ++ (repeat "0"%char (Z.to_nat (P - len digits)) ++ rev digits)
                    ++ rpad) out)
  /\ (P = 0 -> val = 0 ->
      exists lpad rpad,
        spaces lpad /\ spaces rpad
        /\ forall out,
             yalc_putll val fi out
             = emit (lpad ++ pfx
                       ++ (if (radix fi =? RADIX_OCT) && has (flags fi) FFLAG_ALT
                           then ["0"%char] else [])
                       ++ rpad) out)
  /\ printed (vprintf lp64 [] "%.*i" [VInt 324; VInt 0])
     = Some (324, string_of_list_ascii (repeat "0"%char 324)).
Proof.
  intros Hw P digits pfx.
  pose proof Hw as [Hp Hz Hr [Hp0 Hp1] Hn Hs].
  pose proof (natural_digits_length val fi Hr) as Hlen. fold digits in Hlen.
  unfold INT_MAX in Hp1. fold P in Hp0, Hp1.
  split; [|split].
  - intros Hlt.
    pose proof (putll_render_pads val fi Hw Hlt) as Hrender. fold digits P in Hrender.
    destruct (int_field_text digits (snd (putll_prefix val fi))
                (with_num_pad (with_flags fi (set_flag (flags fi) TRFLAG_REVERSE_NUM))
                              (- (P - len digits))))
      as (lpad & rpad & Hl & Hrp & Htext).
    + cbn [flags with_num_pad with_flags]. rewrite has_set_other by reflexivity. exact Hz.
    + cbn [flags with_num_pad with_flags]. apply has_reverse_num.
    + cbn [num_pad with_num_pad]. lia.
    + cbn [suffix_pad with_num_pad with_flags]. exact Hs.
    + exists lpad, rpad. split; [exact Hl|]. split; [exact Hrp|]. split.
      * rewrite length_app, repeat_length, length_rev. unfold len in *. lia.
      * intros out. unfold yalc_putll. rewrite Hrender, field_out_emit, Htext.
        cbn [flags num_pad with_num_pad with_flags].
        rewrite has_set_other by reflexivity.
        replace (- - (P - len digits)) with (P - len digits) by lia.
        rewrite <- !app_assoc. reflexivity.
  - intros HP0 Hv0. subst val.
    destruct ((radix fi =? RADIX_OCT) && has (flags fi) FFLAG_ALT) eqn:Hoct.
    + apply andb_true_iff in Hoct. destruct Hoct as [Hoct Halt]. apply Z.eqb_eq in Hoct.
      pose proof (putll_render_octal_zero fi Hw HP0 Hoct Halt) as Hrender.
      assert (Hpfx : pfx = []).
      { unfold pfx, putll_prefix. rewrite Hoct. apply dir_text_nil. }
      destruct (int_field_text ["0"%char] []
                  (with_precision (with_flags fi (set_flag (flags fi) TRFLAG_REVERSE_NUM)) 1))
        as (lpad & rpad & Hl & Hrp & Htext).
      * cbn [flags with_precision with_flags]. rewrite has_set_other by reflexivity. exact Hz.
      * cbn [flags with_precision with_flags]. apply has_reverse_num.
      * cbn [num_pad with_precision with_flags]. rewrite Hn. lia.
      * cbn [suffix_pad with_precision with_flags]. exact Hs.
      * exists lpad, rpad. split; [exact Hl|]. split; [exact Hrp|].
        intros out. unfold yalc_putll. rewrite Hrender, field_out_emit, Htext, Hpfx.
        cbn [num_pad with_precision with_flags]. rewrite Hn, dir_text_nil. reflexivity.
    + pose proof (putll_render_empty fi Hw HP0 Hoct) as Hrender.
      destruct (int_field_text [] (snd (putll_prefix 0 fi))
                  (with_flags fi (set_flag (flags fi) TRFLAG_REVERSE_NUM)))
        as (lpad & rpad & Hl & Hrp & Htext).
      * cbn [flags with_flags]. rewrite has_set_other by reflexivity. exact Hz.
      * cbn [flags with_flags]. apply has_reverse_num.
      * cbn [num_pad with_flags]. rewrite Hn. lia.
      * cbn [suffix_pad with_flags]. exact Hs.
      * exists lpad, rpad. split; [exact Hl|]. split; [exact Hrp|].
        intros out. unfold yalc_putll. rewrite Hrender, field_out_emit, Htext.
        cbn [flags num_pad with_flags]. rewrite Hn.
        rewrite has_set_other by reflexivity. reflexivity.
  - vm_compute. reflexivity.
Qed.

Lemma int_precision_sets_minimum_digits_witness :
  let fi := mk_fi (Z.lor SFLAG_HAS_PREC (Z.lor SFLAG_IS_SIGNED TFLAG_INT)) 0 5 0 0 0 RADIX_DEC in
  int_with_precision fi
  /\ exists lpad rpad,
       spaces lpad /\ spaces rpad
       /\ length (repeat "0"%char (Z.to_nat (5 - 2)) ++ rev (chars "24")) = Z.to_nat 5
       /\ forall out,
            yalc_putll 42 fi out
            = emit (lpad ++ [] ++ (repeat "0"%char (Z.to_nat (5 - 2)) ++ rev (chars "24"))
                      ++ rpad) out.
Proof.
  intros fi.
  assert (Hw : int_with_precision fi).
  { constructor; try reflexivity.
    - right. right. left. reflexivity.
    - cbn. unfold INT_MAX. lia. }
  split; [exact Hw|].
  apply (proj1 (int_precision_sets_minimum_digits 42 fi Hw)).
  vm_compute. reflexivity.
Defined.

(** *** The descriptor the parser hands over *)

Lemma s32_range (x : Z) : - 2 ^ 31 <= s32 x <= INT_MAX.
Proof.
  unfold s32, sN, INT_MAX. change (2 ^ (32 - 1)) with (2 ^ 31).
  pose proof (Z.mod_pos_bound (x + 2 ^ 31) (2 ^ 32) ltac:(lia)). lia.
Qed.

Ltac solve_fi_inv H :=
  cbn [action_fi_inv flags with_flags with_width with_precision with_int_bitlen with_radix
       Parser.fi fl];
  first
    [ exact I
    | exact H
    | destruct H as (H1 & H2 & H3 & H4); unfold fi_inv;
      cbn [num_pad suffix_pad radix precision with_flags with_width with_precision
           with_int_bitlen with_radix];
      repeat split; auto using s32_range; try (apply s32_range); try lia;
      unfold radix_ok; auto ].

Lemma parse_char_fi_inv (c next : ascii) (st : pstate) (va : va_list) :
  fi_inv (fi st) -> action_fi_inv (parse_char c next st va).
Proof.
  intros H.
  destruct st as [f wa pa hb]. cbn [fi] in H.
  destruct c as [[] [] [] [] [] [] [] []].
  all: reduce_parse_char.
  all: split_ifs.
  all: solve_fi_inv H.
Qed.

Lemma parse_loop_fi_inv (n : nat) :
  forall (s : string) (i : Z) (st : pstate) (va : va_list),
    (String.length s <= n)%nat ->
    fi_inv (fi st) -> exit_fi_inv (parse_loop s i st va).
Proof.
  induction n as [|n IH]; intros s i st va Hn H.
  - destruct s; [exact H | simpl in Hn; lia].
  - destruct s as [|c rest]; [exact H|].
    simpl in Hn. cbn [parse_loop].
    pose proof (parse_char_fi_inv c (peek rest) st va H) as Hc.
    destruct (parse_char c (peek rest) st va) as [[st' va'|st' va'|st' va'|ret st' va']| |];
      cbn [bind]; simpl in Hc; try exact I; try exact Hc.
    + apply IH; [lia | exact Hc].
    + destruct rest as [|c' rest']; [exact Hc|].
      simpl in Hn. apply IH; [lia | exact Hc].
Qed.

Lemma has_clear_other (f c d : Z) :
  Z.land (Z.lxor c 0xFFFFFFFF) d = d -> has (clear_flag f c) d = has f d.
Proof.
  intros H. unfold has, clear_flag. rewrite <- Z.land_assoc, H. reflexivity.
Qed.

Lemma has_clear_same (f c : Z) :
  Z.land (Z.lxor c 0xFFFFFFFF) c = 0 -> has (clear_flag f c) c = false.
Proof.
  intros H. unfold has, clear_flag. rewrite <- Z.land_assoc, H, Z.land_0_r. reflexivity.
Qed.

(** After the final checks, an integer descriptor with a precision has
    lost the zero-pad flag. *)
Lemma finish_clears_zero_pad (i : Z) (f0 : format_info) :
  has (flags (snd (finish i f0))) TFLAG_INT = true ->
  has (flags (snd (finish i f0))) SFLAG_HAS_PREC = true ->
  0 <= fst (finish i f0) ->
  has (flags (snd (finish i f0))) FFLAG_ZERO_PAD = false.
Proof.
  unfold finish.
  destruct (nz _); [cbn [fst]; unfold EINVAL; lia|].
  destruct (has (flags f0) LFLAG_HALF && has (flags f0) LFLAG_LONG);
    [cbn [fst]; unfold EINVAL; lia|].
  cbn [fst snd].
  destruct (has (flags f0) TFLAG_INT) eqn:Hi;
    destruct (has (flags f0) FFLAG_ZERO_PAD) eqn:Hzp;
    destruct (has (flags f0) SFLAG_HAS_PREC) eqn:Hpr;
    cbn [andb flags with_flags];
    rewrite ?has_clear_same by reflexivity; cbn [andb flags with_flags];
    rewrite ?Hzp; cbn [andb flags with_flags];
    try (destruct (has (flags f0) FFLAG_LEFT_ADJ); cbn [andb flags with_flags]);
    rewrite ?has_clear_same, ?has_clear_other by reflexivity;
    intros; congruence.
Qed.

Lemma finish_fi_inv (i : Z) (f0 : format_info) : fi_inv f0 -> fi_inv (snd (finish i f0)).
Proof.
  intros H. unfold finish.
  repeat match goal with
         | |- context [if ?b then _ else _] => destruct b
         end; exact H.
Qed.

(** Every integer descriptor with an explicit, non-negative precision
    that the parser returns is one the precision property speaks of. *)
Lemma parser_gives_int_with_precision
      (fmt : string) (va va' : va_list) (r : Z) (f : format_info) :
  yalc_pf_parse_format fmt va = Ok (r, f, va') ->
  0 <= r ->
  has (flags f) TFLAG_INT = true ->
  has (flags f) SFLAG_HAS_PREC = true ->
  0 <= precision f ->
  int_with_precision f.
Proof.
  unfold yalc_pf_parse_format.
  set (tl := match fmt with EmptyString => EmptyString | String _ r0 => r0 end).
  set (st0 := mk_ps yalc_clear_fi false false false).
  assert (H0 : fi_inv (fi st0)).
  { unfold fi_inv, radix_ok, INT_MAX. cbn. repeat split; auto; lia. }
  pose proof (parse_loop_fi_inv (String.length tl) tl 1 st0 va (le_n _) H0) as Hi.
  pose proof (parse_loop_inv tl 1 st0 va eq_refl) as Hl.
  destruct (parse_loop tl 1 st0 va) as [[ret st v|j st v]| |]; cbn [bind]; try discriminate.
  - intros [= <- <- <-] Hr. simpl in Hl. unfold EINVAL, ENOTSUP in Hl. lia.
  - simpl in Hi. pose proof (finish_fi_inv j (fi st) Hi) as Hf.
    pose proof (finish_clears_zero_pad j (fi st)) as Hz.
    destruct (finish j (fi st)) as [r0 f0]. cbn [fst snd] in Hf, Hz.
    intros [= <- <- <-] Hr Hint Hprec Hp0.
    destruct Hf as (Hn & Hs & Hrad & Hrange).
    constructor; auto. lia.
Qed.
(** With the alternate form, [%#.0o] of the value 0 prints one digit:
    the octal rule of [yalc_putll] raises the precision from 0 to 1
    before the precision is handled. *)
Lemma alt_octal_zero_prints_a_digit :
  (exists f, yalc_pf_parse_format "%#.0o" [VInt 0] = Ok (4, f, [VInt 0])
             /\ has (flags f) SFLAG_HAS_PREC = true /\ precision f = 0
             /\ inbuff (fst (putll_render 0 f)) = ["0"%char])
  /\ printed (vprintf lp64 [] "%#.0o" [VInt 0]) = Some (1, "0"%string)
  /\ printed (vprintf lp64 [] "%.0o" [VInt 0]) = Some (0, ""%string).
Proof.
  split; [eexists; split; [reflexivity|]; repeat split; reflexivity|].
  split; vm_compute; reflexivity.
Qed.

(** * Further properties of the code *)

(** ** The digits of a number *)

Lemma digit_char_value (hb : ascii) (d : Z) :
  hb = "a"%char \/ hb = "A"%char -> 0 <= d < 16 ->
  digit_value (digit_char hb d) = d.
Proof.
  intros Hb Hd.
  assert (Hc : d = 0 \/ d = 1 \/ d = 2 \/ d = 3 \/ d = 4 \/ d = 5 \/ d = 6 \/ d = 7
               \/ d = 8 \/ d = 9 \/ d = 10 \/ d = 11 \/ d = 12 \/ d = 13 \/ d = 14
               \/ d = 15) by lia.
  destruct Hb as [-> | ->];
    repeat (destruct Hc as [-> | Hc]; [vm_compute; reflexivity|]);
    subst d; vm_compute; reflexivity.
Qed.

Lemma itora_loop_value (base : Z) (hb : ascii) :
  hb = "a"%char \/ hb = "A"%char -> 2 <= base <= 16 ->
  forall (fuel : nat) (val : Z),
    0 <= val < base ^ Z.of_nat fuel ->
    digits_value base (itora_loop fuel base hb val) = val.
Proof.
  intros Hb Hbase fuel. induction fuel as [|fuel IH]; intros val Hv.
  - simpl in Hv. simpl. lia.
  - rewrite Nat2Z.inj_succ, Z.pow_succ_r in Hv by lia.
    cbn [itora_loop]. cbn [digits_value].
    rewrite digit_char_value by (auto; pose proof (Z.mod_pos_bound val base); lia).
    destruct (Z.eqb_spec (val / base) 0) as [E|E].
    + cbn [digits_value]. pose proof (Z.div_mod val base). lia.
    + rewrite IH.
      * pose proof (Z.div_mod val base). lia.
      * split; [apply Z.div_pos; lia | apply Z.div_lt_upper_bound; lia].
Qed.

Lemma itora_loop_digits (base : Z) (hb : ascii) :
  hb = "a"%char \/ hb = "A"%char -> 2 <= base <= 16 ->
  forall (fuel : nat) (val : Z),
    0 <= val ->
    Forall (fun c => 0 <= digit_value c < base) (itora_loop fuel base hb val).
Proof.
  intros Hb Hbase fuel. induction fuel as [|fuel IH]; intros val Hv.
  - constructor.
  - cbn [itora_loop]. constructor.
    + rewrite digit_char_value by (auto; pose proof (Z.mod_pos_bound val base); lia).
      apply Z.mod_pos_bound. lia.
    + destruct (val / base =? 0); [constructor | apply IH, Z.div_pos; lia].
Qed.

Lemma itora_loop_leading (base : Z) (hb : ascii) :
  hb = "a"%char \/ hb = "A"%char -> 2 <= base <= 16 ->
  forall (fuel : nat) (val : Z),
    0 < val < base ^ Z.of_nat fuel ->
    digit_value (List.last (itora_loop fuel base hb val) NUL) <> 0.
Proof.
  intros Hb Hbase fuel. induction fuel as [|fuel IH]; intros val Hv.
  - simpl in Hv. lia.
  - rewrite Nat2Z.inj_succ, Z.pow_succ_r in Hv by lia.
    cbn [itora_loop].
    destruct (Z.eqb_spec (val / base) 0) as [E|E].
    + cbn [List.last].
      rewrite digit_char_value by (auto; pose proof (Z.mod_pos_bound val base); lia).
      pose proof (Z.div_mod val base). lia.
    + assert (Hq : 0 < val / base < base ^ Z.of_nat fuel).
      { split; [|apply Z.div_lt_upper_bound; lia].
        pose proof (Z.div_pos val base). lia. }
      specialize (IH _ Hq).
      destruct fuel as [|fuel']; [simpl in Hq; lia|].
      cbn [itora_loop] in *.
      exact IH.
Qed.

Lemma itora_loop_count (base : Z) (hb : ascii) :
  2 <= base ->
  forall (fuel : nat) (n : nat) (val : Z),
    (1 <= n <= fuel)%nat ->
    (n = 1%nat \/ base ^ (Z.of_nat n - 1) <= val) ->
    0 <= val < base ^ Z.of_nat n ->
    length (itora_loop fuel base hb val) = n.
Proof.
  intros Hbase fuel. induction fuel as [|fuel IH]; intros n val Hn Hlo Hv.
  - lia.
  - cbn [itora_loop].
    destruct (Z.eqb_spec (val / base) 0) as [E|E].
    + cbn [length].
      assert (val < base).
      { pose proof (Z.div_mod val base). pose proof (Z.mod_pos_bound val base). lia. }
      destruct Hlo as [-> | Hlo]; [reflexivity|].
      destruct n as [|[|n]]; [lia | reflexivity |].
      exfalso.
      assert (base ^ 1 <= base ^ (Z.of_nat (S (S n)) - 1))
        by (apply Z.pow_le_mono_r; lia).
      rewrite Z.pow_1_r in *. lia.
    + cbn [length].
      assert (Hge : base <= val).
      { destruct (Z_lt_le_dec val base) as [Hlt|]; [|assumption].
        exfalso. apply E. apply Z.div_small. lia. }
      destruct n as [|[|n]]; [lia | rewrite Z.pow_1_r in Hv; lia |].
      f_equal. apply IH.
      * lia.
      * right.
        replace (Z.of_nat (S n) - 1) with (Z.of_nat n) by lia.
        destruct Hlo as [Hlo | Hlo]; [lia|].
        replace (Z.of_nat (S (S n)) - 1) with (Z.succ (Z.of_nat n)) in Hlo by lia.
        rewrite Z.pow_succ_r in Hlo by lia.
        apply Z.div_le_lower_bound; lia.
      * split; [apply Z.div_pos; lia|].
        apply Z.div_lt_upper_bound; [lia|].
        rewrite <- Z.pow_succ_r by lia.
        replace (Z.succ (Z.of_nat (S n))) with (Z.of_nat (S (S n))) by lia. lia.
Qed.

Lemma itora_unfold (val : Z) (fi : format_info) :
  radix_ok (radix fi) ->
  fst (yalc_itora val fi)
  = itora_loop 64 (radix fi)
      (if has (flags fi) SFLAG_UPPERCASE then "A"%char else "a"%char) val.
Proof.
  intros Hr. unfold yalc_itora. cbn [fst].
  destruct Hr as [-> | [-> | [-> | ->]]]; reflexivity.
Qed.

Lemma radix_ok_range (r : Z) : radix_ok r -> 2 <= r <= 16.
Proof.
  unfold radix_ok, RADIX_BIN, RADIX_OCT, RADIX_DEC, RADIX_HEX. lia.
Qed.

Lemma radix_pow_64 (r : Z) : radix_ok r -> 2 ^ 64 <= r ^ 64.
Proof.
  intros H. apply Z.pow_le_mono_l. apply radix_ok_range in H. lia.
Qed.

Lemma hex_base_cases (b : bool) :
  (if b then "A"%char else "a"%char) = "a"%char
  \/ (if b then "A"%char else "a"%char) = "A"%char.
Proof. destruct b; auto. Qed.

Lemma itora_value (val : Z) (fi : format_info) :
  radix_ok (radix fi) -> 0 <= val < 2 ^ 64 ->
  digits_value (radix fi) (fst (yalc_itora val fi)) = val.
Proof.
  intros Hr Hv.
  pose proof (radix_ok_range _ Hr) as Hb.
  pose proof (radix_pow_64 _ Hr) as Hp.
  rewrite itora_unfold by assumption.
  apply itora_loop_value; [apply hex_base_cases | assumption |].
  change (Z.of_nat 64) with 64. lia.
Qed.

(** X1: the digits [yalc_itora] writes read back, in the radix of the
    descriptor, as the value it was given; every digit is below the
    radix and the most significant one is not zero unless the value is. *)
Theorem itora_digits_read_back (val : Z) (fi : format_info) :
  radix_ok (radix fi) -> 0 <= val < 2 ^ 64 ->
  digits_value (radix fi) (fst (yalc_itora val fi)) = val
  /\ Forall (fun c => 0 <= digit_value c < radix fi) (fst (yalc_itora val fi))
  /\ (0 < val -> digit_value (List.last (fst (yalc_itora val fi)) NUL) <> 0)
  /\ 1 <= len (fst (yalc_itora val fi)) <= 64.
Proof.
  intros Hr Hv.
  pose proof (radix_ok_range _ Hr) as Hb.
  pose proof (radix_pow_64 _ Hr) as Hp.
  split; [apply itora_value; assumption|].
  rewrite itora_unfold by assumption.
  repeat split.
  - apply itora_loop_digits; [apply hex_base_cases | assumption | lia].
  - intros Hpos. apply itora_loop_leading; [apply hex_base_cases | assumption |].
    change (Z.of_nat 64) with 64. lia.
  - pose proof (itora_loop_length 64 (radix fi)
                  (if has (flags fi) SFLAG_UPPERCASE then "A"%char else "a"%char) val).
    unfold len. lia.
  - pose proof (itora_loop_length 64 (radix fi)
                  (if has (flags fi) SFLAG_UPPERCASE then "A"%char else "a"%char) val).
    unfold len. lia.
Qed.

Lemma itora_digits_read_back_witness :
  let fi := mk_fi SFLAG_UPPERCASE 0 0 0 0 0 RADIX_HEX in
  radix_ok (radix fi) /\ 0 <= 48879 < 2 ^ 64
  /\ fst (yalc_itora 48879 fi) = chars "FEEB"
  /\ digits_value (radix fi) (fst (yalc_itora 48879 fi)) = 48879
  /\ Forall (fun c => 0 <= digit_value c < radix fi) (fst (yalc_itora 48879 fi))
  /\ (0 < 48879 -> digit_value (List.last (fst (yalc_itora 48879 fi)) NUL) <> 0)
  /\ 1 <= len (fst (yalc_itora 48879 fi)) <= 64.
Proof.
  intros fi.
  assert (Hr : radix_ok (radix fi)) by (right; right; right; reflexivity).
  assert (Hv : 0 <= 48879 < 2 ^ 64) by lia.
  split; [exact Hr|]. split; [exact Hv|]. split; [vm_compute; reflexivity|].
  exact (itora_digits_read_back 48879 fi Hr Hv).
Defined.

Lemma s64_cases (val : Z) :
  0 <= val < 2 ^ 64 -> s64 val = if val <? 2 ^ 63 then val else val - 2 ^ 64.
Proof.
  intros Hv. unfold s64, sN. change (2 ^ (64 - 1)) with (2 ^ 63).
  destruct (Z.ltb_spec val (2 ^ 63)).
  - rewrite Z.mod_small by lia. lia.
  - replace (val + 2 ^ 63) with (val - 2 ^ 63 + 1 * 2 ^ 64) by lia.
    rewrite Z.mod_add by lia. rewrite Z.mod_small by lia. lia.
Qed.

(** The sign and magnitude [yalc_putll] splits a signed decimal into. *)
Lemma putll_prefix_signed (val : Z) (fi : format_info) :
  radix fi = RADIX_DEC -> has (flags fi) SFLAG_IS_SIGNED = true ->
  0 <= val < 2 ^ 64 ->
  putll_prefix val fi
  = (Z.abs (s64 val),
     if s64 val <? 0 then ["-"%char]
     else if has (flags fi) FFLAG_ADDSIGN then ["+"%char]
     else if has (flags fi) FFLAG_NOPSIGN then [" "%char]
     else []).
Proof.
  intros Hr Hs Hv. pose proof (s64_cases val Hv) as Hs64.
  unfold putll_prefix. rewrite Hr, Hs.
  change (RADIX_DEC =? RADIX_DEC) with true. cbv iota.
  destruct (Z.ltb_spec (s64 val) 0) as [Hn|Hn].
  - f_equal.
    destruct (Z.ltb_spec val (2 ^ 63)); [lia|].
    rewrite Hs64. unfold u64.
    rewrite (Z.mod_small (- (val - 2 ^ 64 + 1))) by lia.
    rewrite Z.mod_small by lia. lia.
  - assert (s64 val = val) by (destruct (Z.ltb_spec val (2 ^ 63)); lia).
    replace (Z.abs (s64 val)) with val by lia.
    destruct (has (flags fi) FFLAG_ADDSIGN); [|destruct (has (flags fi) FFLAG_NOPSIGN)];
      reflexivity.
Qed.

(** X2: for a signed decimal conversion the field [yalc_putll] builds
    denotes the argument: the prefix is the minus sign exactly when the
    value, read as an [intmax_t], is negative, and the digits read back
    as its magnitude, [INTMAX_MIN] included. *)
Theorem signed_decimal_denotes_argument (val : Z) (fi : format_info) :
  radix fi = RADIX_DEC -> has (flags fi) SFLAG_IS_SIGNED = true ->
  0 <= val < 2 ^ 64 ->
  (s64 val < 0 -> prefix (fst (putll_render val fi)) = ["-"%char])
  /\ (0 <= s64 val ->
      prefix (fst (putll_render val fi)) = []
      \/ prefix (fst (putll_render val fi)) = ["+"%char]
      \/ prefix (fst (putll_render val fi)) = [" "%char])
  /\ digits_value 10 (inbuff (fst (putll_render val fi))) = Z.abs (s64 val).
Proof.
  intros Hr Hs Hv.
  pose proof (s64_cases val Hv) as Hs64.
  unfold putll_render. rewrite putll_prefix_signed by assumption.
  assert (Hmr : 0 <= Z.abs (s64 val) < 2 ^ 64).
  { rewrite Hs64. destruct (Z.ltb_spec val (2 ^ 63)); lia. }
  destruct (yalc_itora (Z.abs (s64 val)) fi) as [num_buff fi1] eqn:Ei.
  assert (Hd : digits_value 10 num_buff = Z.abs (s64 val)).
  { pose proof (itora_value (Z.abs (s64 val)) fi) as H.
    rewrite Ei, Hr in H. cbn [fst] in H.
    apply H; [right; right; left; reflexivity | assumption]. }
  destruct (putll_precision num_buff (Z.abs (s64 val))
              (putll_octal num_buff (Z.abs (s64 val)) fi1)) as [nb fi2] eqn:Eq.
  cbn [fst prefix inbuff].
  split; [intros Hn; destruct (Z.ltb_spec (s64 val) 0); [reflexivity | lia]|].
  split.
  { intros Hn. destruct (Z.ltb_spec (s64 val) 0); [lia|].
    destruct (has (flags fi) FFLAG_ADDSIGN); [|destruct (has (flags fi) FFLAG_NOPSIGN)];
      auto. }
  unfold putll_precision in Eq.
  destruct (has (flags (putll_octal num_buff (Z.abs (s64 val)) fi1)) SFLAG_HAS_PREC).
  - destruct (len num_buff <? u64 (precision (putll_octal num_buff (Z.abs (s64 val)) fi1))).
    + injection Eq as <- _. lia.
    + destruct (Z.eqb_spec (precision (putll_octal num_buff (Z.abs (s64 val)) fi1)) 0);
        destruct (Z.eqb_spec (Z.abs (s64 val)) 0); cbn [andb] in Eq; injection Eq as <- _;
        cbn [digits_value]; lia.
  - injection Eq as <- _. lia.
Qed.

Lemma signed_decimal_denotes_argument_witness :
  let fi := mk_fi (Z.lor SFLAG_IS_SIGNED TFLAG_INT) 0 0 64 0 0 RADIX_DEC in
  let val := 2 ^ 63 in
  radix fi = RADIX_DEC /\ has (flags fi) SFLAG_IS_SIGNED = true /\ 0 <= val < 2 ^ 64
  /\ s64 val = - 2 ^ 63
  /\ (s64 val < 0 -> prefix (fst (putll_render val fi)) = ["-"%char])
  /\ (0 <= s64 val ->
      prefix (fst (putll_render val fi)) = []
      \/ prefix (fst (putll_render val fi)) = ["+"%char]
      \/ prefix (fst (putll_render val fi)) = [" "%char])
  /\ digits_value 10 (inbuff (fst (putll_render val fi))) = Z.abs (s64 val).
Proof.
  intros fi val.
  assert (H1 : radix fi = RADIX_DEC) by reflexivity.
  assert (H2 : has (flags fi) SFLAG_IS_SIGNED = true) by reflexivity.
  assert (H3 : 0 <= val < 2 ^ 64) by (unfold val; lia).
  split; [exact H1|]. split; [exact H2|]. split; [exact H3|].
  split; [vm_compute; reflexivity|].
  exact (signed_decimal_denotes_argument val fi H1 H2 H3).
Defined.

Lemma emit_count (t : list ascii) :
  forall out, 0 <= chars_out out < 2 ^ 64 ->
    chars_out (emit t out) = u64 (chars_out out + len t).
Proof.
  unfold len. induction t as [|c t IH]; intros out Hc.
  - rewrite emit_nil. cbn [length]. rewrite Z.add_0_r, u64_small; [reflexivity | assumption].
  - change (emit (c :: t) out) with (emit t (yalc_pf_char_out c out)).
    rewrite IH by (rewrite char_out_count; apply u64_range).
    rewrite char_out_count. cbn [length]. rewrite Nat2Z.inj_succ.
    unfold u64. rewrite Zplus_mod_idemp_l. f_equal. lia.
Qed.

Lemma drop_str_all (s : string) : drop_str (String.length s) s = EmptyString.
Proof. induction s as [|c s IH]; [reflexivity | exact IH]. Qed.

(** A format that is one directive: the call is one turn of the loop. *)
Lemma xprintf_one_directive (target : abi) (c : ascii) (rest : string)
      (out : output_info) (va va1 va2 : va_list) (ret : Z)
      (fi fi' : format_info) (fld : field_data) :
  c <> "%"%char ->
  yalc_pf_parse_format (String "%" (String c rest)) va = Ok (ret, fi, va1) ->
  ret = strlen (String c rest) ->
  dispatch target fi va1 = Ok (Field fld fi' va2) ->
  yalc_xprintf target out (String "%" (String c rest)) va
  = Ok (s32 (chars_out (yalc_pf_field_out fld fi' out)), yalc_pf_field_out fld fi' out).
Proof.
  intros Hc Hp Hret Hd.
  unfold yalc_xprintf.
  cbn [String.length xprintf_loop].
  unfold loop_body at 1.
  change (Ascii.eqb "%" "%") with true. cbn [negb].
  destruct (Ascii.eqb_spec c "%") as [E|_]; [contradiction|].
  rewrite Hp. cbn [bind].
  assert (H0 : (ret <? 0) = false).
  { apply Z.ltb_ge. subst ret. unfold strlen. lia. }
  rewrite H0, Hd. cbn [bind].
  replace (Z.to_nat (ret + 1)) with (String.length (String "%" (String c rest))).
  2:{ subst ret. unfold strlen. cbn [String.length]. lia. }
  rewrite drop_str_all. reflexivity.
Qed.

(** The text of a field whose descriptor asks for no padding. *)
Lemma plain_field_text (fld : field_data) (fi : format_info) :
  width fi = 0 -> num_pad fi = 0 -> suffix_pad fi = 0 ->
  Z.land (Z.shiftr (flags fi) 1) 3 = 0 ->
  field_text fld fi
  = dir_text (prefix fld) (has (flags fi) TRFLAG_REVERSE_PREFIX)
    ++ dir_text (inbuff fld) (has (flags fi) TRFLAG_REVERSE_NUM)
    ++ dir_text (suffix fld) (has (flags fi) TRFLAG_REVERSE_SUFFIX).
Proof.
  intros Hw Hn Hs Hp. unfold field_text.
  rewrite Hp. change (0 =? 0) with true. cbv iota.
  unfold width_pad_of, prebuf_pad_of, postbuf_pad_of. rewrite Hw, Hn, Hs.
  change (u64 0) with 0. change (0 <? 0) with false. cbv iota.
  pose proof (field_width_nonneg fld fi) as Hf.
  destruct (Z.ltb_spec (field_width fld fi) 0); [lia|].
  change (pad_text 0 " ") with (@nil ascii).
  change (pad_text 0 "0") with (@nil ascii).
  cbn [app]. rewrite !app_nil_r. reflexivity.
Qed.

(** [yalc_putll] on a decimal descriptor without precision. *)
Lemma putll_render_decimal (val : Z) (fi : format_info) :
  radix fi = RADIX_DEC -> has (flags fi) SFLAG_HAS_PREC = false ->
  putll_render val fi
  = (mk_fld (fst (yalc_itora (fst (putll_prefix val fi)) fi))
            (snd (putll_prefix val fi)) [] NUL,
     with_flags fi (set_flag (flags fi) TRFLAG_REVERSE_NUM)).
Proof.
  intros Hr Hp. unfold putll_render.
  destruct (putll_prefix val fi) as [mag pfx]. cbn [fst snd].
  pose proof (itora_flags mag fi) as Hf.
  destruct (yalc_itora mag fi) as [nb fi1]. cbn [fst snd] in *. subst fi1.
  unfold putll_octal. cbn [radix with_flags]. rewrite Hr.
  change (RADIX_DEC =? RADIX_OCT) with false. cbn [andb].
  unfold putll_precision. cbn [flags with_flags].
  rewrite has_set_other by reflexivity. rewrite Hp. reflexivity.
Qed.




(** ** Counting digits *)

Lemma count_dec_spec (val : Z) :
  0 <= val < 10 ^ 19 ->
  forall (fuel : nat) (ln : Z),
    1 <= ln <= 19 ->
    (ln = 1 \/ 10 ^ (ln - 1) <= val) ->
    19 - ln < Z.of_nat fuel ->
    exists n, count_dec fuel val (10 ^ ln) ln = Ok n
              /\ 1 <= n <= 19 /\ (n = 1 \/ 10 ^ (n - 1) <= val) /\ val < 10 ^ n.
Proof.
  intros Hv fuel. induction fuel as [|fuel IH]; intros ln Hln Hlo Hf.
  - lia.
  - cbn [count_dec].
    destruct (Z.leb_spec (10 ^ ln) val) as [Hle|Hgt].
    + assert (Hl18 : ln <= 18).
      { destruct (Z_le_gt_dec ln 18); [assumption|].
        assert (ln = 19) by lia. subst ln. lia. }
      assert (Hc : u64 (Z.shiftl (10 ^ ln) 3 + Z.shiftl (10 ^ ln) 1) = 10 ^ (ln + 1)).
      { assert (10 ^ ln <= 10 ^ 18) by (apply Z.pow_le_mono_r; lia).
        assert (0 < 10 ^ ln) by (apply Z.pow_pos_nonneg; lia).
        assert (E : Z.shiftl (10 ^ ln) 3 + Z.shiftl (10 ^ ln) 1 = 10 ^ (ln + 1)).
        { rewrite !Z.shiftl_mul_pow2 by lia. rewrite Z.pow_add_r by lia.
          change (2 ^ 3) with 8. change (2 ^ 1) with 2. change (10 ^ 1) with 10. lia. }
        rewrite E. apply u64_small. rewrite Z.pow_add_r by lia.
        change (10 ^ 1) with 10. change (10 ^ 18) with 1000000000000000000 in *.
        change (2 ^ 64) with 18446744073709551616. lia. }
      rewrite Hc. rewrite (u64_small (ln + 1)) by lia.
      apply IH; [lia | | lia].
      right. replace (ln + 1 - 1) with ln by lia. assumption.
    + exists ln. split; [reflexivity|]. split; [lia|]. split; [assumption | lia].
Qed.

Lemma count_hex_spec :
  forall (fuel : nat) (val ln : Z),
    0 <= val < 16 ^ (Z.of_nat fuel + 1) ->
    0 <= ln -> ln + Z.of_nat fuel < 2 ^ 64 ->
    exists k, count_hex fuel val ln = ln + k - 1
              /\ 1 <= k <= Z.of_nat fuel + 1
              /\ (k = 1 \/ 16 ^ (k - 1) <= val) /\ val < 16 ^ k.
Proof.
  induction fuel as [|fuel IH]; intros val ln Hv Hl Hb.
  - exists 1. cbn [count_hex]. change (16 ^ (Z.of_nat 0 + 1)) with 16 in Hv.
    split; [lia|]. split; [lia|]. split; [left; reflexivity | exact (proj2 Hv)].
  - cbn [count_hex]. rewrite Z.shiftr_div_pow2 by lia. change (2 ^ 4) with 16.
    replace (Z.of_nat (S fuel) + 1) with (Z.succ (Z.of_nat fuel + 1)) in * by lia.
    rewrite Z.pow_succ_r in Hv by lia.
    destruct (Z.eqb_spec (val / 16) 0) as [E|E].
    + exists 1. split; [lia|]. split; [lia|]. split; [left; reflexivity|].
      pose proof (Z.div_mod val 16). pose proof (Z.mod_pos_bound val 16).
      change (16 ^ 1) with 16. lia.
    + rewrite (u64_small (ln + 1)) by lia.
      destruct (IH (val / 16) (ln + 1)) as (k & Hk & Hkr & Hlo & Hhi).
      * split; [apply Z.div_pos; lia | apply Z.div_lt_upper_bound; lia].
      * lia.
      * lia.
      * exists (k + 1). split; [lia|]. split; [lia|].
        replace (k + 1 - 1) with (Z.succ (k - 1)) by lia.
        replace (k + 1) with (Z.succ k) by lia.
        rewrite !Z.pow_succ_r by lia.
        pose proof (Z.div_mod val 16). pose proof (Z.mod_pos_bound val 16).
        split.
        -- right. destruct Hlo as [-> | Hlo].
           ++ change (16 ^ (1 - 1)) with 1.
              assert (0 < val / 16) by (pose proof (Z.div_pos val 16); lia). lia.
           ++ lia.
        -- lia.
Qed.

(** X4: [yalc_count_digits] returns the number of digits [yalc_itora]
    writes for the same value: the decimal count for values below
    [10^19], the hexadecimal count for any 64-bit value. *)
Theorem count_digits_counts_the_digits (val : Z) (fi : format_info) :
  (radix fi = RADIX_DEC /\ 0 <= val < 10 ^ 19)
  \/ (radix fi = RADIX_HEX /\ 0 <= val < 2 ^ 64) ->
  exists n,
    yalc_count_digits val (radix fi) = Ok n
    /\ n = len (fst (yalc_itora val fi))
    /\ (n = 1 \/ radix fi ^ (n - 1) <= val)
    /\ val < radix fi ^ n.
Proof.
  intros [[Hr Hv] | [Hr Hv]].
  - destruct (count_dec_spec val Hv 65 1) as (n & Hn & Hnr & Hlo & Hhi);
      [lia | left; reflexivity | lia |].
    exists n. unfold yalc_count_digits. rewrite Hr.
    change (RADIX_DEC =? RADIX_HEX) with false. cbv iota.
    change (10 ^ 1) with 10 in Hn. rewrite Hn.
    change RADIX_DEC with 10.
    split; [reflexivity|]. split; [|split; assumption].
    rewrite itora_unfold by (right; right; left; assumption).
    rewrite Hr. change RADIX_DEC with 10. unfold len.
    rewrite (itora_loop_count 10 _ ltac:(lia) 64 (Z.to_nat n)).
    + lia.
    + lia.
    + destruct Hlo as [-> | Hlo]; [left; reflexivity|].
      right. rewrite Z2Nat.id by lia. assumption.
    + rewrite Z2Nat.id by lia. lia.
  - destruct (count_hex_spec 16 val 1) as (k & Hk & Hkr & Hlo & Hhi).
    + change (16 ^ (Z.of_nat 16 + 1)) with (2 ^ 68). lia.
    + lia.
    + change (Z.of_nat 16) with 16. lia.
    + assert (Hk16 : k <= 16).
      { destruct (Z_le_gt_dec k 16); [assumption|].
        exfalso. destruct Hlo as [-> | Hlo]; [lia|].
        assert (16 ^ 16 <= 16 ^ (k - 1)) by (apply Z.pow_le_mono_r; lia).
        change (16 ^ 16) with (2 ^ 64) in *. lia. }
      exists k. unfold yalc_count_digits. rewrite Hr.
      change (RADIX_HEX =? RADIX_HEX) with true. cbv iota.
      rewrite Hk. change RADIX_HEX with 16.
      split; [f_equal; lia|]. split; [|split; assumption].
      rewrite itora_unfold by (right; right; right; assumption).
      rewrite Hr. change RADIX_HEX with 16. unfold len.
      rewrite (itora_loop_count 16 _ ltac:(lia) 64 (Z.to_nat k)).
      * lia.
      * lia.
      * destruct Hlo as [-> | Hlo]; [left; reflexivity|].
        right. rewrite Z2Nat.id by lia. assumption.
      * rewrite Z2Nat.id by lia. lia.
Qed.

Lemma count_digits_counts_the_digits_witness :
  let fi := mk_fi 0 0 0 0 0 0 RADIX_DEC in
  ((radix fi = RADIX_DEC /\ 0 <= 9999999999999999999 < 10 ^ 19)
   \/ (radix fi = RADIX_HEX /\ 0 <= 9999999999999999999 < 2 ^ 64))
  /\ yalc_count_digits 9999999999999999999 (radix fi) = Ok 19
  /\ exists n,
       yalc_count_digits 9999999999999999999 (radix fi) = Ok n
       /\ n = len (fst (yalc_itora 9999999999999999999 fi))
       /\ (n = 1 \/ radix fi ^ (n - 1) <= 9999999999999999999)
       /\ 9999999999999999999 < radix fi ^ n.
Proof.
  intros fi.
  assert (H : (radix fi = RADIX_DEC /\ 0 <= 9999999999999999999 < 10 ^ 19)
              \/ (radix fi = RADIX_HEX /\ 0 <= 9999999999999999999 < 2 ^ 64))
    by (left; split; [reflexivity | lia]).
  split; [exact H|]. split; [vm_compute; reflexivity|].
  exact (count_digits_counts_the_digits 9999999999999999999 fi H).
Defined.

(** ** What a call prints *)

Section LoopText.

Variable target : abi.

(** One turn of the loop does not look at the sink: it goes on with
    the same text emitted, or stops with the same status, whatever the
    sink is. *)
Lemma loop_body_next_any (s s' : string) (out out' : output_info) (va va' : va_list) :
  loop_body target s out va = Ok (Next s' out' va') ->
  exists text, forall o, loop_body target s o va = Ok (Next s' (emit text o) va').
Proof.
  unfold loop_body. destruct s as [|c rest]; [discriminate|].
  destruct (negb (Ascii.eqb c "%")).
  { intros [= <- _ <-]. exists [c]. reflexivity. }
  destruct rest as [|c' rest']; [discriminate|].
  destruct (Ascii.eqb c' "%").
  { intros [= <- _ <-]. exists ["%"%char]. reflexivity. }
  destruct (yalc_pf_parse_format _ va) as [[[ret f] v]| |]; cbn [bind]; try discriminate.
  destruct (ret <? 0); [discriminate|].
  destruct (dispatch target f v) as [[fld f' v'|v'|r]| |]; cbn [bind]; try discriminate.
  - intros [= <- _ <-]. exists (field_text fld f'). intros o.
    rewrite field_out_emit. reflexivity.
  - intros [= <- _ <-]. exists []. reflexivity.
Qed.

Lemma dispatch_failed (f : format_info) (va : va_list) (r : Z) :
  dispatch target f va = Ok (Failed r) -> r = - EINVAL.
Proof.
  unfold dispatch.
  destruct (Z.land (flags f) TFLAG_MASK =? TFLAG_INT).
  { destruct (int_width target f) as [b|]; [|intros [= <-]; reflexivity].
    destruct ((b =? 8) || (b =? 16) || (b =? 32) || (b =? 64));
      [|intros [= <-]; reflexivity].
    destruct (va_arg_int va) as [[v va']| |]; cbn [bind]; try discriminate.
    destruct (int_arg b _ v); [|intros [= <-]; reflexivity].
    destruct (putll_render _ _). discriminate. }
  destruct (Z.land (flags f) TFLAG_MASK =? TFLAG_DOUBLE).
  { destruct (has (flags f) LFLAG_LONG).
    - destruct (va_arg_long_double va); cbn [bind]; discriminate.
    - destruct (va_arg_double va) as [[d va']| |]; cbn [bind]; try discriminate.
      destruct (putd_render d f) as [[fld f']| |]; cbn [bind]; discriminate. }
  destruct (Z.land (flags f) TFLAG_MASK =? TFLAG_CHAR).
  { destruct (va_arg_int va) as [[v va']| |]; cbn [bind]; discriminate. }
  destruct (Z.land (flags f) TFLAG_MASK =? TFLAG_STRING).
  { destruct (va_arg_str va) as [[[s|] va']| |]; cbn [bind]; discriminate. }
  discriminate.
Qed.

Lemma loop_body_stop_any (s : string) (out out' : output_info) (va : va_list) (ret : Z) :
  loop_body target s out va = Ok (Stop ret out') ->
  (ret = s32 (chars_out out)
   /\ forall o, loop_body target s o va = Ok (Stop (s32 (chars_out o)) o))
  \/ ((ret = - EINVAL \/ ret = - ENOTSUP)
      /\ forall o, loop_body target s o va = Ok (Stop ret o)).
Proof.
  unfold loop_body. destruct s as [|c rest].
  { intros [= <- _]. left. split; reflexivity. }
  destruct (negb (Ascii.eqb c "%")); [discriminate|].
  destruct rest as [|c' rest'].
  { intros [= <- _]. left. split; reflexivity. }
  destruct (Ascii.eqb c' "%"); [discriminate|].
  destruct (yalc_pf_parse_format _ va) as [[[r f] v]| |] eqn:Hp; cbn [bind]; try discriminate.
  destruct (r <? 0) eqn:Hneg.
  { intros [= <- _]. right. split; [|reflexivity].
    apply Z.ltb_lt in Hneg.
    destruct (parse_format_result _ _ _ _ _ Hp) as [H | [H | H]]; [auto | auto | lia]. }
  destruct (dispatch target f v) as [[fld f' v'|v'|r']| |] eqn:Hd; cbn [bind];
    try discriminate.
  intros [= <- _]. right. split; [|reflexivity].
  left. exact (dispatch_failed _ _ _ Hd).
Qed.

(** The whole loop: the text a call emits, and whether it ends on the
    count or on a status, do not depend on the sink. *)
Lemma xprintf_loop_any (fuel : nat) :
  forall (s : string) (out out' : output_info) (va : va_list) (r : Z),
    xprintf_loop target fuel s out va = Ok (r, out') ->
    exists text,
      out' = emit text out
      /\ ((r = s32 (chars_out out')
           /\ forall o, xprintf_loop target fuel s o va
                        = Ok (s32 (chars_out (emit text o)), emit text o))
          \/ ((r = - EINVAL \/ r = - ENOTSUP)
              /\ forall o, xprintf_loop target fuel s o va = Ok (r, emit text o))).
Proof.
  induction fuel as [|fuel IH]; intros s out out' va r; [discriminate|].
  cbn [xprintf_loop].
  destruct (loop_body target s out va) as [[s1 o1 v1|r1 o1]| |] eqn:Hb; cbn [bind];
    try discriminate.
  - intros H.
    destruct (loop_body_next_any _ _ _ _ _ _ Hb) as [t1 Ht1].
    assert (Eo : o1 = emit t1 out).
    { specialize (Ht1 out). rewrite Hb in Ht1. congruence. }
    destruct (IH _ _ _ _ _ H) as (t2 & Eo' & Hr).
    exists (t1 ++ t2). split; [rewrite emit_app, <- Eo; exact Eo'|].
    destruct Hr as [[Hr Hall] | [Hr Hall]]; [left | right]; (split; [exact Hr|]);
      intros o; rewrite Ht1; cbn [bind]; rewrite Hall, emit_app; reflexivity.
  - intros [= <- <-].
    pose proof (loop_body_stop _ _ _ _ _ _ Hb) as ->.
    exists []. split; [reflexivity|].
    destruct (loop_body_stop_any _ _ _ _ _ Hb) as [[Hr Hall] | [Hr Hall]]; [left | right];
      (split; [exact Hr|]); intros o; rewrite Hall; reflexivity.
Qed.

End LoopText.

(** ** What a bounded write stores *)



(** X5: a call on the console prints a text, appended to what the
    console held, and returns the number of characters of that text (as
    an [int]) unless it returns one of the two parser statuses. *)
Theorem console_write_returns_its_length
        (target : abi) (con : list ascii) (fmt : string) (va : va_list)
        (n : Z) (out : output_info) :
  vprintf target con fmt va = Ok (n, out) ->
  exists text,
    console out = con ++ text
    /\ outbuff out = None
    /\ chars_out out = u64 (len text)
    /\ (n = s32 (u64 (len text)) \/ n = - EINVAL \/ n = - ENOTSUP).
Proof.
  unfold vprintf, yalc_xprintf. intros H.
  destruct (xprintf_loop_any target _ _ _ _ _ _ H) as (text & -> & Hr).
  pose proof (emit_console text (mk_out None 0 0 con) eq_refl) as [Hb Hc].
  pose proof (emit_count text (mk_out None 0 0 con)) as Hn.
  cbn [chars_out console] in *. rewrite Hn in * by lia.
  exists text. split; [exact Hc|]. split; [exact Hb|]. split; [reflexivity|].
  destruct Hr as [[-> _] | [[-> | ->] _]]; auto.
Qed.

Lemma console_write_returns_its_length_witness :
  exists out,
    vprintf lp64 (chars "> ") "n=%3d%%" [VInt 7] = Ok (6, out)
    /\ console out = chars "> n=  7%"
    /\ exists text,
         console out = chars "> " ++ text
         /\ outbuff out = None
         /\ chars_out out = u64 (len text)
         /\ (6 = s32 (u64 (len text)) \/ 6 = - EINVAL \/ 6 = - ENOTSUP).
Proof.
  eexists. split; [vm_compute; reflexivity|]. split; [reflexivity|].
  apply (console_write_returns_its_length lp64 (chars "> ") "n=%3d%%" [VInt 7] 6).
  vm_compute. reflexivity.
Defined.



(** ** The descriptor the parser returns *)

Lemma finish_settles_flags (i : Z) (f0 : format_info) :
  0 <= fst (finish i f0) ->
  has (flags (snd (finish i f0))) FFLAG_ZERO_PAD
    && has (flags (snd (finish i f0))) FFLAG_LEFT_ADJ = false
  /\ has (flags (snd (finish i f0))) LFLAG_HALF
       && has (flags (snd (finish i f0))) LFLAG_LONG = false
  /\ has (flags (snd (finish i f0))) TFLAG_INT
       && has (flags (snd (finish i f0))) SFLAG_HAS_PREC
       && has (flags (snd (finish i f0))) FFLAG_ZERO_PAD = false.
Proof.
  unfold finish.
  destruct (nz _); [cbn [fst]; unfold EINVAL; lia|].
  destruct (has (flags f0) LFLAG_HALF) eqn:Hh; destruct (has (flags f0) LFLAG_LONG) eqn:Hl;
    cbn [andb]; try (cbn [fst]; unfold EINVAL; lia);
    intros _; cbn [snd];
    destruct (has (flags f0) TFLAG_INT) eqn:Hi;
    destruct (has (flags f0) FFLAG_ZERO_PAD) eqn:Hzp;
    destruct (has (flags f0) SFLAG_HAS_PREC) eqn:Hpr;
    destruct (has (flags f0) FFLAG_LEFT_ADJ) eqn:Hla;
    cbn [andb flags with_flags];
    rewrite ?has_clear_same by reflexivity; cbn [andb flags with_flags];
    rewrite ?Hzp, ?Hla; cbn [andb flags with_flags];
    rewrite ?has_clear_same, ?has_clear_other by reflexivity;
    rewrite ?Hh, ?Hl, ?Hi, ?Hpr, ?Hzp, ?Hla; cbn [andb];
    repeat split; reflexivity.
Qed.

(** X7: in a descriptor the parser returns with success the zero-pad
    flag never stands beside the left-adjust flag, nor beside a precision
    on an integer conversion, and the half and long length flags are
    never both set. *)
Theorem parser_settles_conflicting_flags
        (fmt : string) (va va' : va_list) (ret : Z) (f : format_info) :
  yalc_pf_parse_format fmt va = Ok (ret, f, va') ->
  0 <= ret ->
  has (flags f) FFLAG_ZERO_PAD && has (flags f) FFLAG_LEFT_ADJ = false
  /\ has (flags f) LFLAG_HALF && has (flags f) LFLAG_LONG = false
  /\ has (flags f) TFLAG_INT && has (flags f) SFLAG_HAS_PREC
       && has (flags f) FFLAG_ZERO_PAD = false.
Proof.
  unfold yalc_pf_parse_format. intros H Hret.
  set (st0 := mk_ps yalc_clear_fi false false false) in H.
  set (body := match fmt with EmptyString => EmptyString | String _ r => r end) in H.
  pose proof (parse_loop_inv body 1 st0 va eq_refl) as Hinv.
  destruct (parse_loop body 1 st0 va) as [[r st v | i st v]| |]; cbn [bind] in H;
    try discriminate.
  - injection H as <- _ _. cbn [loop_inv] in Hinv. unfold EINVAL, ENOTSUP in Hinv. lia.
  - destruct (finish i (fi st)) as [r f1] eqn:Hf. injection H as <- <- _.
    pose proof (finish_settles_flags i (fi st)) as Hs. rewrite Hf in Hs.
    cbn [fst snd] in Hs. apply Hs. exact Hret.
Qed.

Lemma parser_settles_conflicting_flags_witness :
  exists f,
    yalc_pf_parse_format "%-08.3d" [] = Ok (6, f, [])
    /\ has (flags f) FFLAG_LEFT_ADJ = true
    /\ 0 <= 6
    /\ has (flags f) FFLAG_ZERO_PAD && has (flags f) FFLAG_LEFT_ADJ = false
    /\ has (flags f) LFLAG_HALF && has (flags f) LFLAG_LONG = false
    /\ has (flags f) TFLAG_INT && has (flags f) SFLAG_HAS_PREC
         && has (flags f) FFLAG_ZERO_PAD = false.
Proof.
  eexists. split; [vm_compute; reflexivity|]. split; [reflexivity|]. split; [lia|].
  apply (parser_settles_conflicting_flags "%-08.3d" [] [] 6); [vm_compute; reflexivity | lia].
Defined.

(** X8: the parser returns [-EINVAL], [-ENOTSUP] or the index at which
    it stopped, which is at least 1 and never beyond the end of the text
    it was given, so the index of the caller's loop stays inside the
    format. *)
Theorem parser_returns_a_status_or_an_index_in_the_text
        (c : ascii) (rest : string) (va va' : va_list) (ret : Z) (f : format_info) :
  yalc_pf_parse_format (String c rest) va = Ok (ret, f, va') ->
  ret = - EINVAL \/ ret = - ENOTSUP \/ 1 <= ret <= strlen (String c rest).
Proof.
  unfold yalc_pf_parse_format. intros H.
  set (st0 := mk_ps yalc_clear_fi false false false) in H.
  pose proof (parse_loop_inv rest 1 st0 va eq_refl) as Hinv.
  destruct (parse_loop rest 1 st0 va) as [[r st v | i st v]| |]; cbn [bind] in H;
    try discriminate.
  - injection H as <- _ _. cbn [loop_inv] in Hinv. tauto.
  - pose proof (finish_cases i (fi st)) as Hc.
    destruct (finish i (fi st)) as [r f1]. injection H as <- _ _.
    cbn [fst snd] in Hc. cbn [loop_inv] in Hinv.
    destruct Hc as [-> | [-> _]]; [auto|].
    right. right. unfold strlen in *. cbn [String.length].
    destruct Hinv as [[Hi _] | [Hi _]]; lia.
Qed.

Lemma parser_returns_a_status_or_an_index_in_the_text_witness :
  exists f,
    yalc_pf_parse_format "%5.2f and more" [] = Ok (4, f, [])
    /\ (4 = - EINVAL \/ 4 = - ENOTSUP \/ 1 <= 4 <= strlen "%5.2f and more").
Proof.
  eexists. split; [vm_compute; reflexivity|].
  eapply (parser_returns_a_status_or_an_index_in_the_text "%" "5.2f and more" [] [] 4).
  vm_compute. reflexivity.
Defined.

Lemma parse_loop_shift_bounded (k : Z) (n : nat) :
  forall (s : string) (i : Z) (st : pstate) (va : va_list),
    (String.length s <= n)%nat ->
    parse_loop s (i + k) st va = shift_exit k (parse_loop s i st va).
Proof.
  induction n as [|n IH]; intros s i st va Hn.
  - destruct s; [reflexivity | simpl in Hn; lia].
  - destruct s as [|c rest]; [reflexivity|].
    cbn [parse_loop].
    destruct (parse_char c (peek rest) st va) as [[st' va'|st' va'|st' va'|r st' va']| |];
      cbn [bind]; try reflexivity.
    + replace (i + k + 1) with (i + 1 + k) by lia. apply IH. simpl in Hn. lia.
    + destruct rest as [|c2 rest'].
      * cbn [shift_exit]. do 2 f_equal. lia.
      * replace (i + k + 2) with (i + 2 + k) by lia. apply IH. simpl in Hn. lia.
Qed.

Lemma parse_loop_shift (k : Z) (s : string) (i : Z) (st : pstate) (va : va_list) :
  parse_loop s (i + k) st va = shift_exit k (parse_loop s i st va).
Proof. apply (parse_loop_shift_bounded k (String.length s)). lia. Qed.

Lemma finish_shift (i k : Z) (f : format_info) :
  1 <= i -> 0 <= k ->
  finish (i + k) f
  = (if fst (finish i f) <? 0 then fst (finish i f) else fst (finish i f) + k,
     snd (finish i f)).
Proof.
  intros Hi Hk. unfold finish.
  destruct (nz _); [reflexivity|].
  destruct (has (flags f) LFLAG_HALF && has (flags f) LFLAG_LONG); [reflexivity|].
  cbn [fst snd]. destruct (Z.ltb_spec i 0); [lia | reflexivity].
Qed.

(** X9: a negative precision argument is taken as if the precision
    were omitted: ["%.*"] followed by any text, with a negative [int]
    as the next argument, is parsed as ["%"] followed by that text, two
    characters further on. *)
Theorem negative_precision_argument_is_no_precision
        (rest : string) (va : va_list) (p : Z) :
  s32 p < 0 ->
  yalc_pf_parse_format (String "%" (String "." (String "*" rest))) (VInt p :: va)
  = match yalc_pf_parse_format (String "%" rest) va with
    | Ok (ret, f, va') => Ok (if ret <? 0 then ret else ret + 2, f, va')
    | Undef => Undef
    | Diverge => Diverge
    end.
Proof.
  intros Hp. apply Z.ltb_lt in Hp.
  unfold yalc_pf_parse_format.
  set (st0 := mk_ps yalc_clear_fi false false false).
  assert (E : parse_loop (String "." (String "*" rest)) 1 st0 (VInt p :: va)
              = parse_loop rest (1 + 2) st0 va).
  { cbn [parse_loop].
    assert (E1 : parse_char "." (peek (String "*" rest)) st0 (VInt p :: va)
                 = Ok (Continue (ps_flags st0 (set_flag (fl st0) SFLAG_HAS_PREC))
                                (VInt p :: va))) by reflexivity.
    rewrite E1. cbn [bind].
    assert (E2 : parse_char "*" (peek rest)
                   (ps_flags st0 (set_flag (fl st0) SFLAG_HAS_PREC)) (VInt p :: va)
                 = Ok (Continue st0 va)).
    { unfold parse_char.
      change (width_from_arg (ps_flags st0 (set_flag (fl st0) SFLAG_HAS_PREC))
              && prec_from_arg (ps_flags st0 (set_flag (fl st0) SFLAG_HAS_PREC)))
        with false.
      change (negb (has (fl (ps_flags st0 (set_flag (fl st0) SFLAG_HAS_PREC)))
                        SFLAG_HAS_PREC)) with false.
      cbv iota. cbn [va_arg_int bind]. rewrite Hp. reflexivity. }
    rewrite E2. cbn [bind]. reflexivity. }
  rewrite E, parse_loop_shift.
  pose proof (parse_loop_inv rest 1 st0 va eq_refl) as Hinv.
  destruct (parse_loop rest 1 st0 va) as [[r st v | i st v]| |];
    cbn [shift_exit bind]; try reflexivity.
  - cbn [loop_inv] in Hinv.
    assert (Hr : (r <? 0) = true)
      by (apply Z.ltb_lt; unfold EINVAL, ENOTSUP in Hinv; lia).
    rewrite Hr. reflexivity.
  - assert (Hi : 1 <= i).
    { cbn [loop_inv] in Hinv. unfold strlen in Hinv. lia. }
    rewrite finish_shift by lia.
    destruct (finish i (fi st)) as [r f]. reflexivity.
Qed.

Lemma negative_precision_argument_is_no_precision_witness :
  s32 (-1) < 0
  /\ (exists f, yalc_pf_parse_format "%8d" [VInt 5] = Ok (2, f, [VInt 5]))
  /\ yalc_pf_parse_format "%.*8d" [VInt (-1); VInt 5]
     = match yalc_pf_parse_format "%8d" [VInt 5] with
       | Ok (ret, f, va') => Ok (if ret <? 0 then ret else ret + 2, f, va')
       | Undef => Undef
       | Diverge => Diverge
       end.
Proof.
  assert (H : s32 (-1) < 0) by (vm_compute; reflexivity).
  split; [exact H|]. split; [eexists; vm_compute; reflexivity|].
  exact (negative_precision_argument_is_no_precision "8d" [VInt 5] (-1) H).
Defined.

(** ** Strings *)

Lemma emit_on_console (text : list ascii) :
  len text < 2 ^ 64 ->
  emit text (mk_out None 0 0 []) = mk_out None 0 (len text) text.
Proof.
  intros Hl.
  pose proof (emit_console text (mk_out None 0 0 []) eq_refl) as [H1 H2].
  pose proof (emit_count text (mk_out None 0 0 [])) as H3.
  pose proof (emit_len text (mk_out None 0 0 [])) as H4.
  cbn [chars_out console outbuff_len] in *.
  destruct (emit text (mk_out None 0 0 [])) as [ob ol co con].
  cbn [outbuff chars_out console outbuff_len] in *. subst.
  rewrite H3 by lia. rewrite u64_small by (unfold len in *; lia). reflexivity.
Qed.

(** A string directive without width or flags prints its field as it is. *)
Lemma printf_string_field (target : abi) (c : ascii) (rest : string) (va va1 va2 : va_list)
      (ret : Z) (fi : format_info) (inb : list ascii) :
  c <> "%"%char ->
  yalc_pf_parse_format (String "%" (String c rest)) va = Ok (ret, fi, va1) ->
  ret = strlen (String c rest) ->
  dispatch target fi va1 = Ok (Field (mk_fld inb [] [] NUL) fi va2) ->
  width fi = 0 -> num_pad fi = 0 -> suffix_pad fi = 0 ->
  Z.land (Z.shiftr (flags fi) 1) 3 = 0 ->
  has (flags fi) TRFLAG_REVERSE_NUM = false ->
  len inb < 2 ^ 31 ->
  printed (vprintf target [] (String "%" (String c rest)) va)
  = Some (len inb, string_of_list_ascii inb).
Proof.
  intros Hc Hp Hret Hd Hw Hn Hs Hf Hrev Hl.
  unfold vprintf.
  rewrite (xprintf_one_directive target c rest _ va va1 va2 ret fi fi _ Hc Hp Hret Hd).
  rewrite field_out_emit, plain_field_text by assumption.
  cbn [prefix inbuff suffix]. rewrite Hrev.
  assert (Hnil : forall b, dir_text [] b = []) by (intros []; reflexivity).
  rewrite !Hnil. cbn [dir_text app]. rewrite app_nil_r.
  rewrite emit_on_console by lia.
  cbn [printed chars_out console]. rewrite s32_small by (unfold len in *; lia).
  reflexivity.
Qed.

Lemma strn_length (s : string) (n : Z) :
  0 <= n < 2 ^ 64 -> len (strn s n) <= n.
Proof.
  intros Hn. unfold strn, len. rewrite u64_small by lia.
  rewrite length_firstn. lia.
Qed.

Lemma parse_star_precision_s (P : Z) (va : va_list) :
  0 <= P < 2 ^ 31 ->
  yalc_pf_parse_format "%.*s" (VInt P :: va)
  = Ok (3, mk_fi (Z.lor SFLAG_HAS_PREC TFLAG_STRING) 0 P 0 0 0 RADIX_DEC, va).
Proof.
  intros HP.
  assert (Hs : s32 P = P) by (apply s32_small; lia).
  unfold yalc_pf_parse_format.
  set (st0 := mk_ps yalc_clear_fi false false false).
  cbn [parse_loop].
  assert (E1 : parse_char "." (peek "*s"%string) st0 (VInt P :: va)
               = Ok (Continue (ps_flags st0 (set_flag (fl st0) SFLAG_HAS_PREC))
                              (VInt P :: va))) by reflexivity.
  rewrite E1. cbn [bind].
  set (st1 := ps_flags st0 (set_flag (fl st0) SFLAG_HAS_PREC)).
  assert (E2 : parse_char "*" (peek "s"%string) st1 (VInt P :: va)
               = Ok (Continue
                       (mk_ps (mk_fi SFLAG_HAS_PREC 0 P 0 0 0 RADIX_DEC) false true false)
                       va)).
  { unfold parse_char.
    change (width_from_arg st1 && prec_from_arg st1) with false.
    change (negb (has (fl st1) SFLAG_HAS_PREC)) with false.
    cbv iota. cbn [va_arg_int bind]. rewrite Hs.
    destruct (Z.ltb_spec P 0); [lia|]. reflexivity. }
  rewrite E2. cbn [bind].
  set (st2 := mk_ps (mk_fi SFLAG_HAS_PREC 0 P 0 0 0 RADIX_DEC) false true false).
  assert (E3 : parse_char "s" (peek ""%string) st2 va
               = Ok (Break (mk_ps (mk_fi (Z.lor SFLAG_HAS_PREC TFLAG_STRING)
                                         0 P 0 0 0 RADIX_DEC) false true false) va))
    by reflexivity.
  rewrite E3. cbn [bind]. reflexivity.
Qed.

(** X10: [%s] prints the characters of its argument, at most 4095 of
    them; with a precision from the argument list ([%.*s], precision
    [P >= 0]) at most [P] of them; a null pointer is printed as
    ["(null)"], in full whatever the precision. *)
Theorem percent_s_prints_a_bounded_prefix (target : abi) (s : string) (P : Z) :
  0 <= P < 2 ^ 31 ->
  printed (vprintf target [] "%s" [VStr (Some s)])
  = Some (len (firstn 4095 (chars s)), string_of_list_ascii (firstn 4095 (chars s)))
  /\ printed (vprintf target [] "%.*s" [VInt P; VStr (Some s)])
     = Some (len (firstn (Z.to_nat P) (chars s)),
             string_of_list_ascii (firstn (Z.to_nat P) (chars s)))
  /\ printed (vprintf target [] "%.*s" [VInt P; VStr None]) = Some (6, "(null)"%string)
  /\ printed (vprintf target [] "%s" [VStr None]) = Some (6, "(null)"%string).
Proof.
  intros HP.
  assert (H4095 : firstn 4095 (chars s) = strn s YALC_DEFAULT_STR_PREC) by reflexivity.
  assert (HPn : firstn (Z.to_nat P) (chars s) = strn s P).
  { unfold strn. rewrite u64_small by lia. reflexivity. }
  split; [|split; [|split]].
  - rewrite H4095.
    apply (printf_string_field target "s" "" _ [VStr (Some s)] []
             1 (mk_fi TFLAG_STRING 0 0 0 0 0 RADIX_DEC));
      try reflexivity; try discriminate.
    pose proof (strn_length s YALC_DEFAULT_STR_PREC). unfold YALC_DEFAULT_STR_PREC in *. lia.
  - rewrite HPn.
    apply (printf_string_field target "." "*s" _ [VStr (Some s)] []
             3 (mk_fi (Z.lor SFLAG_HAS_PREC TFLAG_STRING) 0 P 0 0 0 RADIX_DEC));
      try reflexivity; try discriminate.
    + apply parse_star_precision_s. exact HP.
    + unfold dispatch. cbn [flags precision].
      change (Z.land (Z.lor SFLAG_HAS_PREC TFLAG_STRING) TFLAG_MASK =? TFLAG_INT) with false.
      change (Z.land (Z.lor SFLAG_HAS_PREC TFLAG_STRING) TFLAG_MASK =? TFLAG_DOUBLE)
        with false.
      change (Z.land (Z.lor SFLAG_HAS_PREC TFLAG_STRING) TFLAG_MASK =? TFLAG_CHAR)
        with false.
      change (Z.land (Z.lor SFLAG_HAS_PREC TFLAG_STRING) TFLAG_MASK =? TFLAG_STRING)
        with true.
      cbv iota. cbn [va_arg_str bind].
      change (has (Z.lor SFLAG_HAS_PREC TFLAG_STRING) SFLAG_HAS_PREC) with true.
      destruct (Z.leb_spec 0 P); [reflexivity | lia].
    + pose proof (strn_length s P). lia.
  - apply (printf_string_field target "." "*s" _ [VStr None] []
             3 (mk_fi (Z.lor SFLAG_HAS_PREC TFLAG_STRING) 0 P 0 0 0 RADIX_DEC)
             (chars "(null)"));
      try reflexivity; try discriminate.
    apply parse_star_precision_s. exact HP.
  - apply (printf_string_field target "s" "" _ [VStr None] []
             1 (mk_fi TFLAG_STRING 0 0 0 0 0 RADIX_DEC) (chars "(null)"));
      try reflexivity; try discriminate.
Qed.

Lemma percent_s_prints_a_bounded_prefix_witness :
  0 <= 3 < 2 ^ 31
  /\ printed (vprintf lp64 [] "%s" [VStr (Some "yalibc"%string)])
     = Some (len (firstn 4095 (chars "yalibc")),
             string_of_list_ascii (firstn 4095 (chars "yalibc")))
  /\ printed (vprintf lp64 [] "%.*s" [VInt 3; VStr (Some "yalibc"%string)])
     = Some (len (firstn (Z.to_nat 3) (chars "yalibc")),
             string_of_list_ascii (firstn (Z.to_nat 3) (chars "yalibc")))
  /\ printed (vprintf lp64 [] "%.*s" [VInt 3; VStr None]) = Some (6, "(null)"%string)
  /\ printed (vprintf lp64 [] "%s" [VStr None]) = Some (6, "(null)"%string).
Proof.
  assert (H : 0 <= 3 < 2 ^ 31) by lia.
  split; [exact H|].
  exact (percent_s_prints_a_bounded_prefix lp64 "yalibc" 3 H).
Defined.

(** ** Length modifiers and the simple formatter *)

Lemma dispatch_decimal (target : abi) (fi : format_info) (v : Z) (va : va_list)
      (bitlen umax : Z) :
  Z.land (flags fi) TFLAG_MASK = TFLAG_INT ->
  int_width target fi = Some bitlen ->
  (bitlen =? 8) || (bitlen =? 16) || (bitlen =? 32) || (bitlen =? 64) = true ->
  int_arg bitlen (has (flags fi) SFLAG_IS_SIGNED) v = Some umax ->
  radix fi = RADIX_DEC ->
  has (flags fi) SFLAG_HAS_PREC = false ->
  dispatch target fi (VInt v :: va)
  = Ok (Field (mk_fld (fst (yalc_itora (fst (putll_prefix umax (with_int_bitlen fi bitlen)))
                                       (with_int_bitlen fi bitlen)))
                      (snd (putll_prefix umax (with_int_bitlen fi bitlen))) [] NUL)
              (with_flags (with_int_bitlen fi bitlen)
                          (set_flag (flags fi) TRFLAG_REVERSE_NUM))
              va).
Proof.
  intros Ht Hw Hb Ha Hr Hp. unfold dispatch.
  rewrite Ht. change (TFLAG_INT =? TFLAG_INT) with true. cbv iota.
  rewrite Hw, Hb. cbn [va_arg_int bind].
  change (flags (with_int_bitlen fi bitlen)) with (flags fi).
  rewrite Ha.
  rewrite putll_render_decimal by assumption. reflexivity.
Qed.

(** X11: the length modifier [hh] is read as [h]: the parser leaves
    the half flag set beside the half-half flag and the dispatch tests
    the half flag first, so the argument is converted through [short],
    not through [char]. *)
Theorem hh_is_read_as_h (target : abi) (v : Z) :
  vprintf target [] "%hhd" [VInt v] = vprintf target [] "%hd" [VInt v]
  /\ vprintf target [] "%hhu" [VInt v] = vprintf target [] "%hu" [VInt v]
  /\ (exists f, yalc_pf_parse_format "%hhd" [] = Ok (3, f, [])
                /\ has (flags f) LFLAG_HALF = true
                /\ has (flags f) LFLAG_HALF_HALF = true
                /\ int_width target f = Some 16)
  /\ printed (vprintf target [] "%hhd" [VInt 200]) = Some (3, "200"%string)
  /\ s8 200 = - 56.
Proof.
  assert (Hgen : forall (signed : bool),
    let ty := if signed then Z.lor SFLAG_IS_SIGNED TFLAG_INT else TFLAG_INT in
    let c := if signed then "d"%char else "u"%char in
    vprintf target [] (String "%" (String "h" (String "h" (String c EmptyString)))) [VInt v]
    = vprintf target [] (String "%" (String "h" (String c EmptyString))) [VInt v]).
  { intros signed ty c.
    set (fhh := mk_fi (Z.lor (Z.lor LFLAG_HALF LFLAG_HALF_HALF) ty) 0 0 0 0 0 RADIX_DEC).
    set (fh := mk_fi (Z.lor LFLAG_HALF ty) 0 0 0 0 0 RADIX_DEC).
    set (umax := u64 (if signed then s16 v else u16 v)).
    pose proof (dispatch_decimal target fhh v [] 16 umax) as Dhh.
    pose proof (dispatch_decimal target fh v [] 16 umax) as Dh.
    assert (Hhh : yalc_pf_parse_format
                    (String "%" (String "h" (String "h" (String c EmptyString)))) [VInt v]
                  = Ok (3, fhh, [VInt v])) by (destruct signed; vm_compute; reflexivity).
    assert (Hh : yalc_pf_parse_format
                   (String "%" (String "h" (String c EmptyString))) [VInt v]
                 = Ok (2, fh, [VInt v])) by (destruct signed; vm_compute; reflexivity).
    unfold vprintf.
    rewrite (xprintf_one_directive target "h" _ _ _ _ _ _ _ _ _
               ltac:(discriminate) Hhh eq_refl
               (Dhh ltac:(destruct signed; reflexivity) ltac:(destruct signed; reflexivity)
                    ltac:(reflexivity) ltac:(destruct signed; reflexivity)
                    ltac:(reflexivity) ltac:(destruct signed; reflexivity))).
    rewrite (xprintf_one_directive target "h" _ _ _ _ _ _ _ _ _
               ltac:(discriminate) Hh eq_refl
               (Dh ltac:(destruct signed; reflexivity) ltac:(destruct signed; reflexivity)
                   ltac:(reflexivity) ltac:(destruct signed; reflexivity)
                   ltac:(reflexivity) ltac:(destruct signed; reflexivity))).
    rewrite !field_out_emit.
    rewrite !plain_field_text by (destruct signed; reflexivity).
    cbn [prefix inbuff suffix].
    assert (Ep : putll_prefix umax (with_int_bitlen fhh 16)
                 = putll_prefix umax (with_int_bitlen fh 16)).
    { unfold putll_prefix. cbn [radix with_int_bitlen fhh fh flags].
      destruct signed; reflexivity. }
    assert (Ei : forall m, fst (yalc_itora m (with_int_bitlen fhh 16))
                           = fst (yalc_itora m (with_int_bitlen fh 16))).
    { intros m. unfold yalc_itora. cbn [fst radix with_int_bitlen fhh fh flags].
      destruct signed; reflexivity. }
    rewrite Ep, Ei.
    replace (has (flags (with_flags (with_int_bitlen fhh 16)
                           (set_flag (flags fhh) TRFLAG_REVERSE_NUM))) TRFLAG_REVERSE_PREFIX)
      with false by (destruct signed; reflexivity).
    replace (has (flags (with_flags (with_int_bitlen fhh 16)
                           (set_flag (flags fhh) TRFLAG_REVERSE_NUM))) TRFLAG_REVERSE_NUM)
      with true by (destruct signed; reflexivity).
    replace (has (flags (with_flags (with_int_bitlen fhh 16)
                           (set_flag (flags fhh) TRFLAG_REVERSE_NUM))) TRFLAG_REVERSE_SUFFIX)
      with false by (destruct signed; reflexivity).
    replace (has (flags (with_flags (with_int_bitlen fh 16)
                           (set_flag (flags fh) TRFLAG_REVERSE_NUM))) TRFLAG_REVERSE_PREFIX)
      with false by (destruct signed; reflexivity).
    replace (has (flags (with_flags (with_int_bitlen fh 16)
                           (set_flag (flags fh) TRFLAG_REVERSE_NUM))) TRFLAG_REVERSE_NUM)
      with true by (destruct signed; reflexivity).
    replace (has (flags (with_flags (with_int_bitlen fh 16)
                           (set_flag (flags fh) TRFLAG_REVERSE_NUM))) TRFLAG_REVERSE_SUFFIX)
      with false by (destruct signed; reflexivity).
    reflexivity. }
  split; [exact (Hgen true)|]. split; [exact (Hgen false)|].
  split; [eexists; repeat split; reflexivity|].
  split; [vm_compute; reflexivity | vm_compute; reflexivity].
Qed.

(** X12: on a field without separate sign, with neither the zero-pad
    nor the left-adjust flag and a width in the range of a non-negative
    [int], [yalc_pf_field_out_simple] emits exactly what
    [yalc_pf_field_out] emits. *)
Theorem simple_formatter_agrees_on_plain_fields
        (fld : field_data) (fi : format_info) (out : output_info) :
  Z.land (Z.shiftr (flags fi) 1) 3 = 0 ->
  sign_char fld = NUL ->
  0 <= width fi <= INT_MAX ->
  field_width fld fi < 2 ^ 31 ->
  yalc_pf_field_out_simple fld fi out = yalc_pf_field_out fld fi out.
Proof.
  intros Hf Hs Hw Hfw. unfold INT_MAX in Hw.
  pose proof (field_width_nonneg fld fi) as H0.
  unfold yalc_pf_field_out_simple, yalc_pf_field_out.
  rewrite Hf, Hs. change (0 =? 0) with true. change (Ascii.eqb NUL NUL) with true.
  cbv iota.
  assert (E : width_pad_simple fld fi = width_pad_of fld fi).
  { unfold width_pad_simple, width_pad_of.
    rewrite (s32_small (field_width fld fi)) by lia.
    rewrite (u64_small (width fi)) by lia. reflexivity. }
  rewrite E. reflexivity.
Qed.

Lemma simple_formatter_agrees_on_plain_fields_witness :
  let fld := mk_fld (chars "24") (chars "-") [] NUL in
  let fi := mk_fi TRFLAG_REVERSE_NUM 6 0 0 0 0 RADIX_DEC in
  let out := mk_out None 0 0 [] in
  Z.land (Z.shiftr (flags fi) 1) 3 = 0
  /\ sign_char fld = NUL
  /\ 0 <= width fi <= INT_MAX
  /\ field_width fld fi < 2 ^ 31
  /\ console (yalc_pf_field_out fld fi out) = chars "   -42"
  /\ yalc_pf_field_out_simple fld fi out = yalc_pf_field_out fld fi out.
Proof.
  intros fld fi out.
  assert (H1 : Z.land (Z.shiftr (flags fi) 1) 3 = 0) by reflexivity.
  assert (H2 : sign_char fld = NUL) by reflexivity.
  assert (H3 : 0 <= width fi <= INT_MAX) by (vm_compute; split; discriminate).
  assert (H4 : field_width fld fi < 2 ^ 31) by (vm_compute; reflexivity).
  split; [exact H1|]. split; [exact H2|]. split; [exact H3|]. split; [exact H4|].
  split; [vm_compute; reflexivity|].
  exact (simple_formatter_agrees_on_plain_fields fld fi out H1 H2 H3 H4).
Defined.

(** ** The arithmetic helpers of ryu.c *)

Lemma floor_log_run_sound (lo b : Z) (f : Z -> Z) (n : nat) :
  forall p l, 0 <= p -> 0 <= l ->
    floor_log_run lo b f n p (b ^ p) l (lo ^ l) = true ->
    forall q, p <= q < p + Z.of_nat n -> lo ^ f q <= b ^ q < lo ^ (f q + 1).
Proof.
  induction n as [|n IH]; intros p l Hp Hl Hrun q Hq; [lia|].
  cbn [floor_log_run] in Hrun. cbv zeta in Hrun.
  apply andb_true_iff in Hrun as [Hrun H4]. apply andb_true_iff in Hrun as [Hrun H3].
  apply andb_true_iff in Hrun as [H1 H2].
  apply Z.leb_le in H1. apply Z.leb_le in H2. apply Z.ltb_lt in H3.
  assert (Hlw : lo ^ l * lo ^ (f p - l) = lo ^ f p).
  { rewrite <- Z.pow_add_r by lia. f_equal. lia. }
  assert (Hfp : 0 <= f p) by lia.
  rewrite Hlw in *.
  destruct (Z.eq_dec q p) as [-> | Hne].
  - rewrite Z.pow_add_r, Z.pow_1_r, Z.mul_comm by lia. lia.
  - apply (IH (p + 1) (f p)); [lia | lia | | lia].
    rewrite (Z.pow_add_r b p 1), Z.pow_1_r, (Z.mul_comm (b ^ p)) by lia. exact H4.
Qed.

(** X13: the three fixed-point logarithms of [ryu.c] are exact on
    their ranges: [Log10ofPow2 p] is the integer part of the decimal
    logarithm of [2^p] for [0 <= p <= 1650], [Log10ofPow5 p] that of
    [5^p] for [0 <= p <= 2620], and [Log2ofPow5 p] the integer part of
    the binary logarithm of [5^p] for [0 <= p <= 3528], with
    [CeilLog2ofPow5] one above it; at [p = 3529] [Log2ofPow5] is one too
    small. *)
Theorem ryu_logarithms_are_exact :
  (forall p, 0 <= p <= 1650 ->
     10 ^ Ryu.Log10ofPow2 p <= 2 ^ p < 10 ^ (Ryu.Log10ofPow2 p + 1))
  /\ (forall p, 0 <= p <= 2620 ->
        10 ^ Ryu.Log10ofPow5 p <= 5 ^ p < 10 ^ (Ryu.Log10ofPow5 p + 1))
  /\ (forall p, 0 <= p <= 3528 ->
        2 ^ Ryu.Log2ofPow5 p <= 5 ^ p < 2 ^ (Ryu.Log2ofPow5 p + 1))
  /\ 2 ^ (Ryu.Log2ofPow5 3529 + 1) <= 5 ^ 3529.
Proof.
  split; [|split; [|split]].
  - intros p Hp.
    apply (floor_log_run_sound 10 2 Ryu.Log10ofPow2 1651 0 0); [lia | lia | | lia].
    vm_compute. reflexivity.
  - intros p Hp.
    apply (floor_log_run_sound 10 5 Ryu.Log10ofPow5 2621 0 0); [lia | lia | | lia].
    vm_compute. reflexivity.
  - intros p Hp.
    apply (floor_log_run_sound 2 5 Ryu.Log2ofPow5 3529 0 0); [lia | lia | | lia].
    vm_compute. reflexivity.
  - apply Z.leb_le. vm_compute. reflexivity.
Qed.

(** One step of the division by 5 through the modular inverse. *)
Lemma inverse_of_5_step (v : Z) :
  0 <= v < 2 ^ 64 ->
  (u64 (v * Ryu.m_inv_5) <= Ryu.max_div_5 -> v = 5 * u64 (v * Ryu.m_inv_5))
  /\ (Ryu.max_div_5 < u64 (v * Ryu.m_inv_5) -> v mod 5 <> 0).
Proof.
  intros Hv. unfold u64, Ryu.m_inv_5, Ryu.max_div_5.
  change (2 ^ 64) with 18446744073709551616 in *.
  pose proof (Z.div_mod (v * 14757395258967641293) 18446744073709551616 ltac:(lia)) as Hd.
  pose proof (Z.mod_pos_bound (v * 14757395258967641293) 18446744073709551616 ltac:(lia)) as Hb.
  set (q := v * 14757395258967641293 / 18446744073709551616) in *.
  set (r := (v * 14757395258967641293) mod 18446744073709551616) in *.
  clearbody q r.
  split.
  - intros Hr. lia.
  - intros Hr Hm.
    pose proof (Z.div_mod v 5 ltac:(lia)) as Hd5. rewrite Hm in Hd5.
    set (k := v / 5) in *. clearbody k. lia.
Qed.

Lemma pow5_factor_spec (fuel : nat) :
  forall val count,
    0 < val < 5 ^ Z.of_nat fuel -> val < 2 ^ 64 ->
    0 <= count -> count + Z.of_nat fuel < 2 ^ 32 ->
    exists k, 0 <= k
              /\ Ryu.pow5_factor fuel val count = Ok (count + k)
              /\ (5 ^ k | val) /\ ~ (5 ^ (k + 1) | val).
Proof.
  induction fuel as [|fuel IH]; intros val count Hv Hv64 Hc Hcf.
  - simpl in Hv. lia.
  - rewrite Nat2Z.inj_succ, Z.pow_succ_r in Hv by lia.
    cbn [Ryu.pow5_factor].
    destruct (inverse_of_5_step val ltac:(lia)) as [Hdiv Hnot].
    pose proof (u64_range (val * Ryu.m_inv_5)) as Hr.
    destruct (Z.ltb_spec Ryu.max_div_5 (u64 (val * Ryu.m_inv_5))) as [Hgt|Hle].
    + exists 0. split; [lia|]. split; [f_equal; lia|]. split.
      * exists val. change (5 ^ 0) with 1. lia.
      * change (5 ^ (0 + 1)) with 5. intros [x Hx]. apply (Hnot Hgt).
        rewrite Hx. apply Z.mod_mul. lia.
    + specialize (Hdiv Hle).
      set (v' := u64 (val * Ryu.m_inv_5)) in *. clearbody v'.
      destruct (IH v' (u32 (count + 1))) as (k & Hk & Hrun & Hd & Hn).
      * lia.
      * lia.
      * unfold u32. apply Z.mod_pos_bound. lia.
      * unfold u32. rewrite Z.mod_small by lia. lia.
      * exists (k + 1). split; [lia|]. split; [|split].
        -- rewrite Hrun. unfold u32. rewrite Z.mod_small by lia. f_equal. lia.
        -- replace (5 ^ (k + 1)) with (5 * 5 ^ k)
             by (rewrite Z.pow_add_r, Z.pow_1_r by lia; lia).
           rewrite Hdiv. apply Z.mul_divide_mono_l. exact Hd.
        -- intros Hx. apply Hn.
           replace (5 ^ (k + 1 + 1)) with (5 * 5 ^ (k + 1)) in Hx
             by (rewrite (Z.pow_add_r 5 (k + 1) 1), Z.pow_1_r by lia; lia).
           rewrite Hdiv in Hx.
           exact (proj1 (Z.mul_divide_cancel_l (5 ^ (k + 1)) v' 5 ltac:(lia)) Hx).
Qed.

(** X14: [DivisibleByPow5 val p] decides whether [5^p] divides [val],
    for every non-zero 64-bit [val] and every [p]; on [val = 0] its loop
    never ends, whatever the fuel. *)
Theorem divisible_by_pow5_decides_divisibility :
  (forall val p, 0 < val < 2 ^ 64 -> 0 <= p ->
     exists b, Ryu.DivisibleByPow5 val p = Ok b /\ (b = true <-> (5 ^ p | val)))
  /\ (forall fuel count, Ryu.pow5_factor fuel 0 count = Diverge).
Proof.
  split.
  - intros val p Hv Hp. unfold Ryu.DivisibleByPow5.
    destruct (pow5_factor_spec 64 val 0) as (k & Hk & Hrun & Hd & Hn).
    + change (5 ^ Z.of_nat 64) with (5 ^ 64).
      assert (2 ^ 64 < 5 ^ 64) by (vm_compute; reflexivity). lia.
    + lia.
    + lia.
    + change (Z.of_nat 64) with 64. lia.
    + rewrite Hrun. cbn [bind]. eexists. split; [reflexivity|].
      rewrite Z.add_0_l. rewrite Z.leb_le. split.
      * intros Hle. apply Z.divide_trans with (5 ^ k); [|exact Hd].
        exists (5 ^ (k - p)). rewrite <- Z.pow_add_r by lia. f_equal. lia.
      * intros Hdp. destruct (Z_le_gt_dec p k) as [|Hgt]; [assumption|].
        exfalso. apply Hn. apply Z.divide_trans with (5 ^ p); [|exact Hdp].
        exists (5 ^ (p - (k + 1))). rewrite <- Z.pow_add_r by lia. f_equal. lia.
  - induction fuel as [|fuel IH]; intros count; [reflexivity|].
    cbn [Ryu.pow5_factor]. change (u64 (0 * Ryu.m_inv_5)) with 0.
    change (Ryu.max_div_5 <? 0) with false. cbv iota. apply IH.
Qed.

(** X15: [DivisibleByPow2 val p] decides whether [2^p] divides [val]
    for [p] below 64, and [MulShift64 a b j] is the product of [a] and
    the 128-bit factor [b], shifted right by [j] and cut to 64 bits, for
    [64 <= j < 192]. *)
Theorem ryu_bit_helpers_are_exact :
  (forall val p, 0 <= val -> 0 <= p < 64 ->
     exists b, Ryu.DivisibleByPow2 val p = Ok b /\ (b = true <-> (2 ^ p | val)))
  /\ (forall a b0 b1 j,
        0 <= a < 2 ^ 64 -> 0 <= b0 < 2 ^ 64 -> 0 <= b1 < 2 ^ 64 -> 64 <= j < 192 ->
        Ryu.MulShift64 a (b0, b1) j = Ok (u64 (a * (b0 + 2 ^ 64 * b1) / 2 ^ j))).
Proof.
  split.
  - intros val p Hv Hp. unfold Ryu.DivisibleByPow2, Ryu.shl.
    destruct (Z.leb_spec 0 p); [|lia]. destruct (Z.ltb_spec p 64); [|lia].
    cbn [andb bind]. eexists. split; [reflexivity|].
    rewrite Z.shiftl_1_l.
    assert (Hpw : 0 < 2 ^ p < 2 ^ 64).
    { split; [apply Z.pow_pos_nonneg; lia | apply Z.pow_lt_mono_r; lia]. }
    rewrite Z.mod_small by lia. rewrite u64_small by lia.
    replace (2 ^ p - 1) with (Z.ones p) by (rewrite Z.ones_equiv; lia).
    rewrite Z.land_ones by lia. rewrite Z.eqb_eq.
    rewrite <- Z.mod_divide by lia. reflexivity.
  - intros a b0 b1 j Ha H0 H1 Hj. unfold Ryu.MulShift64, Ryu.shr. cbn [fst snd].
    assert (Hs : s32 (j - 64) = j - 64) by (apply s32_small; lia).
    rewrite Hs.
    destruct (Z.leb_spec 0 (j - 64)); [|lia]. destruct (Z.ltb_spec (j - 64) 128); [|lia].
    cbn [andb bind]. do 2 f_equal.
    assert (Hc0 : u128 (a * b0) = a * b0).
    { unfold u128. apply Z.mod_small. change (2 ^ 128) with (2 ^ 64 * 2 ^ 64). nia. }
    assert (Hc2 : u128 (a * b1) = a * b1).
    { unfold u128. apply Z.mod_small. change (2 ^ 128) with (2 ^ 64 * 2 ^ 64). nia. }
    rewrite Hc0, Hc2. rewrite !Z.shiftr_div_pow2 by lia.
    assert (Hq : 0 <= a * b0 / 2 ^ 64 < 2 ^ 64).
    { split; [apply Z.div_pos; nia | apply Z.div_lt_upper_bound; nia]. }
    assert (Hsum : u128 (a * b0 / 2 ^ 64 + a * b1) = a * b0 / 2 ^ 64 + a * b1).
    { unfold u128. apply Z.mod_small. change (2 ^ 128) with (2 ^ 64 * 2 ^ 64). nia. }
    rewrite Hsum.
    replace (a * (b0 + 2 ^ 64 * b1)) with (a * b0 + a * b1 * 2 ^ 64) by ring.
    replace (2 ^ j) with (2 ^ 64 * 2 ^ (j - 64))
      by (rewrite <- Z.pow_add_r by lia; f_equal; lia).
    rewrite <- Z.div_div by (try apply Z.pow_pos_nonneg; lia).
    rewrite Z.div_add by lia. reflexivity.
Qed.

Lemma forallb_range (f : Z -> bool) (n : nat) :
  forallb f (map Z.of_nat (seq 0 n)) = true ->
  forall p, 0 <= p < Z.of_nat n -> f p = true.
Proof.
  intros H p Hp. rewrite forallb_forall in H. apply H.
  apply in_map_iff. exists (Z.to_nat p). split; [lia|].
  apply in_seq. lia.
Qed.

(** X16: the compressed tables give back the exact factors: for
    [0 <= p <= 326] [Pow5Inv2k p] is the 125 leading bits of [5^p], and
    for [0 <= p <= 291] [Pow2kInvPow5 p] is the 125-bit scaled inverse
    of [5^p] plus one, each as two 64-bit words. *)
Theorem ryu_tables_give_the_exact_powers :
  (forall p, 0 <= p <= 326 ->
     exists b, Ryu.Pow5Inv2k p = Ok b /\ wide b = pow5_bits p
               /\ 0 <= fst b < 2 ^ 64 /\ 0 <= snd b < 2 ^ 64)
  /\ (forall p, 0 <= p <= 291 ->
        exists b, Ryu.Pow2kInvPow5 p = Ok b /\ wide b = pow5_inv_bits p
                  /\ 0 <= fst b < 2 ^ 64 /\ 0 <= snd b < 2 ^ 64).
Proof.
  assert (Hspec : forall f g p, table_entry_is f g p = true ->
            exists b, f p = Ok b /\ wide b = g p
                      /\ 0 <= fst b < 2 ^ 64 /\ 0 <= snd b < 2 ^ 64).
  { intros f g p. unfold table_entry_is. destruct (f p) as [b| |]; try discriminate.
    intros H. repeat (apply andb_true_iff in H as [H ?]).
    exists b. split; [reflexivity|]. lia. }
  split; intros p Hp; apply Hspec.
  - apply (forallb_range (table_entry_is Ryu.Pow5Inv2k pow5_bits) 327); [|lia].
    vm_compute. reflexivity.
  - apply (forallb_range (table_entry_is Ryu.Pow2kInvPow5 pow5_inv_bits) 292); [|lia].
    vm_compute. reflexivity.
Qed.

(** ** Exact conversions and rounding *)

Lemma strip_zeros_spec (fuel : nat) :
  forall f e,
    0 < f < 10 ^ Z.of_nat fuel -> 0 <= e -> e + Z.of_nat fuel < 2 ^ 31 ->
    exists e' f',
      Ryu.strip_zeros fuel f e = Ok (e', f')
      /\ f' * 10 ^ (e' - e) = f /\ f' mod 10 <> 0 /\ e <= e'.
Proof.
  induction fuel as [|fuel IH]; intros f e Hf He Hb.
  - simpl in Hf. lia.
  - rewrite Nat2Z.inj_succ, Z.pow_succ_r in Hf by lia.
    cbn [Ryu.strip_zeros].
    destruct (Z.eqb_spec (f mod 10) 0) as [E|E]; cbn [negb].
    + pose proof (Z.div_mod f 10 ltac:(lia)) as Hd. rewrite E in Hd.
      destruct (IH (f / 10) (s32 (e + 1))) as (e' & f' & Hrun & Hval & Hm & Hle).
      * lia.
      * rewrite s32_small by lia. lia.
      * rewrite s32_small by lia. lia.
      * rewrite s32_small in * by lia.
        exists e', f'. split; [exact Hrun|]. split; [|split; [exact Hm | lia]].
        replace (e' - e) with (e' - (e + 1) + 1) by lia.
        rewrite Z.pow_add_r, Z.pow_1_r by lia. lia.
    + exists e, f. split; [reflexivity|]. split; [|split; [exact E | lia]].
      rewrite Z.sub_diag. change (10 ^ 0) with 1. lia.
Qed.

Lemma lor_hidden_bit (sig : Z) :
  0 <= sig < 2 ^ 52 -> Z.lor sig (Z.shiftl 1 52) = sig + 2 ^ 52.
Proof.
  intros H. change (Z.shiftl 1 52) with (2 ^ 52).
  assert (Hl : Z.land sig (2 ^ 52) = 0).
  { rewrite <- (Z.mod_small sig (2 ^ 52)) by lia.
    rewrite <- Z.land_ones by lia. rewrite <- Z.land_assoc.
    change (Z.land (Z.ones 52) (2 ^ 52)) with 0. apply Z.land_0_r. }
  rewrite <- Z.lxor_lor by exact Hl. symmetry. apply Z.add_nocarry_lxor. exact Hl.
Qed.

(** X17: a double that is an integer between 2 and [2^52] is
    converted exactly: the digits and the decimal exponent denote that
    integer, and the last digit is not zero. *)
Theorem integral_doubles_convert_exactly (exponent_biased significand : Z) :
  1023 < exponent_biased < 1075 ->
  0 <= significand < 2 ^ 52 ->
  (significand + 2 ^ 52) mod 2 ^ (1075 - exponent_biased) = 0 ->
  exists exponent10 fraction10,
    Ryu.yalc_double_to_decimal exponent_biased significand = Ok (exponent10, fraction10)
    /\ fraction10 * 10 ^ exponent10 = (significand + 2 ^ 52) / 2 ^ (1075 - exponent_biased)
    /\ fraction10 mod 10 <> 0
    /\ 0 <= exponent10.
Proof.
  intros He Hs Hm.
  unfold Ryu.yalc_double_to_decimal.
  destruct (Z.eqb_spec exponent_biased 0) as [|_]; [lia|]. cbn [negb].
  unfold Ryu.EXPONENT_BIAS, Ryu.SIGNIFICAND_BITS.
  assert (He2 : s32 (u32 (exponent_biased - 1023)) = exponent_biased - 1023).
  { unfold u32. rewrite Z.mod_small by lia. apply s32_small. lia. }
  rewrite He2, lor_hidden_bit by assumption.
  destruct (Z.ltb_spec 0 (exponent_biased - 1023)); [|lia].
  destruct (Z.ltb_spec (exponent_biased - 1023) 52); [|lia].
  cbn [andb].
  replace (52 - (exponent_biased - 1023)) with (1075 - exponent_biased) by lia.
  assert (Hmask : Z.land (significand + 2 ^ 52) (Z.shiftl 1 (1075 - exponent_biased) - 1) = 0).
  { rewrite Z.shiftl_1_l.
    replace (2 ^ (1075 - exponent_biased) - 1) with (Z.ones (1075 - exponent_biased))
      by (rewrite Z.ones_equiv; lia).
    rewrite Z.land_ones by lia. exact Hm. }
  rewrite Hmask. change (0 =? 0) with true. cbv iota.
  rewrite Z.shiftr_div_pow2 by lia.
  set (k := 1075 - exponent_biased) in *.
  assert (Hk : 0 < k < 52) by (unfold k; lia).
  assert (Hpk : 0 < 2 ^ k) by (apply Z.pow_pos_nonneg; lia).
  assert (Hv : 0 < (significand + 2 ^ 52) / 2 ^ k < 10 ^ Z.of_nat 64).
  { split.
    - apply Z.div_str_pos. split; [lia|].
      assert (2 ^ k <= 2 ^ 52) by (apply Z.pow_le_mono_r; lia). lia.
    - apply Z.div_lt_upper_bound; [lia|].
      change (10 ^ Z.of_nat 64) with (10 ^ 64).
      assert (2 ^ 53 < 10 ^ 64) by (vm_compute; reflexivity).
      change (2 ^ 53) with (2 * 2 ^ 52) in *. nia. }
  destruct (strip_zeros_spec 64 _ 0 Hv ltac:(lia)) as (e' & f' & Hrun & Hval & Hmod & Hle).
  { change (Z.of_nat 64) with 64. lia. }
  exists e', f'. rewrite Z.sub_0_r in Hval. auto.
Qed.

Lemma integral_doubles_convert_exactly_witness :
  1023 < 1035 < 1075 /\ 0 <= 0x9000000000000 < 2 ^ 52
  /\ (0x9000000000000 + 2 ^ 52) mod 2 ^ (1075 - 1035) = 0
  /\ Ryu.yalc_double_to_decimal 1035 0x9000000000000 = Ok (2, 64)
  /\ exists exponent10 fraction10,
       Ryu.yalc_double_to_decimal 1035 0x9000000000000 = Ok (exponent10, fraction10)
       /\ fraction10 * 10 ^ exponent10 = (0x9000000000000 + 2 ^ 52) / 2 ^ (1075 - 1035)
       /\ fraction10 mod 10 <> 0
       /\ 0 <= exponent10.
Proof.
  assert (H1 : 1023 < 1035 < 1075) by lia.
  assert (H2 : 0 <= 0x9000000000000 < 2 ^ 52) by lia.
  assert (H3 : (0x9000000000000 + 2 ^ 52) mod 2 ^ (1075 - 1035) = 0)
    by (vm_compute; reflexivity).
  split; [exact H1|]. split; [exact H2|]. split; [exact H3|].
  split; [vm_compute; reflexivity|].
  exact (integral_doubles_convert_exactly 1035 0x9000000000000 H1 H2 H3).
Defined.

Lemma POW10_exact (n : Z) : 0 <= n <= 19 -> Ryu.POW10 n = Ok (10 ^ n).
Proof.
  intros Hn. rewrite <- (Z2Nat.id n) by lia.
  assert (Hk : (Z.to_nat n < 20)%nat) by lia.
  revert Hk. generalize (Z.to_nat n). intros k Hk.
  do 20 (destruct k as [|k]; [vm_compute; reflexivity|]).
  lia.
Qed.

Lemma land_1_odd (q : Z) : nz (Z.land q 1) = Z.odd q.
Proof.
  unfold nz. change 1 with (Z.ones 1) at 1. rewrite Z.land_ones by lia.
  change (2 ^ 1) with 2. rewrite Zmod_odd. destruct (Z.odd q); reflexivity.
Qed.

(** X18: [yalc_round_to_digits] rounds to the nearest multiple of the
    power of ten it removes, a tie going to the even quotient, whenever
    it removes between 1 and 19 digits and fewer than 17 are asked for. *)
Theorem round_to_digits_rounds_to_nearest_even (value current_digits desired_digits : Z) :
  0 <= value < 2 ^ 64 ->
  0 <= desired_digits < current_digits ->
  desired_digits < 17 ->
  current_digits - desired_digits <= 19 ->
  exists r,
    Ryu.yalc_round_to_digits value current_digits desired_digits = Ok r
    /\ 2 * Z.abs (value - r * 10 ^ (current_digits - desired_digits))
       <= 10 ^ (current_digits - desired_digits)
    /\ (2 * Z.abs (value - r * 10 ^ (current_digits - desired_digits))
        = 10 ^ (current_digits - desired_digits) -> Z.even r = true).
Proof.
  intros Hv Hd H17 Hn. unfold Ryu.yalc_round_to_digits.
  destruct (Z.leb_spec current_digits desired_digits); [lia|].
  destruct (Z.leb_spec 17 desired_digits); [lia|]. cbn [orb].
  rewrite s32_small by lia.
  assert (Hn1 : 1 <= current_digits - desired_digits) by lia.
  set (n := current_digits - desired_digits) in *. clearbody n.
  assert (Hn019 : 0 <= n <= 19) by (clear - Hn Hn1; lia).
  rewrite (POW10_exact n Hn019). cbn [bind].
  assert (Hp : 10 ^ n = 2 * (5 * 10 ^ (n - 1))).
  { replace n with (n - 1 + 1) at 1 by lia. rewrite Z.pow_add_r, Z.pow_1_r by lia. lia. }
  assert (Hpos : 0 < 10 ^ (n - 1)) by (apply Z.pow_pos_nonneg; lia).
  assert (Hle : 10 ^ n <= 10 ^ 19) by (apply Z.pow_le_mono_r; lia).
  assert (Hhpos : 0 < 5 * 10 ^ (n - 1)) by lia.
  set (d := 10 ^ n) in *. set (h := 5 * 10 ^ (n - 1)) in *. clearbody d h.
  destruct (Z.eqb_spec d 0); [lia|].
  assert (Hh : d / 2 = h) by (subst d; rewrite Z.mul_comm, Z.div_mul; lia).
  rewrite Hh.
  pose proof (Z.div_mod value d ltac:(lia)) as Hdm.
  pose proof (Z.mod_pos_bound value d ltac:(lia)) as Hmb.
  assert (Hq : 0 <= value / d) by (apply Z.div_pos; lia).
  assert (Hq64 : value / d + 1 < 2 ^ 64).
  { assert (value / d <= value) by (apply Z.div_le_upper_bound; nia).
    destruct (Z.eq_dec (value / d) value) as [E|E]; [|lia].
    rewrite E in Hdm. nia. }
  set (q := value / d) in *. set (r := value mod d) in *. clearbody q r.
  rewrite land_1_odd.
  destruct (Z.ltb_spec h r) as [Hgt|Hle2].
  - exists (u64 (q + 1)). split; [reflexivity|]. rewrite u64_small by lia.
    split; [nia|]. intros He. exfalso. nia.
  - destruct (Z.eqb_spec r h) as [Heq|Hne]; cbn [andb].
    + destruct (Z.odd q) eqn:Ho.
      * exists (u64 (q + 1)). split; [reflexivity|]. rewrite u64_small by lia.
        split; [nia|]. intros _.
        replace (q + 1) with (Z.succ q) by lia. rewrite Z.even_succ. exact Ho.
      * exists q. split; [reflexivity|]. split; [nia|]. intros _.
        rewrite <- Z.negb_odd, Ho. reflexivity.
    + exists q. split; [reflexivity|]. split; [nia|]. intros He. exfalso. nia.
Qed.

Lemma round_to_digits_rounds_to_nearest_even_witness :
  0 <= 12345 < 2 ^ 64 /\ 0 <= 3 < 5 /\ 3 < 17 /\ 5 - 3 <= 19
  /\ Ryu.yalc_round_to_digits 12345 5 3 = Ok 123
  /\ Ryu.yalc_round_to_digits 12350 5 3 = Ok 124
  /\ Ryu.yalc_round_to_digits 12450 5 3 = Ok 124
  /\ exists r,
       Ryu.yalc_round_to_digits 12345 5 3 = Ok r
       /\ 2 * Z.abs (12345 - r * 10 ^ (5 - 3)) <= 10 ^ (5 - 3)
       /\ (2 * Z.abs (12345 - r * 10 ^ (5 - 3)) = 10 ^ (5 - 3) -> Z.even r = true).
Proof.
  assert (H1 : 0 <= 12345 < 2 ^ 64) by lia.
  assert (H2 : 0 <= 3 < 5) by lia.
  assert (H3 : 3 < 17) by lia.
  assert (H4 : 5 - 3 <= 19) by lia.
  split; [exact H1|]. split; [exact H2|]. split; [exact H3|]. split; [exact H4|].
  split; [vm_compute; reflexivity|]. split; [vm_compute; reflexivity|].
  split; [vm_compute; reflexivity|].
  exact (round_to_digits_rounds_to_nearest_even 12345 5 3 H1 H2 H3 H4).
Defined.

(** ** Doubles the renderer does not convert *)

Lemma exponent_field_range (bits : Z) :
  0 <= Z.land (Z.shiftr bits 52) 0x7FF < 2 ^ 11.
Proof.
  change 0x7FF with (Z.ones 11). rewrite Z.land_ones by lia.
  apply Z.mod_pos_bound. lia.
Qed.

Lemma putd_exponent_field (bits : Z) :
  u32 (Z.land (Z.shiftr bits Ryu.SIGNIFICAND_BITS) EXPONENT_MASK) = Ryu.exponent_of bits.
Proof.
  unfold Ryu.exponent_of. change Ryu.SIGNIFICAND_BITS with 52.
  change EXPONENT_MASK with 0x7FF.
  pose proof (exponent_field_range bits). unfold u32. apply Z.mod_small. lia.
Qed.

(** The decimal forms of [yalc_putd] go through the conversion core. *)
Lemma putd_render_undefined (bits : Z) (fi : format_info) :
  1077 <= Ryu.exponent_of bits <= 1080 ->
  Z.land (Z.shiftr (flags fi) 22) 7 < 4 ->
  putd_render bits fi = Undef.
Proof.
  intros He Hf. unfold putd_render. rewrite putd_exponent_field.
  set (fi1 := if negb (has (flags fi) SFLAG_HAS_PREC)
              then with_precision fi (if has (flags fi) SFLAG_IS_AFORM then 13 else 6)
              else fi).
  set (fi2 := if 4096 <? precision fi1 then with_precision fi1 4096 else fi1).
  assert (Hfl : flags fi2 = flags fi).
  { unfold fi2, fi1. destruct (4096 <? _); destruct (negb _); reflexivity. }
  destruct (putd_sign _ fi2) as [prefix sign_char].
  change EXPONENT_MASK with 2047.
  destruct (Z.eqb_spec (Ryu.exponent_of bits) 2047); [lia|].
  destruct (Z.eqb_spec (Ryu.exponent_of bits) 0); [lia|]. cbn [andb].
  rewrite Hfl.
  destruct (Z.ltb_spec (Z.land (Z.shiftr (flags fi) 22) 7) 4); [|lia].
  rewrite double_to_decimal_undefined_range by assumption. reflexivity.
Qed.

Lemma dispatch_double (target : abi) (fi : format_info) (bits : Z) (va : va_list) :
  Z.land (flags fi) TFLAG_MASK = TFLAG_DOUBLE ->
  has (flags fi) LFLAG_LONG = false ->
  dispatch target fi (VDouble bits :: va)
  = let! (fld, fi') := putd_render (u64 bits) fi in Ok (Field fld fi' va).
Proof.
  intros Ht Hl. unfold dispatch. rewrite Ht.
  change (TFLAG_DOUBLE =? TFLAG_INT) with false.
  change (TFLAG_DOUBLE =? TFLAG_DOUBLE) with true. cbv iota.
  rewrite Hl. reflexivity.
Qed.

(** X19: every double from [2^54] up to, but not including, [2^58] (and
    its negative) has no defined output in the decimal forms: the call
    runs into the table read of the conversion core. *)
Theorem decimal_forms_are_undefined_from_2_pow_54 (target : abi) (bits : Z) (c : ascii) :
  0 <= bits < 2 ^ 64 ->
  1077 <= Ryu.exponent_of bits <= 1080 ->
  In c ["e"; "f"; "g"; "E"; "F"; "G"]%char ->
  Ryu.d2d bits = Undef
  /\ vprintf target [] (String "%" (String c EmptyString)) [VDouble bits] = Undef.
Proof.
  intros Hb He Hc. split.
  { unfold Ryu.d2d. apply double_to_decimal_undefined_range. exact He. }
  unfold vprintf, yalc_xprintf. cbn [String.length xprintf_loop].
  unfold loop_body at 1.
  change (Ascii.eqb "%" "%") with true. cbn [negb].
  assert (Hp : exists fi,
             yalc_pf_parse_format (String "%" (String c EmptyString)) [VDouble bits]
             = Ok (1, fi, [VDouble bits])
             /\ Ascii.eqb c "%" = false
             /\ Z.land (flags fi) TFLAG_MASK = TFLAG_DOUBLE
             /\ has (flags fi) LFLAG_LONG = false
             /\ Z.land (Z.shiftr (flags fi) 22) 7 < 4).
  { cbn [In] in Hc.
    destruct Hc as [<- | [<- | [<- | [<- | [<- | [<- | []]]]]]]; eexists;
      (split; [vm_compute; reflexivity|]); repeat split; reflexivity. }
  destruct Hp as (fi & Hp & Hne & Ht & Hl & Hf).
  rewrite Hne, Hp. cbn [bind]. change (1 <? 0) with false. cbv iota.
  rewrite dispatch_double by assumption.
  rewrite u64_small by assumption.
  rewrite putd_render_undefined by assumption. reflexivity.
Qed.

Lemma decimal_forms_are_undefined_from_2_pow_54_witness :
  0 <= 0x436FFFFFFFFFFFFF < 2 ^ 64
  /\ 1077 <= Ryu.exponent_of 0x436FFFFFFFFFFFFF <= 1080
  /\ In "g"%char ["e"; "f"; "g"; "E"; "F"; "G"]%char
  /\ Ryu.d2d 0x436FFFFFFFFFFFFF = Undef
  /\ vprintf lp64 [] "%g" [VDouble 0x436FFFFFFFFFFFFF] = Undef.
Proof.
  assert (H1 : 0 <= 0x436FFFFFFFFFFFFF < 2 ^ 64) by lia.
  assert (H2 : 1077 <= Ryu.exponent_of 0x436FFFFFFFFFFFFF <= 1080)
    by (vm_compute; split; discriminate).
  assert (H3 : In "g"%char ["e"; "f"; "g"; "E"; "F"; "G"]%char)
    by (right; right; left; reflexivity).
  split; [exact H1|]. split; [exact H2|]. split; [exact H3|].
  exact (decimal_forms_are_undefined_from_2_pow_54 lp64 0x436FFFFFFFFFFFFF "g" H1 H2 H3).
Defined.

Lemma putd_render_special (bits : Z) (fi : format_info) :
  Ryu.exponent_of bits = 2047 ->
  has (flags fi) FFLAG_ZERO_PAD = false ->
  has (flags fi) FFLAG_ADDSIGN = false ->
  has (flags fi) FFLAG_NOPSIGN = false ->
  exists fi',
    putd_render bits fi
    = Ok (mk_fld (if nz (Ryu.significand_of bits)
                  then nan_str (has (flags fi) SFLAG_UPPERCASE)
                  else inf_str (has (flags fi) SFLAG_UPPERCASE))
                 (if nz (Z.land bits (Z.shiftl 1 63)) then ["-"%char] else []) [] NUL,
          fi')
    /\ flags fi' = flags fi /\ width fi' = width fi
    /\ num_pad fi' = num_pad fi /\ suffix_pad fi' = suffix_pad fi.
Proof.
  intros He Hz Ha Hn. unfold putd_render. rewrite putd_exponent_field.
  set (fi1 := if negb (has (flags fi) SFLAG_HAS_PREC)
              then with_precision fi (if has (flags fi) SFLAG_IS_AFORM then 13 else 6)
              else fi).
  set (fi2 := if 4096 <? precision fi1 then with_precision fi1 4096 else fi1).
  assert (Hfl : flags fi2 = flags fi /\ width fi2 = width fi
                /\ num_pad fi2 = num_pad fi /\ suffix_pad fi2 = suffix_pad fi).
  { unfold fi2, fi1. destruct (4096 <? _); destruct (negb _); repeat split; reflexivity. }
  destruct Hfl as (Hfl & Hw & Hnp & Hsp).
  unfold putd_sign. rewrite Hfl, Hz, Ha, Hn. cbn [negb andb].
  rewrite He. change (2047 =? EXPONENT_MASK) with true. cbv iota.
  exists (with_precision fi2 0).
  split; [|repeat split; assumption].
  change (Z.land bits SIGNIFICAND_MASK) with (Ryu.significand_of bits).
  destruct (nz (Z.land bits (Z.shiftl 1 63))); reflexivity.
Qed.

(** X20: an infinity is printed as [inf] and a NaN as [nan], with a
    minus sign when the sign bit is set, by each of the conversions
    [%f], [%e], [%g] and [%a], and in capitals by [%F], [%E], [%G] and
    [%A]; no digit of the payload or of the precision appears. *)
Theorem infinities_and_nans_print_by_name (target : abi) (bits : Z) (c : ascii) :
  0 <= bits < 2 ^ 64 ->
  Ryu.exponent_of bits = 2047 ->
  (In c ["f"; "e"; "g"; "a"]%char ->
   printed (vprintf target [] (String "%" (String c EmptyString)) [VDouble bits])
   = let text := (if Z.testbit bits 63 then ["-"%char] else [])
                 ++ (if Ryu.significand_of bits =? 0 then chars "inf" else chars "nan") in
     Some (len text, string_of_list_ascii text))
  /\ (In c ["F"; "E"; "G"; "A"]%char ->
      printed (vprintf target [] (String "%" (String c EmptyString)) [VDouble bits])
      = let text := (if Z.testbit bits 63 then ["-"%char] else [])
                    ++ (if Ryu.significand_of bits =? 0 then chars "INF" else chars "NAN") in
        Some (len text, string_of_list_ascii text)).
Proof.
  intros Hb He.
  assert (Hsign : nz (Z.land bits (Z.shiftl 1 63)) = Z.testbit bits 63).
  { unfold nz. change (Z.shiftl 1 63) with (2 ^ 63).
    destruct (Z.testbit bits 63) eqn:Ht.
    - destruct (Z.eqb_spec (Z.land bits (2 ^ 63)) 0) as [E|E]; [|reflexivity].
      exfalso. apply (f_equal (fun z => Z.testbit z 63)) in E.
      rewrite Z.land_spec, Ht, Z.pow2_bits_true, Z.bits_0 in E by lia. discriminate.
    - destruct (Z.eqb_spec (Z.land bits (2 ^ 63)) 0) as [E|E]; [reflexivity|].
      exfalso. apply E. apply Z.bits_inj'. intros n Hn.
      rewrite Z.land_spec, Z.bits_0.
      destruct (Z.eq_dec n 63) as [-> | Hne]; [rewrite Ht; reflexivity|].
      rewrite Z.pow2_bits_false by lia. apply andb_false_r. }
  assert (Hgen : forall (up : bool) (c0 : ascii) (fi : format_info),
            c0 <> "%"%char ->
            yalc_pf_parse_format (String "%" (String c0 EmptyString)) [VDouble bits]
            = Ok (1, fi, [VDouble bits]) ->
            Z.land (flags fi) TFLAG_MASK = TFLAG_DOUBLE ->
            Z.land (Z.shiftr (flags fi) 1) 3 = 0 ->
            Z.land (flags fi) (Z.lor LFLAG_LONG (Z.lor FFLAG_ADDSIGN
                      (Z.lor FFLAG_NOPSIGN TRFLAG_MASK))) = 0 ->
            has (flags fi) SFLAG_UPPERCASE = up ->
            width fi = 0 -> num_pad fi = 0 -> suffix_pad fi = 0 ->
            printed (vprintf target [] (String "%" (String c0 EmptyString)) [VDouble bits])
            = let text := (if Z.testbit bits 63 then ["-"%char] else [])
                          ++ (if Ryu.significand_of bits =? 0
                              then inf_str up else nan_str up) in
              Some (len text, string_of_list_ascii text)).
  { intros up c0 fi Hc0 Hp Ht Hpad Hoff Hup Hw Hnp Hsp.
    assert (Hbit : forall m, Z.land (Z.lor LFLAG_LONG (Z.lor FFLAG_ADDSIGN
                      (Z.lor FFLAG_NOPSIGN TRFLAG_MASK))) m = m ->
                   has (flags fi) m = false).
    { intros m Hm. unfold has, nz. rewrite <- Hm, Z.land_assoc, Hoff. reflexivity. }
    assert (Hzp : has (flags fi) FFLAG_ZERO_PAD = false).
    { unfold has, nz.
      assert (E : Z.land (flags fi) FFLAG_ZERO_PAD = 0).
      { apply Z.bits_inj'. intros n Hn. rewrite Z.bits_0, Z.land_spec.
        destruct (Z.eq_dec n 1) as [-> | Hne].
        - apply (f_equal (fun z => Z.testbit z 0)) in Hpad.
          rewrite Z.land_spec, Z.shiftr_spec, Z.bits_0 in Hpad by lia.
          change (Z.testbit 3 0) with true in Hpad. rewrite andb_true_r in Hpad.
          change (0 + 1) with 1 in Hpad. rewrite Hpad. reflexivity.
        - change FFLAG_ZERO_PAD with (2 ^ 1). rewrite Z.pow2_bits_false by lia.
          apply andb_false_r. }
      rewrite E. reflexivity. }
    destruct (putd_render_special bits fi He Hzp (Hbit _ eq_refl) (Hbit _ eq_refl))
      as (fi' & Hr & Hfl & Hw' & Hnp' & Hsp').
    assert (Hd : dispatch target fi [VDouble bits]
                 = Ok (Field (mk_fld (if nz (Ryu.significand_of bits)
                                      then nan_str (has (flags fi) SFLAG_UPPERCASE)
                                      else inf_str (has (flags fi) SFLAG_UPPERCASE))
                                     (if nz (Z.land bits (Z.shiftl 1 63))
                                      then ["-"%char] else []) [] NUL) fi' [])).
    { rewrite dispatch_double by (try assumption; apply Hbit; reflexivity).
      rewrite u64_small by assumption. rewrite Hr. reflexivity. }
    unfold vprintf.
    rewrite (xprintf_one_directive target c0 EmptyString _ _ _ _ _ _ _ _ Hc0 Hp eq_refl Hd).
    rewrite field_out_emit, plain_field_text by congruence.
    cbn [prefix inbuff suffix]. rewrite Hfl.
    rewrite !(Hbit _ eq_refl). cbn [dir_text]. rewrite app_nil_r.
    rewrite Hsign, Hup.
    assert (Hnz : nz (Ryu.significand_of bits) = negb (Ryu.significand_of bits =? 0))
      by reflexivity.
    rewrite Hnz.
    set (text := (if Z.testbit bits 63 then ["-"%char] else [])
                 ++ (if negb (Ryu.significand_of bits =? 0)
                     then nan_str up else inf_str up)).
    assert (Htext : text = (if Z.testbit bits 63 then ["-"%char] else [])
                           ++ (if Ryu.significand_of bits =? 0
                               then inf_str up else nan_str up)).
    { unfold text. destruct (Ryu.significand_of bits =? 0); reflexivity. }
    assert (Hlen : len text <= 4).
    { unfold text, len. rewrite length_app.
      destruct (Z.testbit bits 63); destruct (negb _); destruct up; cbn; lia. }
    rewrite emit_on_console by lia.
    cbn [printed chars_out console]. rewrite s32_small by (unfold len in *; lia).
    cbv zeta. rewrite <- Htext. reflexivity. }
  split; intros Hc; cbn [In] in Hc.
  - destruct Hc as [<- | [<- | [<- | [<- | []]]]];
      eapply (Hgen false); try reflexivity; try discriminate.
  - destruct Hc as [<- | [<- | [<- | [<- | []]]]];
      eapply (Hgen true); try reflexivity; try discriminate.
Qed.

Lemma infinities_and_nans_print_by_name_witness :
  0 <= 0xFFF8000000000000 < 2 ^ 64
  /\ Ryu.exponent_of 0xFFF8000000000000 = 2047
  /\ printed (vprintf lp64 [] "%e" [VDouble 0xFFF8000000000000]) = Some (4, "-nan"%string)
  /\ (In "e"%char ["f"; "e"; "g"; "a"]%char ->
      printed (vprintf lp64 [] "%e" [VDouble 0xFFF8000000000000])
      = let text := (if Z.testbit 0xFFF8000000000000 63 then ["-"%char] else [])
                    ++ (if Ryu.significand_of 0xFFF8000000000000 =? 0
                        then chars "inf" else chars "nan") in
        Some (len text, string_of_list_ascii text))
  /\ (In "e"%char ["F"; "E"; "G"; "A"]%char ->
      printed (vprintf lp64 [] "%e" [VDouble 0xFFF8000000000000])
      = let text := (if Z.testbit 0xFFF8000000000000 63 then ["-"%char] else [])
                    ++ (if Ryu.significand_of 0xFFF8000000000000 =? 0
                        then chars "INF" else chars "NAN") in
        Some (len text, string_of_list_ascii text)).
Proof.
  assert (H1 : 0 <= 0xFFF8000000000000 < 2 ^ 64) by lia.
  assert (H2 : Ryu.exponent_of 0xFFF8000000000000 = 2047) by reflexivity.
  split; [exact H1|]. split; [exact H2|]. split; [vm_compute; reflexivity|].
  exact (infinities_and_nans_print_by_name lp64 0xFFF8000000000000 "e" H1 H2).
Defined.

(** ** The searches of string.c *)

Lemma testbit_split (a A n : Z) :
  0 <= a < 256 -> 0 <= n ->
  Z.testbit (a + 256 * A) n = if n <? 8 then Z.testbit a n else Z.testbit A (n - 8).
Proof.
  intros Ha Hn. destruct (Z.ltb_spec n 8) as [Hlt|Hge].
  - rewrite <- (Z.mod_pow2_bits_low (a + 256 * A) 8 n) by lia.
    change (2 ^ 8) with 256.
    replace ((a + 256 * A) mod 256) with a; [reflexivity|].
    rewrite (Z.mul_comm 256 A), Z.mod_add by lia.
    symmetry. apply Z.mod_small. lia.
  - replace n with ((n - 8) + 8) at 1 by lia.
    rewrite <- Z.div_pow2_bits by lia.
    change (2 ^ 8) with 256.
    replace ((a + 256 * A) / 256) with A; [reflexivity|].
    rewrite (Z.mul_comm 256 A), Z.div_add by lia.
    rewrite Z.div_small by lia. lia.
Qed.

Lemma byte_log2 (c : Z) : 0 <= c < 256 -> Z.log2 c < 8.
Proof.
  intros Hc. destruct (Z.eq_dec c 0) as [->|Hz]; [reflexivity|].
  apply Z.log2_lt_pow2; lia.
Qed.

Lemma land_byte_range (c d : Z) : 0 <= c < 256 -> 0 <= d -> 0 <= Z.land c d < 256.
Proof.
  intros Hc Hd.
  assert (H0 : 0 <= Z.land c d) by (apply Z.land_nonneg; lia).
  split; [exact H0|].
  destruct (Z.eq_dec (Z.land c d) 0) as [->|Hz]; [lia|].
  assert (Hl : Z.log2 (Z.land c d) < 8).
  { eapply Z.le_lt_trans; [apply Z.log2_land; lia|].
    pose proof (byte_log2 c Hc). lia. }
  apply Z.log2_lt_pow2 in Hl; lia.
Qed.

Lemma lxor_byte_range (a b : Z) : 0 <= a < 256 -> 0 <= b < 256 -> 0 <= Z.lxor a b < 256.
Proof.
  intros Ha Hb.
  assert (H0 : 0 <= Z.lxor a b) by (apply Z.lxor_nonneg; lia).
  split; [exact H0|].
  destruct (Z.eq_dec (Z.lxor a b) 0) as [->|Hz]; [lia|].
  assert (Hl : Z.log2 (Z.lxor a b) < 8).
  { eapply Z.le_lt_trans; [apply Z.log2_lxor; lia|].
    pose proof (byte_log2 a Ha). pose proof (byte_log2 b Hb). lia. }
  apply Z.log2_lt_pow2 in Hl; lia.
Qed.

Lemma land_split (a b A B : Z) :
  0 <= a < 256 -> 0 <= b < 256 ->
  Z.land (a + 256 * A) (b + 256 * B) = Z.land a b + 256 * Z.land A B.
Proof.
  intros Ha Hb.
  pose proof (land_byte_range a b Ha ltac:(lia)) as Hab.
  apply Z.bits_inj'. intros n Hn.
  rewrite Z.land_spec, !testbit_split by lia.
  destruct (n <? 8); rewrite Z.land_spec; reflexivity.
Qed.

Lemma lxor_split (a b A B : Z) :
  0 <= a < 256 -> 0 <= b < 256 ->
  Z.lxor (a + 256 * A) (b + 256 * B) = Z.lxor a b + 256 * Z.lxor A B.
Proof.
  intros Ha Hb.
  pose proof (lxor_byte_range a b Ha Hb) as Hab.
  apply Z.bits_inj'. intros n Hn.
  rewrite Z.lxor_spec, !testbit_split by lia.
  destruct (n <? 8); rewrite Z.lxor_spec; reflexivity.
Qed.

Lemma mod_split (c Y : Z) (k : nat) :
  0 <= c < 256 ->
  (c + 256 * Y) mod 256 ^ Z.of_nat (S k) = c + 256 * (Y mod 256 ^ Z.of_nat k).
Proof.
  intros Hc.
  assert (Hp : 0 < 256 ^ Z.of_nat k) by (apply Z.pow_pos_nonneg; lia).
  replace (256 ^ Z.of_nat (S k)) with (256 * 256 ^ Z.of_nat k)
    by (rewrite Nat2Z.inj_succ, Z.pow_succ_r by lia; reflexivity).
  pose proof (Z.mod_pos_bound Y (256 ^ Z.of_nat k) Hp) as Hm.
  pose proof (Z.div_mod Y (256 ^ Z.of_nat k) ltac:(lia)) as Hd.
  symmetry. apply (Z.mod_unique_pos _ _ (Y / 256 ^ Z.of_nat k)); [nia|].
  rewrite Hd at 1. ring.
Qed.

Lemma ones_word_range (n : nat) : 0 <= ones_word n < 256 ^ Z.of_nat n.
Proof.
  induction n as [|n IH]; [cbn; lia|].
  replace (256 ^ Z.of_nat (S n)) with (256 * 256 ^ Z.of_nat n)
    by (rewrite Nat2Z.inj_succ, Z.pow_succ_r by lia; reflexivity).
  cbn [ones_word]. lia.
Qed.

Lemma le_val_range (l : list Z) :
  Forall (fun b => 0 <= b < 256) l -> 0 <= le_val l < 256 ^ Z.of_nat (length l).
Proof.
  induction 1 as [|b r Hb Hr IH]; [cbn; lia|].
  replace (256 ^ Z.of_nat (length (b :: r))) with (256 * 256 ^ Z.of_nat (length r))
    by (cbn [length]; rewrite Nat2Z.inj_succ, Z.pow_succ_r by lia; reflexivity).
  cbn [le_val]. lia.
Qed.

(** One step of the zero-byte test, on the least significant byte. *)
Lemma has_zero_step (n : nat) (c d X Y : Z) :
  0 <= c < 256 -> 0 <= d < 256 ->
  has_zero_n (S n) (c + 256 * X) (d + 256 * Y)
  = Z.land (Z.land c d) 128 + 256 * has_zero_n n X Y.
Proof.
  intros Hc Hd. unfold has_zero_n.
  rewrite !mod_split by lia.
  cbn [ones_word].
  replace (128 * (1 + 256 * ones_word n)) with (128 + 256 * (128 * ones_word n)) by ring.
  pose proof (land_byte_range c d Hc ltac:(lia)) as Hcd.
  rewrite (land_split c d) by lia.
  rewrite (land_split (Z.land c d) 128) by lia.
  reflexivity.
Qed.

Lemma bit7 (c : Z) : 0 <= c < 256 -> Z.land c 128 = if 128 <=? c then 128 else 0.
Proof.
  intros Hc.
  assert (Hk : (Z.to_nat c < 256)%nat) by lia.
  rewrite <- (Z2Nat.id c) by lia.
  revert Hk. generalize (Z.to_nat c). intros k Hk.
  do 256 (destruct k as [|k]; [reflexivity|]). lia.
Qed.

Lemma has_zero_n_nonneg (n : nat) (X Y : Z) : 0 <= has_zero_n n X Y.
Proof.
  unfold has_zero_n. apply Z.land_nonneg. right.
  pose proof (ones_word_range n). lia.
Qed.

Lemma byte_no_borrow (b : Z) :
  1 <= b < 256 -> Z.land (Z.land (b - 1) (255 - b)) 128 = 0.
Proof.
  intros Hb.
  assert (Hk : (Z.to_nat (b - 1) < 255)%nat) by lia.
  replace b with (Z.of_nat (Z.to_nat (b - 1)) + 1) by lia.
  revert Hk. generalize (Z.to_nat (b - 1)). intros k Hk.
  do 255 (destruct k as [|k]; [reflexivity|]). lia.
Qed.

Lemma pow256_succ (n : nat) : 256 ^ Z.of_nat (S n) = 256 * 256 ^ Z.of_nat n.
Proof. rewrite Nat2Z.inj_succ, Z.pow_succ_r by lia. reflexivity. Qed.

(** The zero-byte test is exact: it is not zero exactly when one of the
    bytes is. *)
Lemma has_zero_list (l : list Z) :
  Forall (fun b => 0 <= b < 256) l ->
  has_zero_n (length l) (le_val l - ones_word (length l)) (Z.lnot (le_val l)) <> 0
  <-> In 0 l.
Proof.
  induction 1 as [|b r Hb Hr IH].
  - cbn. split; [intros H; exfalso; apply H; reflexivity|intros []].
  - cbn [length le_val ones_word].
    pose proof (has_zero_n_nonneg (length r) (le_val r - ones_word (length r))
                  (Z.lnot (le_val r))) as Hnn.
    destruct (Z.eq_dec b 0) as [->|Hb0].
    + replace (0 + 256 * le_val r - (1 + 256 * ones_word (length r)))
        with (255 + 256 * (le_val r - ones_word (length r) - 1)) by ring.
      replace (Z.lnot (0 + 256 * le_val r)) with (255 + 256 * Z.lnot (le_val r))
        by (unfold Z.lnot, Z.pred; ring).
      rewrite has_zero_step by lia.
      pose proof (has_zero_n_nonneg (length r) (le_val r - ones_word (length r) - 1)
                    (Z.lnot (le_val r))) as Hnn'.
      change (Z.land (Z.land 255 255) 128) with 128.
      split; [intros _; left; reflexivity|intros _; lia].
    + replace (b + 256 * le_val r - (1 + 256 * ones_word (length r)))
        with ((b - 1) + 256 * (le_val r - ones_word (length r))) by ring.
      replace (Z.lnot (b + 256 * le_val r)) with ((255 - b) + 256 * Z.lnot (le_val r))
        by (unfold Z.lnot, Z.pred; ring).
      rewrite has_zero_step by lia.
      rewrite byte_no_borrow by lia.
      split.
      * intros Hne. right. apply IH. lia.
      * intros [H0|Hin]; [congruence|]. apply IH in Hin. lia.
Qed.

Lemma le_val_repeat (byte : Z) (n : nat) : le_val (repeat byte n) = ones_word n * byte.
Proof. induction n as [|n IH]; cbn [repeat le_val ones_word]; [reflexivity|]. rewrite IH. ring. Qed.

Lemma lxor_le_val (byte : Z) (l : list Z) :
  0 <= byte < 256 -> Forall (fun b => 0 <= b < 256) l ->
  Z.lxor (le_val l) (le_val (repeat byte (length l)))
  = le_val (map (fun b => Z.lxor b byte) l).
Proof.
  intros Hbyte. induction 1 as [|b r Hb Hr IH]; [reflexivity|].
  cbn [length repeat le_val map].
  rewrite lxor_split by lia. rewrite IH. reflexivity.
Qed.

Lemma map_lxor_bytes (byte : Z) (l : list Z) :
  0 <= byte < 256 -> Forall (fun b => 0 <= b < 256) l ->
  Forall (fun b => 0 <= b < 256) (map (fun b => Z.lxor b byte) l).
Proof.
  intros Hbyte. induction 1 as [|b r Hb Hr IH]; constructor; auto.
  apply lxor_byte_range; lia.
Qed.

Lemma in_map_lxor (byte : Z) (l : list Z) :
  In 0 (map (fun b => Z.lxor b byte) l) <-> In byte l.
Proof.
  rewrite in_map_iff. split.
  - intros [b [Hx Hin]]. apply Z.lxor_eq in Hx. subst. exact Hin.
  - intros Hin. exists byte. split; [apply Z.lxor_nilpotent|exact Hin].
Qed.

(** *** Loads *)

Lemma u8_byte (x : Z) : 0 <= u8 x < 256.
Proof. unfold u8. change (2 ^ 8) with 256. apply Z.mod_pos_bound. lia. Qed.

Lemma byte_at_range (m : Str.memory) (a : Z) : 0 <= byte_at m a < 256.
Proof. unfold byte_at. destruct (m a); [apply u8_byte|lia]. Qed.

Lemma load_byte_mapped (m : Str.memory) (a : Z) :
  mapped m a -> Str.load_byte m a = Ok (byte_at m a).
Proof. unfold mapped, Str.load_byte, byte_at. destruct (m a); [reflexivity|congruence]. Qed.

Lemma load_bytes_mapped (m : Str.memory) (n : nat) :
  forall a, (forall i, 0 <= i < Z.of_nat n -> mapped m (a + i)) ->
            Str.load_bytes m a n = Ok (le_val (bytes_from m a n)).
Proof.
  induction n as [|n IH]; intros a Hm; [reflexivity|].
  cbn [Str.load_bytes bytes_from le_val].
  rewrite load_byte_mapped by (replace a with (a + 0) by lia; apply Hm; lia).
  cbn [bind]. rewrite IH; [reflexivity|].
  intros i Hi. replace (a + 1 + i) with (a + (i + 1)) by lia. apply Hm. lia.
Qed.

Lemma load_bytes_unmapped (m : Str.memory) (n : nat) :
  forall a i, 0 <= i < Z.of_nat n -> m (a + i) = None -> Str.load_bytes m a n = Undef.
Proof.
  induction n as [|n IH]; intros a i Hi Hnone; [lia|].
  cbn [Str.load_bytes]. unfold Str.load_byte at 1.
  destruct (Z.eq_dec i 0) as [->|Hi0].
  - replace (a + 0) with a in Hnone by lia. rewrite Hnone. reflexivity.
  - destruct (m a); [|reflexivity]. cbn [bind].
    rewrite (IH (a + 1) (i - 1)); [reflexivity|lia|].
    replace (a + 1 + (i - 1)) with (a + i) by lia. exact Hnone.
Qed.

Lemma bytes_from_length (m : Str.memory) (n : nat) :
  forall a, length (bytes_from m a n) = n.
Proof. induction n as [|n IH]; intros a; cbn; [reflexivity|]. rewrite IH. reflexivity. Qed.

Lemma bytes_from_range (m : Str.memory) (n : nat) :
  forall a, Forall (fun b => 0 <= b < 256) (bytes_from m a n).
Proof.
  induction n as [|n IH]; intros a; cbn [bytes_from]; constructor;
    [apply byte_at_range|apply IH].
Qed.

Lemma bytes_from_in (m : Str.memory) (b : Z) (n : nat) :
  forall a, In b (bytes_from m a n)
            <-> exists i, 0 <= i < Z.of_nat n /\ byte_at m (a + i) = b.
Proof.
  induction n as [|n IH]; intros a; cbn [bytes_from In].
  - split; [intros []|intros [i [Hi _]]; lia].
  - rewrite IH. split.
    + intros [H0|[i [Hi Hb]]].
      * exists 0. split; [lia|]. replace (a + 0) with a by lia. exact H0.
      * exists (i + 1). split; [lia|]. replace (a + (i + 1)) with (a + 1 + i) by lia. exact Hb.
    + intros [i [Hi Hb]]. destruct (Z.eq_dec i 0) as [->|Hi0].
      * left. replace (a + 0) with a in Hb by lia. exact Hb.
      * right. exists (i - 1). split; [lia|].
        replace (a + 1 + (i - 1)) with (a + i) by lia. exact Hb.
Qed.

(** *** The word test of the target *)

Section WordTest.

Variable target : abi.
Hypothesis word_size : sizeof_long target = 8 \/ sizeof_long target = 4.

Let W : Z := Str.WORD_SIZE target.

Lemma word_size_cases : W = 8 \/ W = 4.
Proof. exact word_size. Qed.

Lemma HAS_ZERO_n (x : Z) :
  Str.HAS_ZERO target x
  = has_zero_n (Z.to_nat W) (x - ones_word (Z.to_nat W)) (Z.lnot x).
Proof.
  unfold Str.HAS_ZERO, Str.ulong, Str.ONES, Str.HIGHS, has_zero_n, W, Str.WORD_SIZE.
  destruct word_size as [-> | ->]; reflexivity.
Qed.

Lemma HAS_ZERO_spec (l : list Z) :
  length l = Z.to_nat W -> Forall (fun b => 0 <= b < 256) l ->
  (Str.HAS_ZERO target (le_val l) <> 0 <-> In 0 l).
Proof.
  intros Hlen Hl. rewrite HAS_ZERO_n, <- Hlen. apply has_zero_list. exact Hl.
Qed.

Lemma mask_repeat (byte : Z) :
  0 <= byte < 256 ->
  Str.ulong target (Str.ONES target * byte) = le_val (repeat byte (Z.to_nat W)).
Proof.
  intros Hb. rewrite le_val_repeat.
  unfold Str.ulong, Str.ONES, W, Str.WORD_SIZE.
  destruct word_size as [-> | ->].
  - change (0x0101010101010101 * byte mod 2 ^ 64 = 0x0101010101010101 * byte).
    apply Z.mod_small. lia.
  - change (0x01010101 * byte mod 2 ^ 32 = 0x01010101 * byte).
    apply Z.mod_small. lia.
Qed.

Lemma HAS_ZERO_lxor_spec (byte : Z) (l : list Z) :
  0 <= byte < 256 ->
  length l = Z.to_nat W -> Forall (fun b => 0 <= b < 256) l ->
  (Str.HAS_ZERO target (Z.lxor (le_val l) (Str.ulong target (Str.ONES target * byte))) <> 0
   <-> In byte l).
Proof.
  intros Hb Hlen Hl.
  rewrite mask_repeat by exact Hb. rewrite <- Hlen.
  rewrite lxor_le_val by assumption.
  rewrite <- in_map_lxor.
  apply HAS_ZERO_spec; [rewrite length_map; exact Hlen|].
  apply map_lxor_bytes; assumption.
Qed.

Lemma land_mask (a : Z) : Z.land a (Str.WORD_MASK target) = a mod W.
Proof.
  unfold Str.WORD_MASK, W, Str.WORD_SIZE.
  destruct word_size as [-> | ->].
  - change (8 - 1) with (Z.ones 3). rewrite Z.land_ones by lia. reflexivity.
  - change (4 - 1) with (Z.ones 2). rewrite Z.land_ones by lia. reflexivity.
Qed.

Lemma load_ulong_mapped (m : Str.memory) (a : Z) :
  (forall i, 0 <= i < W -> mapped m (a + i)) ->
  Str.load_ulong target m a = Ok (le_val (bytes_from m a (Z.to_nat W))).
Proof.
  intros Hm. apply load_bytes_mapped. intros i Hi. apply Hm.
  pose proof word_size_cases. lia.
Qed.

End WordTest.

(** *** strlen *)

Section StrlenFacts.

Variable target : abi.
Hypothesis word_size : sizeof_long target = 8 \/ sizeof_long target = 4.
Variable m : Str.memory.
Variables p n : Z.

Let W : Z := Str.WORD_SIZE target.

Hypothesis Hn : 0 <= n.
Hypothesis Hnz : forall a, p <= a < p + n -> byte_at m a <> 0.
Hypothesis Hz : byte_at m (p + n) = 0.
Hypothesis Hmap : forall a, p <= a < W * ((p + n) / W + 1) -> mapped m a.

Lemma W_pos : 0 < W.
Proof. pose proof (word_size_cases target word_size). fold W in H. lia. Qed.

Lemma word_bound (x : Z) : W * (x / W) <= x < W * (x / W + 1).
Proof.
  pose proof W_pos as HW.
  pose proof (Z.mul_div_le x W HW). pose proof (Z.mul_succ_div_gt x W HW).
  unfold Z.succ in *. lia.
Qed.

Lemma aligned_word (a x : Z) :
  a mod W = 0 -> a <= x -> a + W <= W * (x / W + 1).
Proof.
  intros Ha Hle. pose proof W_pos as HW.
  pose proof (Z.div_le_mono a x W HW Hle) as Hd.
  pose proof (Z.div_mod a W ltac:(lia)) as Heq. rewrite Ha in Heq. nia.
Qed.

Lemma strlen_align_spec (fuel : nat) :
  forall str, p <= str <= p + n -> p + n - str < Z.of_nat fuel ->
    Str.strlen_align target fuel m p str = Ok (Str.Found n)
    \/ exists a, Str.strlen_align target fuel m p str = Ok (Str.Next a)
                 /\ str <= a <= p + n /\ a mod W = 0.
Proof.
  induction fuel as [|fuel IH]; intros str Hs Hf; [lia|].
  cbn [Str.strlen_align]. rewrite land_mask by exact word_size. fold W.
  unfold nz. destruct (Z.eqb_spec (str mod W) 0) as [Hal|Hal]; cbn [negb].
  - right. exists str. split; [reflexivity|]. split; [lia|exact Hal].
  - rewrite load_byte_mapped by (apply Hmap; pose proof (word_bound (p + n)); lia).
    cbn [bind].
    destruct (Z.eqb_spec (byte_at m str) 0) as [Hb|Hb].
    + left. destruct (Z.eq_dec str (p + n)) as [->|Hne].
      * do 2 f_equal. lia.
      * exfalso. apply (Hnz str); [lia|exact Hb].
    + assert (Hne : str <> p + n) by congruence.
      destruct (IH (str + 1) ltac:(lia) ltac:(lia)) as [H|[a [H [Ha Hal']]]].
      * left. exact H.
      * right. exists a. split; [exact H|]. split; [lia|exact Hal'].
Qed.

Lemma strlen_words_spec (fuel : nat) :
  forall a, a mod W = 0 -> p <= a <= p + n -> p + n - a < Z.of_nat fuel ->
    exists a', Str.strlen_words target fuel m a = Ok a' /\ a <= a' <= p + n.
Proof.
  pose proof W_pos as HW.
  induction fuel as [|fuel IH]; intros a Hal Ha Hf; [lia|].
  cbn [Str.strlen_words].
  pose proof (aligned_word a (p + n) Hal ltac:(lia)) as Hw.
  rewrite (load_ulong_mapped target word_size) by (intros i Hi; apply Hmap; fold W in Hi; lia).
  cbn [bind]. fold W.
  pose proof (HAS_ZERO_spec target word_size (bytes_from m a (Z.to_nat W))
                (bytes_from_length _ _ _) (bytes_from_range _ _ _)) as Hspec.
  unfold nz. destruct (Z.eqb_spec (Str.HAS_ZERO target (le_val (bytes_from m a (Z.to_nat W)))) 0)
    as [H0|H0]; cbn [negb].
  - assert (Hnot : ~ In 0 (bytes_from m a (Z.to_nat W))) by (intros Hin; apply Hspec in Hin; lia).
    assert (Hlt : a + W <= p + n).
    { destruct (Z_le_gt_dec (a + W) (p + n)) as [|Hgt]; [assumption|].
      exfalso. apply Hnot. apply bytes_from_in. exists (p + n - a).
      split; [lia|]. replace (a + (p + n - a)) with (p + n) by lia. exact Hz. }
    destruct (IH (a + W)) as [a' [H Ha']]; [|lia|lia|].
    + rewrite <- Zplus_mod_idemp_r, Z.mod_same, Z.add_0_r by lia. exact Hal.
    + exists a'. split; [exact H|lia].
  - exists a. split; [reflexivity|lia].
Qed.

Lemma strlen_tail_spec (fuel : nat) :
  forall a, p <= a <= p + n -> p + n - a < Z.of_nat fuel ->
    Str.strlen_tail fuel m a = Ok (p + n).
Proof.
  induction fuel as [|fuel IH]; intros a Ha Hf; [lia|].
  cbn [Str.strlen_tail].
  rewrite load_byte_mapped by (apply Hmap; pose proof (word_bound (p + n)); lia).
  cbn [bind].
  destruct (Z.eqb_spec (byte_at m a) 0) as [Hb|Hb].
  - destruct (Z.eq_dec a (p + n)) as [->|Hne]; [reflexivity|].
    exfalso. apply (Hnz a); [lia|exact Hb].
  - assert (Hne : a <> p + n) by congruence.
    apply IH; lia.
Qed.

Lemma strlen_spec (fuel : nat) :
  p <> 0 -> n < Z.of_nat fuel -> Str.strlen target fuel m p = Ok n.
Proof.
  intros Hp Hf. unfold Str.strlen, Str.NULL.
  destruct (Z.eqb_spec p 0) as [|_]; [contradiction|].
  destruct (strlen_align_spec fuel p ltac:(lia) ltac:(lia)) as [H|[a [H [Ha Hal]]]];
    rewrite H; cbn [bind]; [reflexivity|].
  destruct (strlen_words_spec fuel a Hal ltac:(lia) ltac:(lia)) as [a' [H' Ha']].
  rewrite H'. cbn [bind].
  rewrite (strlen_tail_spec fuel a') by lia. cbn [bind].
  f_equal. lia.
Qed.

End StrlenFacts.

(** *** memchr *)

Section MemchrFacts.

Variable target : abi.
Hypothesis word_size : sizeof_long target = 8 \/ sizeof_long target = 4.
Variable m : Str.memory.
Variables p len e byte : Z.

Let W : Z := Str.WORD_SIZE target.

(** [e] is the index of the first occurrence of [byte], or [len] when
    there is none among the first [len] bytes. *)
Hypothesis Hbyte : 0 <= byte < 256.
Hypothesis He : 0 <= e <= len.
Hypothesis Hne : forall a, p <= a < p + e -> byte_at m a <> byte.
Hypothesis Heq : e < len -> byte_at m (p + e) = byte.
Hypothesis Hmap : forall a, p <= a < p + len -> a < W * ((p + e) / W + 1) -> mapped m a.

Lemma memchr_mapped (a : Z) : p <= a <= p + e -> a < p + len -> mapped m a.
Proof.
  intros Ha Hl. apply Hmap; [lia|].
  pose proof (word_bound target word_size (p + e)). fold W in H. lia.
Qed.

Lemma memchr_hit (a : Z) :
  p <= a <= p + e -> a < p + len -> byte_at m a = byte -> a = p + e /\ e < len.
Proof.
  intros Ha Hl Hb. destruct (Z.eq_dec a (p + e)) as [->|Hd]; [lia|].
  exfalso. apply (Hne a); [lia|exact Hb].
Qed.

Lemma memchr_miss (a : Z) :
  p <= a <= p + e -> a < p + len -> byte_at m a <> byte -> a + 1 <= p + e.
Proof.
  intros Ha Hl Hb. destruct (Z.eq_dec a (p + e)) as [->|Hd]; [|lia].
  exfalso. apply Hb. apply Heq. lia.
Qed.

Lemma memchr_align_spec (fuel : nat) :
  forall src, p <= src <= p + e -> p + len - src < Z.of_nat fuel ->
    (e < len /\ exists r, Str.memchr_align target fuel m byte src (p + len - src)
                           = Ok (Str.Found (p + e), r))
    \/ exists a, Str.memchr_align target fuel m byte src (p + len - src)
                 = Ok (Str.Next a, p + len - a)
                 /\ src <= a <= p + e /\ (a mod W = 0 \/ a = p + len).
Proof.
  induction fuel as [|fuel IH]; intros src Hs Hf; [lia|].
  cbn [Str.memchr_align]. rewrite land_mask by exact word_size. fold W.
  unfold nz. destruct (Z.eqb_spec (src mod W) 0) as [Hal|Hal]; cbn [negb andb].
  - right. exists src. split; [reflexivity|]. split; [lia|left; exact Hal].
  - destruct (Z.ltb_spec 0 (p + len - src)) as [Hrem|Hrem].
    + rewrite load_byte_mapped by (apply memchr_mapped; lia). cbn [bind].
      destruct (Z.eqb_spec (byte_at m src) byte) as [Hb|Hb].
      * left. destruct (memchr_hit src ltac:(lia) ltac:(lia) Hb) as [-> Hlt].
        split; [exact Hlt|eexists; reflexivity].
      * pose proof (memchr_miss src ltac:(lia) ltac:(lia) Hb) as Hnext.
        replace (p + len - src - 1) with (p + len - (src + 1)) by lia.
        destruct (IH (src + 1) ltac:(lia) ltac:(lia)) as [H|[a [H [Ha Hal']]]].
        -- left. exact H.
        -- right. exists a. split; [exact H|]. split; [lia|exact Hal'].
    + right. exists src. split; [reflexivity|]. split; [lia|right; lia].
Qed.

Lemma memchr_words_spec (fuel : nat) :
  forall a, a mod W = 0 \/ a = p + len -> p <= a <= p + e ->
            p + len - a < Z.of_nat fuel ->
    exists a', Str.memchr_words target fuel m (Str.ulong target (Str.ONES target * byte))
                 a (p + len - a) = Ok (a', p + len - a')
               /\ a <= a' <= p + e.
Proof.
  pose proof (W_pos target word_size) as HW. fold W in HW.
  induction fuel as [|fuel IH]; intros a Hal Ha Hf; [lia|].
  cbn [Str.memchr_words]. fold W.
  destruct (Z.leb_spec W (p + len - a)) as [Hrem|Hrem].
  - destruct Hal as [Hal|Hal]; [|lia].
    pose proof (aligned_word target word_size a (p + e) Hal ltac:(lia)) as Hw. fold W in Hw.
    rewrite (load_ulong_mapped target word_size)
      by (intros i Hi; apply Hmap; fold W in Hi; lia).
    cbn [bind]. fold W.
    pose proof (HAS_ZERO_lxor_spec target word_size byte (bytes_from m a (Z.to_nat W)) Hbyte
                  (bytes_from_length _ _ _) (bytes_from_range _ _ _)) as Hspec.
    unfold nz.
    destruct (Z.eqb_spec
                (Str.HAS_ZERO target
                   (Z.lxor (le_val (bytes_from m a (Z.to_nat W)))
                           (Str.ulong target (Str.ONES target * byte)))) 0)
      as [H0|H0]; cbn [negb].
    + assert (Hnot : ~ In byte (bytes_from m a (Z.to_nat W)))
        by (intros Hin; apply Hspec in Hin; lia).
      assert (Hlt : a + W <= p + e).
      { destruct (Z_le_gt_dec (a + W) (p + e)) as [|Hgt]; [assumption|].
        exfalso. apply Hnot. apply bytes_from_in. exists (p + e - a).
        split; [lia|]. replace (a + (p + e - a)) with (p + e) by lia.
        apply Heq. lia. }
      replace (p + len - a - W) with (p + len - (a + W)) by lia.
      destruct (IH (a + W)) as [a' [H Ha']]; [|lia|lia|].
      * left. rewrite <- Zplus_mod_idemp_r, Z.mod_same, Z.add_0_r by lia. exact Hal.
      * exists a'. split; [exact H|lia].
    + exists a. split; [reflexivity|lia].
  - exists a. split; [reflexivity|lia].
Qed.

Lemma memchr_tail_spec (fuel : nat) :
  forall a, p <= a <= p + e -> p + len - a < Z.of_nat fuel ->
    Str.memchr_tail fuel m byte a (p + len - a)
    = Ok (if e <? len then p + e else Str.NULL).
Proof.
  induction fuel as [|fuel IH]; intros a Ha Hf; [lia|].
  cbn [Str.memchr_tail].
  destruct (Z.ltb_spec 0 (p + len - a)) as [Hrem|Hrem].
  - rewrite load_byte_mapped by (apply memchr_mapped; lia). cbn [bind].
    destruct (Z.eqb_spec (byte_at m a) byte) as [Hb|Hb].
    + destruct (memchr_hit a ltac:(lia) ltac:(lia) Hb) as [-> Hlt].
      destruct (Z.ltb_spec e len); [reflexivity|lia].
    + pose proof (memchr_miss a ltac:(lia) ltac:(lia) Hb) as Hnext.
      replace (p + len - a - 1) with (p + len - (a + 1)) by lia.
      apply IH; lia.
  - destruct (Z.ltb_spec e len); [lia|reflexivity].
Qed.

Lemma memchr_spec (fuel : nat) (c : Z) :
  u8 c = byte -> p <> 0 -> len < Z.of_nat fuel ->
  Str.memchr target fuel m p c len = Ok (if e <? len then p + e else Str.NULL).
Proof.
  intros Hc Hp Hf. unfold Str.memchr, Str.NULL.
  destruct (Z.eqb_spec p 0) as [|_]; [contradiction|]. cbn [orb].
  destruct (Z.eqb_spec len 0) as [Hl0|Hl0].
  - destruct (Z.ltb_spec e len); [lia|reflexivity].
  - rewrite Hc. cbv zeta.
    replace len with (p + len - p) at 1 by lia.
    destruct (memchr_align_spec fuel p ltac:(lia) ltac:(lia))
      as [[Hlt [r H]]|[a [H [Ha Hal]]]];
      rewrite H; cbn [bind].
    + destruct (Z.ltb_spec e len); [reflexivity|lia].
    + destruct (memchr_words_spec fuel a Hal ltac:(lia) ltac:(lia)) as [a' [H' Ha']].
      rewrite H'. cbn [bind].
      apply memchr_tail_spec; lia.
Qed.

End MemchrFacts.

(** *** The bytes of a word *)

Lemma word_bytes_length (n : nat) : forall x, length (word_bytes n x) = n.
Proof. induction n as [|n IH]; intros x; cbn; [reflexivity|]. rewrite IH. reflexivity. Qed.

Lemma word_bytes_range (n : nat) :
  forall x, Forall (fun b => 0 <= b < 256) (word_bytes n x).
Proof.
  induction n as [|n IH]; intros x; cbn [word_bytes]; constructor; [|apply IH].
  apply Z.mod_pos_bound. lia.
Qed.

Lemma le_val_word_bytes (n : nat) :
  forall x, 0 <= x < 256 ^ Z.of_nat n -> le_val (word_bytes n x) = x.
Proof.
  induction n as [|n IH]; intros x Hx.
  - cbn in *. lia.
  - rewrite pow256_succ in Hx. cbn [word_bytes le_val].
    rewrite IH.
    + pose proof (Z.div_mod x 256 ltac:(lia)). lia.
    + split; [apply Z.div_pos; lia|]. apply Z.div_lt_upper_bound; lia.
Qed.

Lemma word_bytes_in (b : Z) (n : nat) :
  forall x, In b (word_bytes n x)
            <-> exists i, 0 <= i < Z.of_nat n /\ (x / 256 ^ i) mod 256 = b.
Proof.
  induction n as [|n IH]; intros x; cbn [word_bytes In].
  - split; [intros []|intros [i [Hi _]]; lia].
  - rewrite IH. split.
    + intros [H0|[i [Hi Hb]]].
      * exists 0. split; [lia|]. rewrite Z.pow_0_r, Z.div_1_r. exact H0.
      * exists (i + 1). split; [lia|].
        rewrite Z.pow_add_r, Z.pow_1_r, (Z.mul_comm (256 ^ i)) by lia.
        rewrite <- Z.div_div by (try apply Z.pow_pos_nonneg; lia). exact Hb.
    + intros [i [Hi Hb]]. destruct (Z.eq_dec i 0) as [->|Hi0].
      * left. rewrite Z.pow_0_r, Z.div_1_r in Hb. exact Hb.
      * right. exists (i - 1). split; [lia|].
        rewrite Z.div_div by (try apply Z.pow_pos_nonneg; lia).
        replace (256 * 256 ^ (i - 1)) with (256 ^ i); [exact Hb|].
        replace i with ((i - 1) + 1) at 1 by lia.
        rewrite Z.pow_add_r, Z.pow_1_r by lia. ring.
Qed.

Lemma word_pow (target : abi) :
  sizeof_long target = 8 \/ sizeof_long target = 4 ->
  2 ^ (8 * Str.WORD_SIZE target) = 256 ^ Z.of_nat (Z.to_nat (Str.WORD_SIZE target)).
Proof. unfold Str.WORD_SIZE. intros [-> | ->]; reflexivity. Qed.

(** X21: the word test of [string.c] is exact: [HAS_ZERO(x)] is not zero
    exactly when one of the bytes of the word [x] is zero, and with the
    mask of [memchr] ([ONES * byte]) exactly when one of the bytes of
    [x] is [byte]. *)
Theorem word_test_finds_exactly_the_zero_bytes (target : abi) (x byte : Z) :
  sizeof_long target = 8 \/ sizeof_long target = 4 ->
  0 <= x < 2 ^ (8 * Str.WORD_SIZE target) ->
  0 <= byte < 256 ->
  (Str.HAS_ZERO target x <> 0
   <-> exists i, 0 <= i < Str.WORD_SIZE target /\ (x / 256 ^ i) mod 256 = 0)
  /\ (Str.HAS_ZERO target (Z.lxor x (Str.ulong target (Str.ONES target * byte))) <> 0
      <-> exists i, 0 <= i < Str.WORD_SIZE target /\ (x / 256 ^ i) mod 256 = byte).
Proof.
  intros HW Hx Hb. rewrite (word_pow target HW) in Hx.
  assert (HWn : Z.of_nat (Z.to_nat (Str.WORD_SIZE target)) = Str.WORD_SIZE target).
  { unfold Str.WORD_SIZE. destruct HW as [-> | ->]; reflexivity. }
  pose proof (le_val_word_bytes _ x Hx) as Hv.
  pose proof (word_bytes_length (Z.to_nat (Str.WORD_SIZE target)) x) as Hl.
  pose proof (word_bytes_range (Z.to_nat (Str.WORD_SIZE target)) x) as Hr.
  split.
  - rewrite <- Hv at 1. rewrite (HAS_ZERO_spec target HW _ Hl Hr).
    rewrite word_bytes_in, HWn. reflexivity.
  - rewrite <- Hv at 1. rewrite (HAS_ZERO_lxor_spec target HW byte _ Hb Hl Hr).
    rewrite word_bytes_in, HWn. reflexivity.
Qed.

Lemma word_test_finds_exactly_the_zero_bytes_witness :
  Str.HAS_ZERO lp64 0x4142430045464748 <> 0
  /\ Str.HAS_ZERO lp64 0x8180FF0102FE7F80 = 0.
Proof.
  pose proof (word_test_finds_exactly_the_zero_bytes lp64 0x4142430045464748 0
                ltac:(left; reflexivity) ltac:(cbn; lia) ltac:(lia)) as [H _].
  split; [|reflexivity].
  apply H. exists 4. split; [cbn; lia|reflexivity].
Defined.

(** X22: [strlen] returns the index of the first zero byte, provided
    the bytes up to the end of the aligned word that holds it are
    mapped.  It does read that far: from an aligned address it loads
    the whole first word, wherever the string ends in it. *)
Theorem strlen_returns_the_index_of_the_terminator
        (target : abi) (m : Str.memory) (p : Z) (fuel : nat) :
  sizeof_long target = 8 \/ sizeof_long target = 4 ->
  p <> 0 ->
  (forall n,
     0 <= n < Z.of_nat fuel ->
     (forall a, p <= a < p + n -> byte_at m a <> 0) ->
     byte_at m (p + n) = 0 ->
     (forall a, p <= a < Str.WORD_SIZE target * ((p + n) / Str.WORD_SIZE target + 1) ->
                mapped m a) ->
     Str.strlen target fuel m p = Ok n)
  /\ (forall k,
        p mod Str.WORD_SIZE target = 0 -> 0 <= k < Str.WORD_SIZE target ->
        m (p + k) = None -> (0 < fuel)%nat ->
        Str.strlen target fuel m p = Undef).
Proof.
  intros HW Hp. split.
  - intros n Hn Hnz Hz Hmap.
    apply (strlen_spec target HW m p n); try assumption; lia.
  - intros k Hal Hk Hnone Hf.
    unfold Str.strlen, Str.NULL.
    destruct (Z.eqb_spec p 0) as [|_]; [contradiction|].
    destruct fuel as [|fuel]; [lia|].
    cbn [Str.strlen_align]. rewrite (land_mask target HW), Hal. cbn [nz negb Z.eqb bind].
    cbn [Str.strlen_words]. unfold Str.load_ulong.
    rewrite (load_bytes_unmapped m _ p k); [reflexivity| |exact Hnone].
    unfold Str.WORD_SIZE in *. destruct HW as [Hw | Hw]; rewrite Hw in *; cbn; lia.
Qed.

Lemma strlen_returns_the_index_of_the_terminator_witness :
  Str.strlen lp64 3 (mem_of_bytes 4096 [104; 105; 0; 33; 33; 33; 33; 33]) 4096 = Ok 2.
Proof.
  apply (proj1 (strlen_returns_the_index_of_the_terminator lp64
                  (mem_of_bytes 4096 [104; 105; 0; 33; 33; 33; 33; 33]) 4096 3
                  ltac:(left; reflexivity) ltac:(lia)) 2).
  - lia.
  - intros a Ha. assert (Hc : a = 4096 \/ a = 4097) by lia.
    destruct Hc as [-> | ->]; vm_compute; discriminate.
  - reflexivity.
  - intros a Ha. change (Str.WORD_SIZE lp64) with 8 in Ha.
    change ((4096 + 2) / 8) with 512 in Ha.
    unfold mapped, mem_of_bytes. cbn [length].
    destruct (Z.leb_spec 4096 a); [|lia].
    destruct (Z.ltb_spec a (4096 + Z.of_nat 8)); [|lia]. cbn [andb].
    assert (Hk : (Z.to_nat (a - 4096) < 8)%nat) by lia.
    revert Hk. generalize (Z.to_nat (a - 4096)). intros k Hk.
    do 8 (destruct k as [|k]; [discriminate|]). lia.
Defined.

(** X23: [memchr] returns the address of the first byte equal to [c]
    (converted to [unsigned char]) among the first [len], and the null
    pointer when there is none, reading no byte outside those [len] and
    none past the aligned word of the occurrence. *)
Theorem memchr_finds_the_first_occurrence
        (target : abi) (m : Str.memory) (p len e c : Z) (fuel : nat) :
  sizeof_long target = 8 \/ sizeof_long target = 4 ->
  p <> 0 ->
  0 <= e <= len ->
  (forall a, p <= a < p + e -> byte_at m a <> u8 c) ->
  (e < len -> byte_at m (p + e) = u8 c) ->
  (forall a, p <= a < p + len ->
             a < Str.WORD_SIZE target * ((p + e) / Str.WORD_SIZE target + 1) ->
             mapped m a) ->
  len < Z.of_nat fuel ->
  Str.memchr target fuel m p c len = Ok (if e <? len then p + e else Str.NULL).
Proof.
  intros HW Hp He Hne Heq Hmap Hf.
  apply (memchr_spec target HW m p len e (u8 c)); try assumption.
  - apply u8_byte.
  - reflexivity.
Qed.

Lemma memchr_finds_the_first_occurrence_witness :
  Str.memchr lp64 9 (mem_of_bytes 4099 [104; 105; 33; 0; 7]) 4099 (256 + 33) 8 = Ok 4101.
Proof.
  apply (memchr_finds_the_first_occurrence lp64 (mem_of_bytes 4099 [104; 105; 33; 0; 7])
           4099 8 2 (256 + 33) 9 ltac:(left; reflexivity) ltac:(lia) ltac:(lia)).
  - intros a Ha. assert (Hc : a = 4099 \/ a = 4100) by lia.
    destruct Hc as [-> | ->]; vm_compute; discriminate.
  - intros _. reflexivity.
  - intros a Ha Hw. change (Str.WORD_SIZE lp64) with 8 in Hw.
    change ((4099 + 2) / 8) with 512 in Hw.
    unfold mapped, mem_of_bytes. cbn [length].
    destruct (Z.leb_spec 4099 a); [|lia].
    destruct (Z.ltb_spec a (4099 + Z.of_nat 5)); [|lia]. cbn [andb].
    assert (Hk : (Z.to_nat (a - 4099) < 5)%nat) by lia.
    revert Hk. generalize (Z.to_nat (a - 4099)). intros k Hk.
    do 5 (destruct k as [|k]; [discriminate|]). lia.
  - lia.
Defined.

(** *** Strings in memory *)

Lemma code_range (c : ascii) : 0 <= code c < 256.
Proof.
  unfold code. pose proof (N_ascii_bounded c) as H. lia.
Qed.

Lemma chars_length (s : string) : length (chars s) = String.length s.
Proof. induction s as [|c s IH]; cbn; [reflexivity|]. f_equal. exact IH. Qed.

Lemma holds_string_bytes (m : Str.memory) (p : Z) (s : string) :
  holds_string m p s ->
  (forall a, p <= a < p + strlen s -> byte_at m a <> 0 /\ mapped m a)
  /\ byte_at m (p + strlen s) = 0 /\ mapped m (p + strlen s).
Proof.
  intros [Hc Ht]. split; [|split].
  - intros a Ha. unfold strlen in Ha.
    assert (Hi : (Z.to_nat (a - p) < length (chars s))%nat).
    { rewrite chars_length. lia. }
    destruct (nth_error (chars s) (Z.to_nat (a - p))) as [c|] eqn:E;
      [|apply nth_error_None in E; lia].
    destruct (Hc _ _ E) as [Hm Hnz].
    replace (p + Z.of_nat (Z.to_nat (a - p))) with a in Hm by lia.
    unfold byte_at, mapped. rewrite Hm. split; [|discriminate].
    unfold u8. change (2 ^ 8) with 256.
    rewrite Z.mod_small by apply code_range. exact Hnz.
  - unfold byte_at. rewrite Ht. reflexivity.
  - unfold mapped. rewrite Ht. discriminate.
Qed.

Lemma strn_len_min (s : string) (maxlen : Z) :
  0 <= maxlen < 2 ^ 64 -> len (strn s maxlen) = Z.min (strlen s) maxlen.
Proof.
  intros Hm. unfold strn, len, strlen. rewrite u64_small by lia.
  rewrite length_firstn, chars_length. lia.
Qed.

(** X24: on a memory that holds the string [s] at [p], [strlen] returns
    the length of [s] and [strnlen_s] the length of the prefix the
    string conversion prints, [strnlen(s, maxlen)]; on a null pointer
    they return 0 and [maxlen]. *)
Theorem string_searches_measure_the_string
        (target : abi) (m : Str.memory) (p : Z) (s : string) (maxlen : Z) (fuel : nat) :
  sizeof_long target = 8 \/ sizeof_long target = 4 ->
  0 < p ->
  holds_string m p s ->
  (forall a, p <= a < Str.WORD_SIZE target * ((p + strlen s) / Str.WORD_SIZE target + 1) ->
             mapped m a) ->
  0 <= maxlen < 2 ^ 64 ->
  strlen s < Z.of_nat fuel -> maxlen < Z.of_nat fuel ->
  Str.strlen target fuel m p = Ok (strlen s)
  /\ Str.strnlen_s target fuel m p maxlen = Ok (len (strn s maxlen))
  /\ Str.strlen target fuel m Str.NULL = Ok 0
  /\ Str.strnlen_s target fuel m Str.NULL maxlen = Ok maxlen.
Proof.
  intros HW Hp Hs Hmap Hmax Hf1 Hf2.
  destruct (holds_string_bytes m p s Hs) as (Hbytes & Hterm & Hmt).
  assert (Hlen : 0 <= strlen s) by (unfold strlen; lia).
  split; [|split; [|split; reflexivity]].
  - apply (strlen_spec target HW m p (strlen s)); try assumption; try lia.
    intros a Ha. apply (Hbytes a Ha).
  - unfold Str.strnlen_s.
    rewrite (memchr_spec target HW m p maxlen (Z.min (strlen s) maxlen) 0 ltac:(lia)).
    + cbn [bind]. rewrite strn_len_min by lia.
      destruct (Z.ltb_spec (Z.min (strlen s) maxlen) maxlen) as [Hlt|Hge].
      * unfold nz. destruct (Z.eqb_spec (p + Z.min (strlen s) maxlen) 0); [lia|].
        cbn [negb]. f_equal. lia.
      * cbn. f_equal. lia.
    + lia.
    + intros a Ha Hb. apply (proj1 (Hbytes a ltac:(lia))). exact Hb.
    + intros Hlt. rewrite Z.min_l by lia. exact Hterm.
    + intros a Ha Hw.
      destruct (Z_lt_le_dec a (p + strlen s)) as [Hin|Hout].
      * apply (Hbytes a). lia.
      * apply Hmap. split; [lia|].
        rewrite Z.min_l in Hw by lia. exact Hw.
    + reflexivity.
    + lia.
    + exact Hf2.
Qed.

Lemma string_searches_measure_the_string_witness :
  Str.strlen lp64 8 (mem_of_bytes 4096 [104; 105; 0; 33; 33; 33; 33; 33]) 4096 = Ok 2
  /\ Str.strnlen_s lp64 8 (mem_of_bytes 4096 [104; 105; 0; 33; 33; 33; 33; 33]) 4096 1 = Ok 1.
Proof.
  refine ((fun H => conj (proj1 H) (proj1 (proj2 H)))
            (string_searches_measure_the_string lp64
               (mem_of_bytes 4096 [104; 105; 0; 33; 33; 33; 33; 33]) 4096 "hi" 1 8
               ltac:(left; reflexivity) ltac:(lia) _ _ ltac:(lia) ltac:(reflexivity) ltac:(lia))).
  - split; [|reflexivity].
    intros i c Hi. destruct i as [|[|i]]; cbn in Hi.
    + injection Hi as <-. split; [reflexivity|discriminate].
    + injection Hi as <-. split; [reflexivity|discriminate].
    + destruct i; discriminate.
  - intros a Ha. change (Str.WORD_SIZE lp64) with 8 in Ha.
    change ((4096 + strlen "hi") / 8) with 512 in Ha.
    unfold mapped, mem_of_bytes. cbn [length].
    destruct (Z.leb_spec 4096 a); [|lia].
    destruct (Z.ltb_spec a (4096 + Z.of_nat 8)); [|lia]. cbn [andb].
    assert (Hk : (Z.to_nat (a - 4096) < 8)%nat) by lia.
    revert Hk. generalize (Z.to_nat (a - 4096)). intros k Hk.
    do 8 (destruct k as [|k]; [discriminate|]). lia.
Defined.

(** ** Field widths from the argument list *)

Lemma parse_star_width_s (W : Z) (va : va_list) :
  - 2 ^ 31 < W < 2 ^ 31 ->
  yalc_pf_parse_format "%*s" (VInt W :: va)
  = Ok (2, mk_fi (if W <? 0
                  then Z.lor (Z.lor SFLAG_HAS_WIDTH FFLAG_LEFT_ADJ) TFLAG_STRING
                  else Z.lor SFLAG_HAS_WIDTH TFLAG_STRING)
                 (Z.abs W) 0 0 0 0 RADIX_DEC, va).
Proof.
  intros HW.
  assert (Hs : s32 W = W) by (unfold s32, sN; rewrite Z.mod_small by lia; lia).
  unfold yalc_pf_parse_format.
  set (st0 := mk_ps yalc_clear_fi false false false).
  cbn [parse_loop].
  assert (E1 : parse_char "*" (peek "s"%string) st0 (VInt W :: va)
               = Ok (Continue
                       (mk_ps (mk_fi (if W <? 0 then Z.lor SFLAG_HAS_WIDTH FFLAG_LEFT_ADJ
                                      else SFLAG_HAS_WIDTH)
                                     (Z.abs W) 0 0 0 0 RADIX_DEC) true false false) va)).
  { unfold parse_char.
    change (width_from_arg st0 && prec_from_arg st0) with false.
    change (negb (has (fl st0) SFLAG_HAS_PREC)) with true.
    cbv iota. cbn [va_arg_int bind]. rewrite Hs.
    destruct (Z.ltb_spec W 0) as [Hneg|Hpos].
    - assert (Hs' : s32 (- W) = - W) by (unfold s32, sN; rewrite Z.mod_small by lia; lia).
      rewrite Hs'. rewrite Z.abs_neq by lia. reflexivity.
    - rewrite Z.abs_eq by lia. reflexivity. }
  rewrite E1. cbn [bind].
  destruct (W <? 0); reflexivity.
Qed.

Lemma string_field_width (inb : list ascii) (fi : format_info) :
  num_pad fi = 0 -> suffix_pad fi = 0 -> len inb < 2 ^ 64 ->
  field_width (mk_fld inb [] [] NUL) fi = len inb.
Proof.
  intros Hn Hs Hl. unfold field_width, prebuf_pad_of, postbuf_pad_of.
  rewrite Hn, Hs. cbn [prefix inbuff suffix sign_char].
  change (0 <? 0) with false. change (Ascii.eqb NUL NUL) with true. cbv iota.
  change (len []) with 0.
  rewrite u64_small by (unfold len in *; lia). lia.
Qed.

Lemma pad_text_spaces (n : Z) :
  0 <= n < 2 ^ 64 -> pad_text n " " = repeat " "%char (Z.to_nat n).
Proof. intros Hn. unfold pad_text. rewrite u64_small by lia. reflexivity. Qed.

(** The text of a string field under a width from the argument list. *)
Lemma star_width_field_text (inb : list ascii) (W : Z) :
  - 2 ^ 31 < W < 2 ^ 31 -> len inb < 2 ^ 31 ->
  field_text (mk_fld inb [] [] NUL)
             (mk_fi (if W <? 0
                     then Z.lor (Z.lor SFLAG_HAS_WIDTH FFLAG_LEFT_ADJ) TFLAG_STRING
                     else Z.lor SFLAG_HAS_WIDTH TFLAG_STRING)
                    (Z.abs W) 0 0 0 0 RADIX_DEC)
  = if W <? 0
    then inb ++ repeat " "%char (Z.to_nat (Z.abs W - len inb))
    else repeat " "%char (Z.to_nat (Z.abs W - len inb)) ++ inb.
Proof.
  intros HW Hl.
  assert (Hl0 : 0 <= len inb) by (unfold len; lia).
  set (fl := if W <? 0
             then Z.lor (Z.lor SFLAG_HAS_WIDTH FFLAG_LEFT_ADJ) TFLAG_STRING
             else Z.lor SFLAG_HAS_WIDTH TFLAG_STRING).
  set (fi := mk_fi fl (Z.abs W) 0 0 0 0 RADIX_DEC).
  assert (Hfw : field_width (mk_fld inb [] [] NUL) fi = len inb)
    by (apply string_field_width; [reflexivity|reflexivity|lia]).
  assert (Hwp : pad_text (width_pad_of (mk_fld inb [] [] NUL) fi) " "
                = repeat " "%char (Z.to_nat (Z.abs W - len inb))).
  { unfold width_pad_of. rewrite Hfw. change (width fi) with (Z.abs W).
    rewrite (u64_small (Z.abs W)) by lia.
    destruct (Z.ltb_spec (len inb) (Z.abs W)) as [Hlt|Hge].
    - rewrite s32_small by lia. apply pad_text_spaces. lia.
    - replace (Z.to_nat (Z.abs W - len inb)) with 0%nat by lia. reflexivity. }
  unfold field_text. rewrite Hwp.
  change (prebuf_pad_of fi) with 0. change (postbuf_pad_of fi) with 0.
  change (suffix_pad fi) with 0. change (flags fi) with fl.
  cbn [prefix inbuff suffix].
  change (pad_text 0 "0") with (@nil ascii).
  assert (Hnil : forall b, dir_text [] b = []) by (intros []; reflexivity).
  rewrite !Hnil.
  unfold fl. destruct (W <? 0).
  - change (Z.land (Z.shiftr (Z.lor (Z.lor SFLAG_HAS_WIDTH FFLAG_LEFT_ADJ) TFLAG_STRING) 1) 3)
      with 2.
    change (2 =? 0) with false. change (2 =? 1) with false. cbv iota.
    change (has (Z.lor (Z.lor SFLAG_HAS_WIDTH FFLAG_LEFT_ADJ) TFLAG_STRING) TRFLAG_REVERSE_NUM)
      with false.
    cbn [dir_text app]. rewrite !app_nil_r. reflexivity.
  - change (Z.land (Z.shiftr (Z.lor SFLAG_HAS_WIDTH TFLAG_STRING) 1) 3) with 0.
    change (0 =? 0) with true. cbv iota.
    change (has (Z.lor SFLAG_HAS_WIDTH TFLAG_STRING) TRFLAG_REVERSE_NUM) with false.
    cbn [dir_text app]. rewrite !app_nil_r. reflexivity.
Qed.

(** X25: a field width taken from the argument list pads the string to
    that many characters with spaces, on the left; a negative width pads
    on the right to its magnitude; a string longer than the width is
    printed in full. *)
Theorem star_width_pads_with_spaces (target : abi) (s : string) (W : Z) :
  - 2 ^ 31 < W < 2 ^ 31 ->
  let body := firstn 4095 (chars s) in
  let pad := repeat " "%char (Z.to_nat (Z.abs W - len body)) in
  let text := if W <? 0 then body ++ pad else pad ++ body in
  printed (vprintf target [] "%*s" [VInt W; VStr (Some s)])
  = Some (len text, string_of_list_ascii text)
  /\ len text = Z.max (Z.abs W) (len body).
Proof.
  intros HW body pad text.
  assert (Hb : body = strn s YALC_DEFAULT_STR_PREC) by reflexivity.
  assert (Hbl : 0 <= len body <= 4095).
  { pose proof (strn_length s YALC_DEFAULT_STR_PREC ltac:(unfold YALC_DEFAULT_STR_PREC; lia)).
    rewrite <- Hb in H. unfold YALC_DEFAULT_STR_PREC in H. unfold len in *. lia. }
  assert (Hlen : len text = Z.max (Z.abs W) (len body)).
  { unfold text, pad, len. destruct (W <? 0);
      rewrite length_app, repeat_length; unfold len in *; lia. }
  split; [|exact Hlen].
  set (fi := mk_fi (if W <? 0
                    then Z.lor (Z.lor SFLAG_HAS_WIDTH FFLAG_LEFT_ADJ) TFLAG_STRING
                    else Z.lor SFLAG_HAS_WIDTH TFLAG_STRING)
                   (Z.abs W) 0 0 0 0 RADIX_DEC).
  unfold vprintf.
  rewrite (xprintf_one_directive target "*" "s" _ [VInt W; VStr (Some s)] [VStr (Some s)] []
             2 fi fi (mk_fld body [] [] NUL)).
  - rewrite field_out_emit. unfold fi. rewrite star_width_field_text by lia.
    fold pad. fold text.
    rewrite emit_on_console by lia.
    cbn [printed chars_out console]. rewrite s32_small by lia. reflexivity.
  - discriminate.
  - apply parse_star_width_s. exact HW.
  - reflexivity.
  - unfold dispatch, fi. cbn [flags precision].
    destruct (W <? 0); reflexivity.
Qed.

Lemma star_width_pads_with_spaces_witness :
  printed (vprintf lp64 [] "%*s" [VInt (- 5); VStr (Some "abc"%string)])
  = Some (5, "abc  "%string).
Proof.
  exact (proj1 (star_width_pads_with_spaces lp64 "abc" (- 5) ltac:(lia))).
Defined.

(** ** The other integer conversions *)

Lemma itora_loop_case (base : Z) (hb : ascii) :
  hb = "a"%char \/ hb = "A"%char -> 2 <= base <= 16 ->
  forall (fuel : nat) (val : Z),
    0 <= val ->
    Forall (fun c => c = digit_char hb (digit_value c)) (itora_loop fuel base hb val).
Proof.
  intros Hb Hbase fuel. induction fuel as [|fuel IH]; intros val Hv.
  - constructor.
  - cbn [itora_loop]. constructor.
    + rewrite digit_char_value by (auto; pose proof (Z.mod_pos_bound val base); lia).
      reflexivity.
    + destruct (val / base =? 0); [constructor | apply IH, Z.div_pos; lia].
Qed.

(** [printf] of one [unsigned int] in a radix other than ten. *)
Lemma printf_unsigned32 (target : abi) (v : Z) (c : ascii) (fl r : Z) :
  c <> "%"%char ->
  yalc_pf_parse_format (String "%" (String c EmptyString)) [VInt v]
  = Ok (1, mk_fi fl 0 0 0 0 0 r, [VInt v]) ->
  fl = TFLAG_INT \/ fl = Z.lor SFLAG_UPPERCASE TFLAG_INT ->
  r = RADIX_HEX \/ r = RADIX_OCT \/ r = RADIX_BIN ->
  let text := rev (itora_loop 64 r (if has fl SFLAG_UPPERCASE then "A"%char else "a"%char)
                              (u32 v)) in
  vprintf target [] (String "%" (String c EmptyString)) [VInt v]
  = Ok (len text, mk_out None 0 (len text) text).
Proof.
  intros Hc Hparse Hfl Hr text.
  set (hb := if has fl SFLAG_UPPERCASE then "A"%char else "a"%char) in *.
  set (fi := mk_fi fl 0 0 32 0 0 r).
  assert (Hu : 0 <= u32 v < 2 ^ 32) by (unfold u32; apply Z.mod_pos_bound; lia).
  assert (Hlen : 0 <= len text <= 64).
  { unfold text, len. rewrite length_rev.
    pose proof (itora_loop_length 64 r hb (u32 v) ltac:(lia)). lia. }
  assert (Hrender : putll_render (u64 (u32 v)) fi
                    = (mk_fld (itora_loop 64 r hb (u32 v)) [] [] NUL,
                       with_flags fi (set_flag fl TRFLAG_REVERSE_NUM))).
  { rewrite u64_small by lia. unfold putll_render, putll_prefix, yalc_itora.
    cbn [radix flags fi].
    destruct Hfl as [-> | ->]; destruct Hr as [-> | [-> | ->]]; reflexivity. }
  assert (Hfo : forall out, yalc_pf_field_out
                              (mk_fld (itora_loop 64 r hb (u32 v)) [] [] NUL)
                              (with_flags fi (set_flag fl TRFLAG_REVERSE_NUM)) out
                            = emit text out).
  { intros out. rewrite field_out_emit. f_equal.
    rewrite plain_field_text; try reflexivity.
    - cbn [prefix inbuff suffix flags with_flags].
      replace (has (set_flag fl TRFLAG_REVERSE_NUM) TRFLAG_REVERSE_NUM) with true
        by (destruct Hfl as [-> | ->]; reflexivity).
      assert (Hn : forall b, dir_text [] b = []) by (intros []; reflexivity).
      rewrite !Hn. cbn [dir_text app]. rewrite app_nil_r. reflexivity.
    - cbn [flags with_flags]. destruct Hfl as [-> | ->]; reflexivity. }
  unfold vprintf.
  erewrite xprintf_one_directive with
    (ret := 1) (va1 := [VInt v]) (va2 := []) (fi := mk_fi fl 0 0 0 0 0 r).
  - rewrite Hfo. rewrite emit_on_console by lia.
    cbn [chars_out]. rewrite s32_small by lia. reflexivity.
  - exact Hc.
  - exact Hparse.
  - reflexivity.
  - unfold dispatch. cbn [flags].
    replace (Z.land fl TFLAG_MASK =? TFLAG_INT) with true
      by (destruct Hfl as [-> | ->]; reflexivity).
    replace (int_width target (mk_fi fl 0 0 0 0 0 r)) with (Some 32)
      by (destruct Hfl as [-> | ->]; reflexivity).
    change ((32 =? 8) || (32 =? 16) || (32 =? 32) || (32 =? 64)) with true.
    cbn [va_arg_int bind].
    replace (with_int_bitlen (mk_fi fl 0 0 0 0 0 r) 32) with fi by reflexivity.
    replace (has (flags fi) SFLAG_IS_SIGNED) with false
      by (destruct Hfl as [-> | ->]; reflexivity).
    change (int_arg 32 false v) with (Some (u64 (u32 v))).
    cbv beta iota. rewrite Hrender. reflexivity.
Qed.

(** X26: [%x], [%X], [%o], [%b] and [%B] print their argument, read as
    an [unsigned int], as a numeral in the radix of the conversion:
    the digits read back as the value, each is below the radix, and the
    letters are in capitals exactly for the capital conversions.  The
    value returned is the number of digits. *)
Theorem unsigned_conversions_print_the_numeral
        (target : abi) (v : Z) (c : ascii) (r : Z) (upper : bool) :
  In (c, r, upper) [("x"%char, RADIX_HEX, false); ("X"%char, RADIX_HEX, true);
                    ("o"%char, RADIX_OCT, false);
                    ("b"%char, RADIX_BIN, false); ("B"%char, RADIX_BIN, true)] ->
  exists digits,
    digits_value r digits = u32 v
    /\ Forall (fun d => 0 <= digit_value d < r
                        /\ d = digit_char (if upper then "A"%char else "a"%char)
                                          (digit_value d)) digits
    /\ printed (vprintf target [] (String "%" (String c EmptyString)) [VInt v])
       = Some (len digits, string_of_list_ascii (rev digits)).
Proof.
  intros Hin.
  assert (Hu : 0 <= u32 v < 2 ^ 32) by (unfold u32; apply Z.mod_pos_bound; lia).
  set (hb := if upper then "A"%char else "a"%char).
  assert (Hhb : hb = "a"%char \/ hb = "A"%char) by (unfold hb; destruct upper; auto).
  assert (Hr : 2 <= r <= 16 /\ 2 ^ 32 <= r ^ 64).
  { cbn [In] in Hin.
    destruct Hin as [E|[E|[E|[E|[E|[]]]]]]; injection E as <- <- <-;
      (split; [unfold RADIX_HEX, RADIX_OCT, RADIX_BIN; lia|vm_compute; discriminate]). }
  exists (itora_loop 64 r hb (u32 v)).
  split; [|split].
  - apply itora_loop_value; [exact Hhb|lia|]. change (Z.of_nat 64) with 64. lia.
  - pose proof (itora_loop_digits r hb Hhb ltac:(lia) 64 (u32 v) ltac:(lia)) as H1.
    pose proof (itora_loop_case r hb Hhb ltac:(lia) 64 (u32 v) ltac:(lia)) as H2.
    rewrite Forall_forall in *. intros d Hd. split; [apply H1|apply H2]; exact Hd.
  - cbn [In] in Hin.
    destruct Hin as [E|[E|[E|[E|[E|[]]]]]]; injection E as <- <- <-.
    + rewrite (printf_unsigned32 target v "x" TFLAG_INT RADIX_HEX);
        [unfold len; rewrite length_rev; reflexivity|discriminate|reflexivity|auto|auto].
    + rewrite (printf_unsigned32 target v "X" (Z.lor SFLAG_UPPERCASE TFLAG_INT) RADIX_HEX);
        [unfold len; rewrite length_rev; reflexivity|discriminate|reflexivity|auto|auto].
    + rewrite (printf_unsigned32 target v "o" TFLAG_INT RADIX_OCT);
        [unfold len; rewrite length_rev; reflexivity|discriminate|reflexivity|auto|auto].
    + rewrite (printf_unsigned32 target v "b" TFLAG_INT RADIX_BIN);
        [unfold len; rewrite length_rev; reflexivity|discriminate|reflexivity|auto|auto].
    + rewrite (printf_unsigned32 target v "B" (Z.lor SFLAG_UPPERCASE TFLAG_INT) RADIX_BIN);
        [unfold len; rewrite length_rev; reflexivity|discriminate|reflexivity|auto|auto].
Qed.

Lemma unsigned_conversions_print_the_numeral_witness :
  exists digits,
    digits_value RADIX_HEX digits = u32 (- 1)
    /\ Forall (fun d => 0 <= digit_value d < RADIX_HEX
                        /\ d = digit_char "A"%char (digit_value d)) digits
    /\ printed (vprintf lp64 [] "%X" [VInt (- 1)])
       = Some (len digits, string_of_list_ascii (rev digits)).
Proof.
  exact (unsigned_conversions_print_the_numeral lp64 (- 1) "X" RADIX_HEX true
           ltac:(right; left; reflexivity)).
Defined.

(** X27: [%p] prints its argument, read as an [unsigned long], in
    hexadecimal after the prefix [0x]; the null pointer is printed as
    [0], without prefix. *)
Theorem pointer_conversion_prints_hexadecimal (target : abi) (v : Z) :
  sizeof_long target = 8 ->
  exists digits,
    digits_value 16 digits = u64 v
    /\ Forall (fun d => 0 <= digit_value d < 16
                        /\ d = digit_char "a"%char (digit_value d)) digits
    /\ printed (vprintf target [] "%p" [VInt v])
       = let text := (if u64 v =? 0 then [] else ["0"; "x"]%char) ++ rev digits in
         Some (len text, string_of_list_ascii text).
Proof.
  intros Hlong.
  assert (Hu : 0 <= u64 v < 2 ^ 64) by apply u64_range.
  set (fl := Z.lor (Z.lor FFLAG_ALT LFLAG_LONG) TFLAG_INT).
  set (fi := mk_fi fl 0 0 64 0 0 RADIX_HEX).
  set (digits := itora_loop 64 16 "a" (u64 v)).
  set (pfx := if u64 v =? 0 then [] else ["0"; "x"]%char).
  exists digits. split; [|split].
  - apply itora_loop_value; [auto|lia|]. change (Z.of_nat 64) with 64.
    change (16 ^ 64) with (2 ^ 256). assert (2 ^ 64 < 2 ^ 256) by reflexivity. lia.
  - pose proof (itora_loop_digits 16 "a" ltac:(auto) ltac:(lia) 64 (u64 v) ltac:(lia)) as H1.
    pose proof (itora_loop_case 16 "a" ltac:(auto) ltac:(lia) 64 (u64 v) ltac:(lia)) as H2.
    rewrite Forall_forall in *. intros d Hd. split; [apply H1|apply H2]; exact Hd.
  - cbv zeta. fold pfx.
    assert (Hpl : (length pfx <= 2)%nat) by (unfold pfx; destruct (u64 v =? 0); cbn; lia).
    assert (Hlen : 0 <= len (pfx ++ rev digits) <= 66).
    { unfold len. rewrite length_app, length_rev.
      pose proof (itora_loop_length 64 16 "a" (u64 v) ltac:(lia)). fold digits in H. lia. }
    assert (Hrender : putll_render (u64 (u64 v)) fi
                      = (mk_fld digits pfx [] NUL,
                         with_flags fi (set_flag fl TRFLAG_REVERSE_NUM))).
    { rewrite (u64_small (u64 v)) by lia. unfold putll_render, putll_prefix.
      change (radix fi =? RADIX_DEC) with false.
      change (radix fi =? RADIX_HEX) with true.
      change (has (flags fi) FFLAG_ALT) with true.
      change (has (flags fi) SFLAG_UPPERCASE) with false.
      cbv iota. cbn [andb]. unfold pfx.
      destruct (u64 v =? 0); reflexivity. }
    assert (Hfo : forall out, yalc_pf_field_out (mk_fld digits pfx [] NUL)
                                (with_flags fi (set_flag fl TRFLAG_REVERSE_NUM)) out
                              = emit (pfx ++ rev digits) out).
    { intros out. rewrite field_out_emit. f_equal.
      rewrite plain_field_text; try reflexivity.
      cbn [prefix inbuff suffix flags with_flags].
      change (has (set_flag fl TRFLAG_REVERSE_NUM) TRFLAG_REVERSE_NUM) with true.
      change (has (set_flag fl TRFLAG_REVERSE_NUM) TRFLAG_REVERSE_PREFIX) with false.
      assert (Hn : forall b, dir_text [] b = []) by (intros []; reflexivity).
      rewrite !Hn. cbn [dir_text]. rewrite app_nil_r. reflexivity. }
    unfold vprintf.
    erewrite xprintf_one_directive with
      (ret := 1) (va1 := [VInt v]) (va2 := []) (fi := mk_fi fl 0 0 0 0 0 RADIX_HEX).
    + rewrite Hfo. rewrite emit_on_console by lia.
      cbn [printed chars_out console]. rewrite s32_small by lia. reflexivity.
    + discriminate.
    + reflexivity.
    + reflexivity.
    + unfold dispatch. cbn [flags].
      change (Z.land fl TFLAG_MASK =? TFLAG_INT) with true. cbv iota.
      replace (int_width target (mk_fi fl 0 0 0 0 0 RADIX_HEX)) with (Some 64).
      2:{ unfold int_width. cbn [int_bitlen flags].
          change (0 =? 0) with true. cbv iota.
          change (has fl LFLAG_INTMAX) with false.
          change (has fl LFLAG_LONG_LONG) with false.
          change (has fl LFLAG_LONG) with true. cbv iota.
          rewrite Hlong. reflexivity. }
      change ((64 =? 8) || (64 =? 16) || (64 =? 32) || (64 =? 64)) with true.
      cbn [va_arg_int bind].
      replace (with_int_bitlen (mk_fi fl 0 0 0 0 0 RADIX_HEX) 64) with fi by reflexivity.
      change (has (flags fi) SFLAG_IS_SIGNED) with false.
      change (int_arg 64 false v) with (Some (u64 (u64 v))).
      cbv beta iota. rewrite Hrender. reflexivity.
Qed.

Lemma pointer_conversion_prints_hexadecimal_witness :
  exists digits,
    digits_value 16 digits = u64 0
    /\ Forall (fun d => 0 <= digit_value d < 16
                        /\ d = digit_char "a"%char (digit_value d)) digits
    /\ printed (vprintf lp64 [] "%p" [VInt 0])
       = let text := (if u64 0 =? 0 then [] else ["0"; "x"]%char) ++ rev digits in
         Some (len text, string_of_list_ascii text).
Proof.
  exact (pointer_conversion_prints_hexadecimal lp64 0 eq_refl).
Defined.

(** ** The a-form of a double *)

Lemma digits_value_app (b : Z) (l1 l2 : list ascii) :
  digits_value b (l1 ++ l2)
  = digits_value b l1 + b ^ Z.of_nat (length l1) * digits_value b l2.
Proof.
  induction l1 as [|c l1 IH]; cbn [app digits_value length].
  - rewrite Z.pow_0_r. lia.
  - rewrite IH, Nat2Z.inj_succ, Z.pow_succ_r by lia. ring.
Qed.

Lemma digits_value_bound (b : Z) (l : list ascii) :
  1 <= b -> Forall (fun c => 0 <= digit_value c < b) l ->
  0 <= digits_value b l < b ^ Z.of_nat (length l).
Proof.
  intros Hb. induction 1 as [|c l Hc Hl IH]; cbn [digits_value length].
  - rewrite Z.pow_0_r. lia.
  - rewrite Nat2Z.inj_succ, Z.pow_succ_r by lia. nia.
Qed.

Lemma firstn_last (A : Type) (d : A) (l : list A) (n : nat) :
  length l = S n -> l = firstn n l ++ [List.last l d].
Proof.
  revert l. induction n as [|n IH]; intros l Hl.
  - destruct l as [|a [|b r]]; try discriminate. reflexivity.
  - destruct l as [|a r]; [discriminate|].
    injection Hl as Hl. cbn [firstn app].
    destruct r as [|b r]; [discriminate|].
    change (List.last (a :: b :: r) d) with (List.last (b :: r) d).
    f_equal. apply IH. exact Hl.
Qed.

(** The hexadecimal digits of a significand with its hidden bit: the
    leading digit is 1 and the thirteen others denote the significand. *)
Lemma hex_digits_of_significand (hb : ascii) (sig : Z) :
  hb = "a"%char \/ hb = "A"%char -> 0 <= sig < 2 ^ 52 ->
  let l := itora_loop 64 16 hb (sig + 2 ^ 52) in
  length l = 14%nat
  /\ List.last l NUL = "1"%char
  /\ digits_value 16 (firstn 13 l) = sig
  /\ length (firstn 13 l) = 13%nat.
Proof.
  intros Hhb Hs l.
  assert (Hlen : length l = 14%nat).
  { apply itora_loop_count; [lia|lia| |].
    - right. change (16 ^ (Z.of_nat 14 - 1)) with (2 ^ 52). lia.
    - change (16 ^ Z.of_nat 14) with (2 ^ 56). assert (2 ^ 52 + 2 ^ 52 < 2 ^ 56) by reflexivity. lia. }
  pose proof (itora_loop_value 16 hb Hhb ltac:(lia) 64 (sig + 2 ^ 52)) as Hval.
  fold l in Hval.
  assert (Hv : digits_value 16 l = sig + 2 ^ 52).
  { apply Hval. change (16 ^ Z.of_nat 64) with (2 ^ 256).
    assert (2 ^ 52 + 2 ^ 52 < 2 ^ 256) by reflexivity. lia. }
  pose proof (itora_loop_digits 16 hb Hhb ltac:(lia) 64 (sig + 2 ^ 52) ltac:(lia)) as Hd.
  pose proof (itora_loop_case 16 hb Hhb ltac:(lia) 64 (sig + 2 ^ 52) ltac:(lia)) as Hc.
  fold l in Hd, Hc.
  pose proof (firstn_last ascii NUL l 13 Hlen) as Hsplit.
  assert (Hf13 : length (firstn 13 l) = 13%nat) by (rewrite length_firstn; lia).
  assert (Hdf : Forall (fun c => 0 <= digit_value c < 16) (firstn 13 l)).
  { pose proof Hd as Hd'. rewrite <- (firstn_skipn 13 l) in Hd'.
    apply Forall_app in Hd'. exact (proj1 Hd'). }
  pose proof (digits_value_bound 16 _ ltac:(lia) Hdf) as Hb13.
  rewrite Hf13 in Hb13. change (16 ^ Z.of_nat 13) with (2 ^ 52) in Hb13.
  assert (Hin : In (List.last l NUL) l).
  { rewrite Hsplit at 2. apply in_or_app. right. left. reflexivity. }
  assert (Hdl : 0 <= digit_value (List.last l NUL) < 16)
    by (rewrite List.Forall_forall in Hd; apply Hd; exact Hin).
  assert (Hcl : List.last l NUL = digit_char hb (digit_value (List.last l NUL)))
    by (rewrite List.Forall_forall in Hc; apply Hc; exact Hin).
  rewrite Hsplit in Hv. rewrite digits_value_app, Hf13 in Hv.
  change (16 ^ Z.of_nat 13) with (2 ^ 52) in Hv.
  cbn [digits_value] in Hv.
  assert (H1 : digit_value (List.last l NUL) = 1) by nia.
  repeat split; try assumption.
  - rewrite Hcl, H1. destruct Hhb as [-> | ->]; reflexivity.
  - nia.
Qed.

Lemma itora_hex (val : Z) (fi : format_info) :
  radix fi = RADIX_HEX ->
  yalc_itora val fi
  = (itora_loop 64 16 (if has (flags fi) SFLAG_UPPERCASE then "A"%char else "a"%char) val,
     with_flags fi (set_flag (flags fi) TRFLAG_REVERSE_NUM)).
Proof. intros Hr. unfold yalc_itora. rewrite Hr. reflexivity. Qed.

Lemma itora_dec (val : Z) (fi : format_info) :
  radix fi = RADIX_DEC ->
  yalc_itora val fi
  = (itora_loop 64 10 (if has (flags fi) SFLAG_UPPERCASE then "A"%char else "a"%char) val,
     with_flags fi (set_flag (flags fi) TRFLAG_REVERSE_NUM)).
Proof. intros Hr. unfold yalc_itora. rewrite Hr. reflexivity. Qed.

Lemma s32_id (x : Z) : - 2 ^ 31 <= x < 2 ^ 31 -> s32 x = x.
Proof. intros H. unfold s32, sN. rewrite Z.mod_small by lia. lia. Qed.

(** The a-form of a normal double under the default precision. *)
Lemma putd_aform_normal (e sig : Z) (pfx : list ascii) (sc : ascii) (up : bool)
      (fi : format_info) :
  1 <= e <= 2046 -> 0 <= sig < 2 ^ 52 ->
  precision fi = 13 -> radix fi = RADIX_HEX ->
  has (flags fi) SFLAG_UPPERCASE = up ->
  has (set_flag (flags fi) TRFLAG_REVERSE_NUM) SFLAG_UPPERCASE = up ->
  let hb := if up then "A"%char else "a"%char in
  let hexl := itora_loop 64 16 hb (sig + 2 ^ 52) in
  let expd := itora_loop 64 10 hb (Z.abs (e - 1023)) in
  putd_aform e sig pfx sc up fi
  = Ok (mk_fld (firstn 13 hexl)
               (pfx ++ ["0"%char; if up then "X"%char else "x"%char; "1"%char; "."%char])
               (expd ++ [if e <? 1023 then "-"%char else "+"%char;
                         if up then "P"%char else "p"%char])
               sc,
        mk_fi (set_flag (set_flag (set_flag (flags fi) TRFLAG_REVERSE_NUM) TRFLAG_REVERSE_NUM)
                        TRFLAG_REVERSE_SUFFIX)
              (width fi) 13 (int_bitlen fi) (num_pad fi) (suffix_pad fi) 10).
Proof.
  intros He Hs Hp Hr Hup Hup' hb hexl expd.
  destruct (hex_digits_of_significand hb sig ltac:(unfold hb; destruct up; auto) Hs)
    as (Hlen & Hlast & _ & _).
  fold hexl in Hlen, Hlast.
  unfold putd_aform.
  destruct (Z.eqb_spec e 0) as [|_]; [lia|].
  change Ryu.SIGNIFICAND_BITS with 52.
  rewrite lor_hidden_bit by exact Hs.
  rewrite (s32_id (e - 1023)) by lia.
  cbn [bind]. rewrite Hp. change (13 <? 13) with false. cbv iota. cbn [bind].
  rewrite itora_hex by exact Hr. rewrite Hup. fold hb. fold hexl.
  cbv zeta.
  replace (len hexl - 1) with 13 by (unfold len; rewrite Hlen; reflexivity).
  rewrite Hlast.
  unfold exp_suffix.
  rewrite itora_dec by reflexivity.
  cbn [precision with_flags with_radix flags width int_bitlen num_pad suffix_pad radix].
  rewrite !Hp. change (u64 13) with 13. change (13 <? 13) with false. cbv iota.
  cbn [precision with_flags with_radix flags width int_bitlen num_pad suffix_pad radix].
  rewrite ?Hp. rewrite Hup'. fold hb.
  change (nz 13) with true. cbn [orb andb].
  change (u64 13) with 13. change (13 <? 13) with false. cbv iota.
  change (Z.to_nat 13) with 13%nat.
  rewrite <- app_assoc. cbn [app].
  assert (Hexp : u64 (if e - 1023 <? 0 then s32 (- (e - 1023)) else e - 1023)
                 = Z.abs (e - 1023)).
  { destruct (Z.ltb_spec (e - 1023) 0).
    - rewrite s32_id by lia. rewrite u64_small by lia. lia.
    - rewrite u64_small by lia. lia. }
  rewrite Hexp. fold expd.
  replace (e - 1023 <? 0) with (e <? 1023)
    by (destruct (Z.ltb_spec e 1023), (Z.ltb_spec (e - 1023) 0); try reflexivity; lia).
  unfold with_flags, with_radix.
  cbn [precision flags width int_bitlen num_pad suffix_pad radix].
  rewrite ?Hp. reflexivity.
Qed.

Lemma sign_bit_test (bits : Z) : nz (Z.land bits (Z.shiftl 1 63)) = Z.testbit bits 63.
Proof.
  unfold nz. change (Z.shiftl 1 63) with (2 ^ 63).
  destruct (Z.testbit bits 63) eqn:Ht.
  - destruct (Z.eqb_spec (Z.land bits (2 ^ 63)) 0) as [E|E]; [|reflexivity].
    exfalso. apply (f_equal (fun z => Z.testbit z 63)) in E.
    rewrite Z.land_spec, Ht, Z.pow2_bits_true, Z.bits_0 in E by lia. discriminate.
  - destruct (Z.eqb_spec (Z.land bits (2 ^ 63)) 0) as [E|E]; [reflexivity|].
    exfalso. apply E. apply Z.bits_inj'. intros n Hn.
    rewrite Z.land_spec, Z.bits_0.
    destruct (Z.eq_dec n 63) as [-> | Hne]; [rewrite Ht; reflexivity|].
    rewrite Z.pow2_bits_false by lia. apply andb_false_r.
Qed.

Lemma significand_range (bits : Z) : 0 <= Ryu.significand_of bits < 2 ^ 52.
Proof.
  unfold Ryu.significand_of. change (Z.shiftl 1 52 - 1) with (Z.ones 52).
  rewrite Z.land_ones by lia. apply Z.mod_pos_bound. lia.
Qed.

(** [yalc_putd] on a normal double in the a-form, as the parser sets
    the descriptor for [%a] and [%A]. *)
Lemma putd_render_aform (bits : Z) (up : bool) :
  1 <= Ryu.exponent_of bits <= 2046 ->
  let fl := if up then Z.lor SFLAG_UPPERCASE (Z.lor SFLAG_IS_AFORM TFLAG_DOUBLE)
            else Z.lor SFLAG_IS_AFORM TFLAG_DOUBLE in
  let hb := if up then "A"%char else "a"%char in
  let hexl := itora_loop 64 16 hb (Ryu.significand_of bits + 2 ^ 52) in
  let expd := itora_loop 64 10 hb (Z.abs (Ryu.exponent_of bits - 1023)) in
  putd_render bits (mk_fi fl 0 0 0 0 0 RADIX_HEX)
  = Ok (mk_fld (firstn 13 hexl)
               ((if Z.testbit bits 63 then ["-"%char] else [])
                ++ ["0"%char; if up then "X"%char else "x"%char; "1"%char; "."%char])
               (expd ++ [if Ryu.exponent_of bits <? 1023 then "-"%char else "+"%char;
                         if up then "P"%char else "p"%char])
               NUL,
        mk_fi (set_flag (set_flag (set_flag fl TRFLAG_REVERSE_NUM) TRFLAG_REVERSE_NUM)
                        TRFLAG_REVERSE_SUFFIX)
              0 13 0 0 0 10).
Proof.
  intros He fl hb hexl expd.
  unfold putd_render. rewrite putd_exponent_field, sign_bit_test.
  change (Z.land bits SIGNIFICAND_MASK) with (Ryu.significand_of bits).
  cbn [flags].
  replace (has fl SFLAG_HAS_PREC) with false by (unfold fl; destruct up; reflexivity).
  replace (has fl SFLAG_IS_AFORM) with true by (unfold fl; destruct up; reflexivity).
  cbn [negb]. cbv iota.
  cbn [precision with_precision flags].
  change (4096 <? 13) with false. cbv iota.
  unfold putd_sign. cbn [flags with_precision].
  replace (has fl FFLAG_ADDSIGN) with false by (unfold fl; destruct up; reflexivity).
  replace (has fl FFLAG_NOPSIGN) with false by (unfold fl; destruct up; reflexivity).
  replace (has fl FFLAG_ZERO_PAD) with false by (unfold fl; destruct up; reflexivity).
  cbn [negb andb].
  destruct (Z.eqb_spec (Ryu.exponent_of bits) EXPONENT_MASK) as [E|_];
    [change EXPONENT_MASK with 2047 in E; lia|].
  destruct (Z.eqb_spec (Ryu.exponent_of bits) 0) as [E|_]; [lia|]. cbn [andb].
  replace (Z.land (Z.shiftr fl 22) 7) with 4 by (unfold fl; destruct up; reflexivity).
  change (4 <? 4) with false. change (4 =? 4) with true. cbv iota. cbn [bind].
  replace (has fl SFLAG_UPPERCASE) with up by (unfold fl; destruct up; reflexivity).
  assert (Hgen : forall pfx,
            (let '(prefix, sign_char) := (pfx, NUL) in
             putd_aform (Ryu.exponent_of bits) (Ryu.significand_of bits) prefix sign_char up
                        (with_precision (mk_fi fl 0 0 0 0 0 RADIX_HEX) 13))
            = Ok (mk_fld (firstn 13 hexl)
                         (pfx ++ ["0"%char; if up then "X"%char else "x"%char;
                                  "1"%char; "."%char])
                         (expd ++ [if Ryu.exponent_of bits <? 1023 then "-"%char else "+"%char;
                                   if up then "P"%char else "p"%char])
                         NUL,
                  mk_fi (set_flag (set_flag (set_flag fl TRFLAG_REVERSE_NUM) TRFLAG_REVERSE_NUM)
                                  TRFLAG_REVERSE_SUFFIX)
                        0 13 0 0 0 10)).
  { intros pfx. cbv beta iota.
    rewrite (putd_aform_normal _ _ pfx NUL up); try reflexivity; try assumption.
    - apply significand_range.
    - unfold fl; destruct up; reflexivity.
    - unfold fl; destruct up; reflexivity. }
  destruct (Z.testbit bits 63).
  - change (Ascii.eqb "-" NUL) with false. cbn [negb]. apply (Hgen ["-"%char]).
  - change (Ascii.eqb NUL NUL) with true. cbn [negb]. apply (Hgen []).
Qed.

(** X28: on a normal double the a-form under its default precision is
    exact: [%a] prints the sign, [0x1.], the thirteen hexadecimal digits
    of the significand, [p], the sign of the exponent and the decimal
    digits of its magnitude, so the text determines every bit of the
    argument; [%A] prints the same in capitals. *)
Theorem aform_prints_every_bit (target : abi) (bits : Z) (upper : bool) :
  0 <= bits < 2 ^ 64 ->
  1 <= Ryu.exponent_of bits <= 2046 ->
  exists frac expd : list ascii,
    length frac = 13%nat
    /\ digits_value 16 frac = Ryu.significand_of bits
    /\ digits_value 10 expd = Z.abs (Ryu.exponent_of bits - 1023)
    /\ Forall (fun d => d = digit_char (if upper then "A"%char else "a"%char) (digit_value d))
              frac
    /\ printed (vprintf target []
                  (String "%" (String (if upper then "A"%char else "a"%char) EmptyString))
                  [VDouble bits])
       = let text :=
           (if Z.testbit bits 63 then ["-"%char] else [])
           ++ ["0"%char; if upper then "X"%char else "x"%char; "1"%char; "."%char]
           ++ rev frac
           ++ [if upper then "P"%char else "p"%char;
               if Ryu.exponent_of bits <? 1023 then "-"%char else "+"%char]
           ++ rev expd in
         Some (len text, string_of_list_ascii text).
Proof.
  intros Hb He.
  set (hb := if upper then "A"%char else "a"%char).
  assert (Hhb : hb = "a"%char \/ hb = "A"%char) by (unfold hb; destruct upper; auto).
  set (hexl := itora_loop 64 16 hb (Ryu.significand_of bits + 2 ^ 52)).
  set (expd := itora_loop 64 10 hb (Z.abs (Ryu.exponent_of bits - 1023))).
  pose proof (significand_range bits) as Hs.
  destruct (hex_digits_of_significand hb _ Hhb Hs) as (Hlen & Hlast & Hfv & Hfl).
  fold hexl in Hlen, Hlast, Hfv, Hfl.
  exists (firstn 13 hexl), expd.
  split; [exact Hfl|]. split; [exact Hfv|]. split; [|split].
  - apply itora_loop_value; [exact Hhb|lia|].
    change (10 ^ Z.of_nat 64) with (10 ^ 64). assert (1024 < 10 ^ 64) by reflexivity. lia.
  - pose proof (itora_loop_case 16 hb Hhb ltac:(lia) 64
                  (Ryu.significand_of bits + 2 ^ 52) ltac:(lia)) as Hc.
    fold hexl in Hc. rewrite <- (firstn_skipn 13 hexl) in Hc.
    apply Forall_app in Hc. exact (proj1 Hc).
  - cbv zeta.
    set (sgn := if Z.testbit bits 63 then ["-"%char] else []).
    set (fl := if upper then Z.lor SFLAG_UPPERCASE (Z.lor SFLAG_IS_AFORM TFLAG_DOUBLE)
               else Z.lor SFLAG_IS_AFORM TFLAG_DOUBLE).
    set (fi' := mk_fi (set_flag (set_flag (set_flag fl TRFLAG_REVERSE_NUM) TRFLAG_REVERSE_NUM)
                                TRFLAG_REVERSE_SUFFIX) 0 13 0 0 0 10).
    set (fld := mk_fld (firstn 13 hexl)
                  (sgn ++ ["0"%char; if upper then "X"%char else "x"%char; "1"%char; "."%char])
                  (expd ++ [if Ryu.exponent_of bits <? 1023 then "-"%char else "+"%char;
                            if upper then "P"%char else "p"%char])
                  NUL).
    set (text := sgn
                 ++ ["0"%char; if upper then "X"%char else "x"%char; "1"%char; "."%char]
                 ++ rev (firstn 13 hexl)
                 ++ [if upper then "P"%char else "p"%char;
                     if Ryu.exponent_of bits <? 1023 then "-"%char else "+"%char]
                 ++ rev expd).
    assert (Htext : field_text fld fi' = text).
    { rewrite plain_field_text; try reflexivity.
      - cbn [prefix inbuff suffix flags fld fi'].
        replace (has (set_flag (set_flag (set_flag fl TRFLAG_REVERSE_NUM) TRFLAG_REVERSE_NUM)
                               TRFLAG_REVERSE_SUFFIX) TRFLAG_REVERSE_PREFIX) with false
          by (unfold fl; destruct upper; reflexivity).
        replace (has (set_flag (set_flag (set_flag fl TRFLAG_REVERSE_NUM) TRFLAG_REVERSE_NUM)
                               TRFLAG_REVERSE_SUFFIX) TRFLAG_REVERSE_NUM) with true
          by (unfold fl; destruct upper; reflexivity).
        replace (has (set_flag (set_flag (set_flag fl TRFLAG_REVERSE_NUM) TRFLAG_REVERSE_NUM)
                               TRFLAG_REVERSE_SUFFIX) TRFLAG_REVERSE_SUFFIX) with true
          by (unfold fl; destruct upper; reflexivity).
        cbn [dir_text]. unfold text.
        rewrite rev_app_distr. cbn [rev app].
        rewrite <- !app_assoc. reflexivity.
      - cbn [flags fi']. unfold fl; destruct upper; reflexivity. }
    assert (Hel : (length expd <= 64)%nat)
      by (pose proof (itora_loop_length 64 10 hb (Z.abs (Ryu.exponent_of bits - 1023))
                        ltac:(lia)); fold expd in H; lia).
    assert (Htl : 0 <= len text <= 100).
    { unfold text, len. rewrite !length_app, !length_rev, Hfl. cbn [length].
      assert ((length sgn <= 1)%nat) by (unfold sgn; destruct (Z.testbit bits 63); cbn; lia).
      lia. }
    unfold vprintf.
    rewrite (xprintf_one_directive target hb "" _ [VDouble bits] [VDouble bits] []
               1 (mk_fi fl 0 0 0 0 0 RADIX_HEX) fi' fld).
    + rewrite field_out_emit, Htext. rewrite emit_on_console by lia.
      cbn [printed chars_out console]. rewrite s32_small by lia. reflexivity.
    + unfold hb; destruct upper; discriminate.
    + unfold hb, fl; destruct upper; reflexivity.
    + reflexivity.
    + rewrite dispatch_double.
      * rewrite u64_small by lia. unfold fl.
        rewrite (putd_render_aform bits upper He). reflexivity.
      * unfold fl; destruct upper; reflexivity.
      * unfold fl; destruct upper; reflexivity.
Qed.

Lemma aform_prints_every_bit_witness :
  exists frac expd : list ascii,
    length frac = 13%nat
    /\ digits_value 16 frac = Ryu.significand_of 0xC00921FB54442D18
    /\ digits_value 10 expd = Z.abs (Ryu.exponent_of 0xC00921FB54442D18 - 1023)
    /\ Forall (fun d => d = digit_char "a"%char (digit_value d)) frac
    /\ printed (vprintf lp64 [] "%a" [VDouble 0xC00921FB54442D18])
       = let text :=
           (if Z.testbit 0xC00921FB54442D18 63 then ["-"%char] else [])
           ++ ["0"%char; "x"%char; "1"%char; "."%char]
           ++ rev frac
           ++ ["p"%char;
               if Ryu.exponent_of 0xC00921FB54442D18 <? 1023 then "-"%char else "+"%char]
           ++ rev expd in
         Some (len text, string_of_list_ascii text).
Proof.
  exact (aform_prints_every_bit lp64 0xC00921FB54442D18 false
           ltac:(lia) ltac:(vm_compute; split; discriminate)).
Defined.
